(** * A shallow embedding of the DOJ listing scraper

    The development follows [tests/test-doj.spec.ts] (the variant with
    content-based block detection, bounded retries and checkpointing) and,
    for the page URL, [tests/doj-pdf-scraper.spec.ts].

    JavaScript numbers that hold page numbers, counters and delays are
    integers in every run of the program and are modelled as [Z], which is
    exact in the range where a JavaScript number is an exact integer and
    prints as a plain decimal numeral; strings are [string], over code units
    below 256; the [Set<string>] of known links is a [gset string]; files
    are a finite map from paths to contents.  Everything the program awaits
    (HTTP requests, sleeps, file writes) is made explicit: requests are
    answered by an oracle and the effects are recorded in a trace. *)

From Stdlib Require Import ZArith Lia Ascii String.
From Stdlib Require Import DecimalString DecimalFacts DecimalPos.
From stdpp Require Import base option list sorting gmap sets strings.

Local Open Scope Z_scope.

(** ** JavaScript string primitives used by the scraper *)

Module JS.

(** [s.includes(needle)] *)
Fixpoint includes (s needle : string) : bool :=
  String.prefix needle s ||
  match s with
  | EmptyString => false
  | String _ s' => includes s' needle
  end.

(** [s.split('\n')]: the pieces between line feeds; never empty. *)
Fixpoint split_lines (s : string) : list string :=
  match s with
  | EmptyString => [EmptyString]
  | String c s' =>
    if Ascii.eqb c "010" then EmptyString :: split_lines s'
    else match split_lines s' with
         | [] => [String c EmptyString]
         | piece :: pieces => String c piece :: pieces
         end
  end.

(** [lines.join('\n')] *)
Definition join_lines (lines : list string) : string :=
  String.concat (String "010" EmptyString) lines.

(** White space and line terminators of ECMAScript among the code units
    below 256 (TAB, LF, VT, FF, CR, SP, NBSP); strings are modelled over
    these code units, which cover every serialised URL. *)
Definition is_white_space (c : ascii) : bool :=
  match c with
  | "009" | "010" | "011" | "012" | "013" | " " | "160" => true
  | _ => false
  end%char.

Fixpoint trimStart (s : string) : string :=
  match s with
  | EmptyString => EmptyString
  | String c s' => if is_white_space c then trimStart s' else s
  end.

Fixpoint trimEnd (s : string) : string :=
  match s with
  | EmptyString => EmptyString
  | String c s' =>
    match trimEnd s' with
    | EmptyString => if is_white_space c then EmptyString else String c EmptyString
    | t => String c t
    end
  end.

(** No white space at the head. *)
Definition starts_clean (s : string) : Prop :=
  match s with
  | EmptyString => True
  | String c _ => is_white_space c = false
  end.

(** [s.trim()] *)
Definition trim (s : string) : string := trimEnd (trimStart s).

(** [Boolean(s)] for a string: it is not empty. *)
Definition truthy (s : string) : bool :=
  match s with EmptyString => false | String _ _ => true end.

(** Template-literal conversion of an integer-valued number: its decimal
    numeral, with a leading minus sign below zero. *)
Definition toString (n : Z) : string :=
  NilZero.string_of_int (Z.to_int n).

End JS.

(** ** Constants of [tests/test-doj.spec.ts] *)

Definition BASE_URL : string :=
  "https://www.justice.gov/epstein/doj-disclosures/data-set-9-files".
Definition MAX_PAGE : Z := 1000000003.
Definition CONCURRENCY : Z := 1.
Definition EMPTY_PAGES_BEFORE_STOP : Z := 30.
Definition CHECKPOINT_INTERVAL : Z := 50.
Definition MAX_RETRIES : Z := 5.
Definition RETRY_BASE_DELAY_MS : Z := 2000.
Definition BLOCKED_BACKOFF_MS : Z := 30000.
Definition MAX_BLOCKED_BEFORE_STOP : Z := 3.

(** ** PageFetcher and RetryPolicy: [fetchWithRetry] *)

Module Fetcher.

(** What [request.get] hands back when it does not throw. *)
Record Response := { status : Z; text : string }.

(** One attempt: [request.get] (or [response.text]) throws, or a response
    arrives. *)
Inductive Attempt :=
| Throws
| Responds (r : Response).

(** The [FetchResult] union, all four variants of the type declaration. *)
Inductive FetchResult :=
| st_ok (html : string)
| st_blocked
| st_error
| st_empty.

(** Effects of the fetcher, in program order. *)
Inductive Event :=
| Get (url : string)
| Sleep (ms : Z).

Definition isBlockedResponse (html : string) : bool :=
  JS.includes html "Access Denied" ||
  JS.includes html "don't have permission" ||
  JS.includes html "Reference #" ||
  JS.includes html "errors.edgesuite.net".

(** [response.ok()]: the status is in the range 200-299. *)
Definition response_ok (r : Response) : bool :=
  (200 <=? status r) && (status r <=? 299).

(** [status === 403 || status === 429 || status >= 500] *)
Definition rate_limited_or_server_error (r : Response) : bool :=
  (status r =? 403) || (status r =? 429) || (500 <=? status r).

Section Retry.
(** [request k] is the outcome of the [k]-th call of [request.get(url)]. *)
Variable request : nat -> Attempt.
Variable url : string.
Variable retries : Z.

(** The body of the [for] loop at index [attempt]; [fuel] counts the
    iterations that remain before [attempt <= retries] fails, and at that
    point the [return { status: 'error' }] behind the loop is reached.  The
    trace is kept newest-first. *)
Fixpoint attempts_from (fuel : nat) (attempt : nat) (tr : list Event)
  : FetchResult * list Event :=
  match fuel with
  | O => (st_error, tr)
  | S fuel' =>
    let tr := Get url :: tr in
    match request attempt with
    | Responds response =>
      let html := text response in
      if isBlockedResponse html then
        if Z.of_nat attempt <? retries then
          let delay := BLOCKED_BACKOFF_MS * (Z.of_nat attempt + 1) in
          attempts_from fuel' (S attempt) (Sleep delay :: tr)
        else (st_blocked, tr)
      else if response_ok response then (st_ok html, tr)
      else if rate_limited_or_server_error response
              && (Z.of_nat attempt <? retries) then
        let delay := RETRY_BASE_DELAY_MS * 2 ^ Z.of_nat attempt in
        attempts_from fuel' (S attempt) (Sleep delay :: tr)
      else (st_error, tr)
    | Throws =>
      if Z.of_nat attempt <? retries then
        let delay := RETRY_BASE_DELAY_MS * 2 ^ Z.of_nat attempt in
        attempts_from fuel' (S attempt) (Sleep delay :: tr)
      else (st_error, tr)
    end
  end.

(** [for (let attempt = 0; attempt <= retries; attempt++)] runs
    [retries + 1] times when [retries >= 0] and not at all otherwise. *)
Definition fetchWithRetry : FetchResult * list Event :=
  let '(res, tr) := attempts_from (Z.to_nat (retries + 1)) 0 [] in
  (res, rev tr).

(** The attempt at index [k] sends the loop round again. *)
Definition blocked_attempt (k : nat) : Prop :=
  exists r, request k = Responds r /\ isBlockedResponse (text r) = true.

(** Transport exception, or a 403/429/5xx answer that is not a block
    page. *)
Definition failed_attempt (k : nat) : Prop :=
  request k = Throws \/
  exists r, request k = Responds r /\ isBlockedResponse (text r) = false /\
            response_ok r = false /\ rate_limited_or_server_error r = true.

Definition retried_attempt (k : nat) : Prop :=
  blocked_attempt k \/ failed_attempt k.

End Retry.

(** Number of requests actually sent. *)
Definition is_get (e : Event) : bool :=
  match e with Get _ => true | Sleep _ => false end.

Definition attempts (tr : list Event) : nat :=
  length (List.filter is_get tr).

End Fetcher.

(** ** LinkStore: the link file and the in-memory set *)

Module LinkStore.

(** The loop of [readExistingLinks] that keeps the first occurrence of
    every line; [seen] is the [Set] of lines met so far and [deduped] is
    built by [push]. *)
Fixpoint dedupe_from (seen : gset string) (deduped : list string)
    (lines : list string) : list string :=
  match lines with
  | [] => deduped
  | line :: lines' =>
    if decide (line ∈ seen) then dedupe_from seen deduped lines'
    else dedupe_from ({[line]} ∪ seen) (deduped ++ [line]) lines'
  end.

(** [readExistingLinks]; the file is absent ([ENOENT]) or has contents. *)
Definition readExistingLinks (file : option string) : list string :=
  match file with
  | None => []
  | Some contents =>
    let lines := List.filter JS.truthy (map JS.trim (JS.split_lines contents)) in
    dedupe_from ∅ [] lines
  end.

(** The text [writeLinks] hands to [fs.writeFile]. *)
Definition writeLinks (links : list string) : string :=
  if (0 <? length links)%nat
  then (JS.join_lines links +:+ String "010" EmptyString)
  else EmptyString.

(** The link state of a session: [uniqueLinks], [allLinks] and the counter
    [newLinksThisRun] that admission updates together. *)
Record Links := {
  uniqueLinks : gset string;
  allLinks : list string;
  newLinksThisRun : Z;
}.

(** [const uniqueLinks = new Set(existingLinks); const allLinks =
    [...existingLinks]] *)
Definition load (file : option string) : Links :=
  let existingLinks := readExistingLinks file in
  {| uniqueLinks := list_to_set existingLinks;
     allLinks := existingLinks;
     newLinksThisRun := 0 |}.

(** Admission of one absolute URL:
    [if (!uniqueLinks.has(u)) { uniqueLinks.add(u); allLinks.push(u);
    newLinksThisRun += 1 }] *)
Definition add (absoluteUrl : string) (ls : Links) : Links :=
  if decide (absoluteUrl ∈ uniqueLinks ls) then ls
  else {| uniqueLinks := {[absoluteUrl]} ∪ uniqueLinks ls;
          allLinks := allLinks ls ++ [absoluteUrl];
          newLinksThisRun := newLinksThisRun ls + 1 |}.

Fixpoint no_line_feed (s : string) : bool :=
  match s with
  | EmptyString => true
  | String c s' => negb (Ascii.eqb c "010") && no_line_feed s'
  end.

(** A string that is one line of the link file as it stands: not empty, no
    line feed inside, no white space at either end.  Every serialised
    absolute URL is such a string. *)
Definition url_line (u : string) : bool :=
  JS.truthy u && no_line_feed u && bool_decide (JS.trim u = u).

(** The store holds each link once, in the set and in the list alike. *)
Definition consistent (ls : Links) : Prop :=
  NoDup (allLinks ls) /\ uniqueLinks ls = list_to_set (allLinks ls).

End LinkStore.

(** ** Numerals in texts: [parseInt] and the digits of JSON numbers *)

Module Numeral.

Definition is_digit (c : ascii) : bool :=
  match c with
  | "0" | "1" | "2" | "3" | "4" | "5" | "6" | "7" | "8" | "9" => true
  | _ => false
  end%char.

(** The longest prefix of decimal digits, and what follows it. *)
Fixpoint digits (s : string) : string * string :=
  match s with
  | EmptyString => (EmptyString, EmptyString)
  | String c s' =>
    if is_digit c then let '(ds, rest) := digits s' in (String c ds, rest)
    else (EmptyString, s)
  end.

(** What may follow a numeral: nothing, or a character that is no digit. *)
Definition ends_numeral (rest : string) : Prop :=
  match rest with
  | EmptyString => True
  | String c _ => is_digit c = false
  end.

(** A decimal numeral that starts with a digit from 1 to 9. *)
Definition leading_digit (u : Decimal.uint) : Prop :=
  match u with
  | Decimal.Nil | Decimal.D0 _ => False
  | _ => True
  end.

(** The number a string of digits denotes. *)
Definition value (ds : string) : Z :=
  match NilEmpty.uint_of_string ds with
  | Some u => Z.of_uint u
  | None => 0
  end.

(** A JavaScript number as far as the start page needs it: [NaN] or an
    integer. *)
Inductive number :=
| NaN
| Num (n : Z).

(** [parseInt(s, 10)]: leading white space is skipped, one sign is read,
    then the longest run of digits; no digit gives [NaN]. *)
Definition parseInt (s : string) : number :=
  let s := JS.trimStart s in
  let '(negative, s) :=
    match s with
    | String "-" s' => (true, s')
    | String "+" s' => (false, s')
    | _ => (false, s)
    end in
  let '(ds, _) := digits s in
  match ds with
  | EmptyString => NaN
  | _ => Num (if negative : bool then - value ds else value ds)
  end.

End Numeral.

(** ** JSON as [JSON.parse] and [JSON.stringify] treat the progress file *)

Module JSON.

#[local] Unset Elimination Schemes.
Inductive value :=
| Null
| Bool (b : bool)
| Num (n : Z)             (* a numeral without fraction and exponent *)
| Real (lexeme : string)  (* any other numeral, kept as written *)
| Str (s : string)
| Arr (items : list value)
| Obj (members : list (string * value)).
#[local] Set Elimination Schemes.

Definition is_ws (c : ascii) : bool :=
  match c with
  | " " | "009" | "010" | "013" => true
  | _ => false
  end%char.

Fixpoint skip_ws (s : string) : string :=
  match s with
  | String c s' => if is_ws c then skip_ws s' else s
  | EmptyString => EmptyString
  end.

Definition hex_digit (c : ascii) : option N :=
  let n := N_of_ascii c in
  (if (48 <=? n) && (n <=? 57) then Some (n - 48)
   else if (97 <=? n) && (n <=? 102) then Some (n - 87)
   else if (65 <=? n) && (n <=? 70) then Some (n - 55)
   else None)%N.

(** The character a two-character escape stands for. *)
Definition unescape (c : ascii) : option ascii :=
  match c with
  | "034" => Some "034" | "\" => Some "\" | "/" => Some "/"
  | "b" => Some "008" | "f" => Some "012" | "n" => Some "010"
  | "r" => Some "013" | "t" => Some "009"
  | _ => None
  end%char.

Definition prepend (c : ascii) (r : option (string * string))
  : option (string * string) :=
  match r with
  | Some (body, rest) => Some (String c body, rest)
  | None => None
  end.

(** The characters of a string literal after its opening quote, up to the
    closing quote.  A [\uXXXX] escape is decoded when it names a code unit
    below 256. *)
Fixpoint parse_chars (s : string) : option (string * string) :=
  match s with
  | EmptyString => None
  | String c s' =>
    if Ascii.eqb c "034" then Some (EmptyString, s')
    else if Ascii.eqb c "\" then
      match s' with
      | String "u" (String h1 (String h2 (String h3 (String h4 s'')))) =>
        match hex_digit h1, hex_digit h2, hex_digit h3, hex_digit h4 with
        | Some a, Some b, Some c, Some d =>
          let code := (((a * 16 + b) * 16 + c) * 16 + d)%N in
          if (code <? 256)%N then prepend (ascii_of_N code) (parse_chars s'')
          else None
        | _, _, _, _ => None
        end
      | String e s'' =>
        match unescape e with
        | Some ch => prepend ch (parse_chars s'')
        | None => None
        end
      | EmptyString => None
      end
    else if (N_of_ascii c <? 32)%N then None
    else prepend c (parse_chars s')
  end.

(** A JSON numeral: an optional minus sign, an integer part without a
    superfluous leading zero, an optional fraction and an optional
    exponent, each with at least one digit. *)
Definition parse_number (s : string) : option (value * string) :=
  let '(negative, s1) :=
    match s with
    | String "-" s' => (true, s')
    | _ => (false, s)
    end in
  let '(int_part, s2) := Numeral.digits s1 in
  match int_part with
  | EmptyString => None
  | String "0" (String _ _) => None
  | _ =>
    let '(frac, s3) :=
      match s2 with
      | String "." s' =>
        let '(ds, rest) := Numeral.digits s' in (Some ds, rest)
      | _ => (None, s2)
      end in
    let '(expo, s4) :=
      match s3 with
      | String c s' =>
        if Ascii.eqb c "e" || Ascii.eqb c "E" then
          let s'' :=
            match s' with
            | String "+" r | String "-" r => r
            | _ => s'
            end in
          let '(ds, rest) := Numeral.digits s'' in (Some ds, rest)
        else (None, s3)
      | EmptyString => (None, s3)
      end in
    match frac, expo with
    | Some EmptyString, _ | _, Some EmptyString => None
    | None, None =>
      let n := Numeral.value int_part in
      Some (Num (if negative : bool then - n else n), s4)
    | _, _ =>
      Some (Real (substring 0 (String.length s - String.length s4) s), s4)
    end
  end.

(** Recursive descent; [fuel] bounds the number of values, members and
    elements still to be read, so the length of the text is enough. *)
Fixpoint parse_value (fuel : nat) (s : string) : option (value * string) :=
  match fuel with
  | O => None
  | S fuel =>
    match skip_ws s with
    | String "{" r =>
      match skip_ws r with
      | String "}" r' => Some (Obj [], r')
      | r' => parse_members fuel r' []
      end
    | String "[" r =>
      match skip_ws r with
      | String "]" r' => Some (Arr [], r')
      | r' => parse_elements fuel r' []
      end
    | String "034" r =>
      match parse_chars r with
      | Some (str, r') => Some (Str str, r')
      | None => None
      end
    | String "t" (String "r" (String "u" (String "e" r))) => Some (Bool true, r)
    | String "f" (String "a" (String "l" (String "s" (String "e" r)))) =>
      Some (Bool false, r)
    | String "n" (String "u" (String "l" (String "l" r))) => Some (Null, r)
    | s' => parse_number s'
    end
  end
with parse_members (fuel : nat) (s : string) (acc : list (string * value))
  : option (value * string) :=
  match fuel with
  | O => None
  | S fuel =>
    match skip_ws s with
    | String "034" r =>
      match parse_chars r with
      | Some (key, r1) =>
        match skip_ws r1 with
        | String ":" r2 =>
          match parse_value fuel r2 with
          | Some (v, r3) =>
            match skip_ws r3 with
            | String "," r4 => parse_members fuel r4 (acc ++ [(key, v)])
            | String "}" r4 => Some (Obj (acc ++ [(key, v)]), r4)
            | _ => None
            end
          | None => None
          end
        | _ => None
        end
      | None => None
      end
    | _ => None
    end
  end
with parse_elements (fuel : nat) (s : string) (acc : list value)
  : option (value * string) :=
  match fuel with
  | O => None
  | S fuel =>
    match parse_value fuel s with
    | Some (v, r) =>
      match skip_ws r with
      | String "," r' => parse_elements fuel r' (acc ++ [v])
      | String "]" r' => Some (Arr (acc ++ [v]), r')
      | _ => None
      end
    | None => None
    end
  end.

(** [JSON.parse(text)]; [None] stands for the [SyntaxError]. *)
Definition parse (text : string) : option value :=
  match parse_value (S (String.length text)) text with
  | Some (v, rest) =>
    match skip_ws rest with
    | EmptyString => Some v
    | _ => None
    end
  | None => None
  end.

Definition hex_char (n : N) : ascii :=
  if (n <? 10)%N then ascii_of_N (48 + n) else ascii_of_N (87 + n).

(** The body of a quoted string as [JSON.stringify] writes it. *)
Fixpoint quote_chars (s : string) : string :=
  match s with
  | EmptyString => EmptyString
  | String c s' =>
    let rest := quote_chars s' in
    match c with
    | "034" => String "\" (String "034" rest)
    | "\" => String "\" (String "\" rest)
    | "008" => String "\" (String "b" rest)
    | "012" => String "\" (String "f" rest)
    | "010" => String "\" (String "n" rest)
    | "013" => String "\" (String "r" rest)
    | "009" => String "\" (String "t" rest)
    | _ =>
      if (N_of_ascii c <? 32)%N then
        String "\" (String "u" (String "0" (String "0"
          (String (hex_char (N_of_ascii c / 16))
             (String (hex_char (N_of_ascii c mod 16)) rest)))))
      else String c rest
    end%char
  end.

Definition quote (s : string) : string :=
  String "034" (quote_chars s +:+ String "034" EmptyString).

(** The member named [key] of an object; a later duplicate overrides an
    earlier one. *)
Fixpoint member (key : string) (members : list (string * value)) : option value :=
  match members with
  | [] => None
  | (k, v) :: rest =>
    match member key rest with
    | Some v' => Some v'
    | None => if String.eqb k key then Some v else None
    end
  end.

End JSON.

(** ** ProgressTracker: the progress file and the start page *)

Abbreviation Files := (gmap string string).

Module Progress.

Record ProgressState := {
  lastProcessedPage : Z;
  totalLinksFound : Z;
  timestamp : string;
}.

(** [JSON.stringify(state, null, 2)] for a progress record: members in the
    order of the object literal, two spaces of indentation. *)
Definition stringify (state : ProgressState) : string :=
  let nl := String "010" EmptyString in
  "{" +:+ nl +:+
  "  " +:+ JSON.quote "lastProcessedPage" +:+ ": "
       +:+ JS.toString (lastProcessedPage state) +:+ "," +:+ nl +:+
  "  " +:+ JSON.quote "totalLinksFound" +:+ ": "
       +:+ JS.toString (totalLinksFound state) +:+ "," +:+ nl +:+
  "  " +:+ JSON.quote "timestamp" +:+ ": "
       +:+ JSON.quote (timestamp state) +:+ nl +:+
  "}".

(** The cast [as ProgressState]: the declared type has two numbers and a
    string, and the cast itself checks nothing when the program runs.  The
    model covers the files of that type, which are the files [writeProgress]
    writes: a text that parses to anything else (a member missing or of
    another type) gives [None] here, whereas the program goes on with
    whatever [lastProcessedPage] it finds in it.  The properties below apply
    [readProgress] to a file that is absent, that does not parse, or that
    [writeProgress] wrote, where model and program agree. *)
Definition as_ProgressState (v : JSON.value) : option ProgressState :=
  match v with
  | JSON.Obj members =>
    match JSON.member "lastProcessedPage" members,
          JSON.member "totalLinksFound" members,
          JSON.member "timestamp" members with
    | Some (JSON.Num p), Some (JSON.Num n), Some (JSON.Str t) =>
      Some {| lastProcessedPage := p; totalLinksFound := n; timestamp := t |}
    | _, _, _ => None
    end
  | _ => None
  end.

(** [readProgress]: [null] when the file is absent and when it does not
    parse ("Progress file corrupted, starting fresh"). *)
Definition readProgress (files : Files) (filePath : string) : option ProgressState :=
  match files !! filePath with
  | None => None
  | Some contents =>
    match JSON.parse contents with
    | Some v => as_ProgressState v
    | None => None
    end
  end.

(** A completed [fs.writeFile(filePath, data, 'utf8')]. *)
Definition writeFile (filePath data : string) (files : Files) : Files :=
  <[filePath := data]> files.

(** What is on disk when [fs.writeFile] is cut short: the file was opened
    for writing, which creates or truncates it, and the first [written]
    characters of [data] have reached it. *)
Definition writeFile_interrupted (filePath data : string) (written : nat)
    (files : Files) : Files :=
  <[filePath := substring 0 written data]> files.

(** [writeProgress]: one [fs.writeFile] on the progress path itself. *)
Definition writeProgress (filePath : string) (state : ProgressState)
    (files : Files) : Files :=
  writeFile filePath (stringify state) files.

Definition writeProgress_interrupted (filePath : string) (state : ProgressState)
    (written : nat) (files : Files) : Files :=
  writeFile_interrupted filePath (stringify state) written files.

(** [process.env.START_PAGE ? parseInt(process.env.START_PAGE, 10) : null];
    an unset variable and the empty string are both falsy. *)
Definition envStartPage (START_PAGE : option string) : option Numeral.number :=
  match START_PAGE with
  | Some s => if JS.truthy s then Some (Numeral.parseInt s) else None
  | None => None
  end.

(** [existingProgress?.lastProcessedPage ?? -1] *)
Definition resumePage (existingProgress : option ProgressState) : Z :=
  match existingProgress with
  | Some p => lastProcessedPage p
  | None => -1
  end.

(** [envStartPage ?? resumePage + 1] *)
Definition startPage (START_PAGE : option string)
    (existingProgress : option ProgressState) : Numeral.number :=
  match envStartPage START_PAGE with
  | Some n => n
  | None => Numeral.Num (resumePage existingProgress + 1)
  end.

End Progress.

(** ** BatchScheduler and CrawlController: the test body of
    [tests/test-doj.spec.ts] *)

Module Scheduler.

(** The constants of the file, gathered so that a session can be run at
    another width or threshold than the ones written in it; [shipped]
    below holds the values of the source. *)
Record Config := {
  concurrency : Z;
  max_page : Z;
  empty_pages_before_stop : Z;
  checkpoint_interval : Z;
  max_retries : Z;
  batch_delay_ms : Z;
  blocked_backoff_ms : Z;
  max_blocked_before_stop : Z;
  outputPath : string;
  progressPath : string;
}.

(** [BATCH_DELAY_MS] comes from the environment (500 by default); the two
    paths are resolved next to the test directory. *)
Definition shipped (BATCH_DELAY_MS : Z) : Config :=
  {| concurrency := CONCURRENCY;
     max_page := MAX_PAGE;
     empty_pages_before_stop := EMPTY_PAGES_BEFORE_STOP;
     checkpoint_interval := CHECKPOINT_INTERVAL;
     max_retries := MAX_RETRIES;
     batch_delay_ms := BATCH_DELAY_MS;
     blocked_backoff_ms := BLOCKED_BACKOFF_MS;
     max_blocked_before_stop := MAX_BLOCKED_BEFORE_STOP;
     outputPath := "pdf-links.txt";
     progressPath := "pdf-links.progress.json" |}.

(** The same constants at another batch width. *)
Definition at_width (width : Z) (cfg : Config) : Config :=
  {| concurrency := width;
     max_page := max_page cfg;
     empty_pages_before_stop := empty_pages_before_stop cfg;
     checkpoint_interval := checkpoint_interval cfg;
     max_retries := max_retries cfg;
     batch_delay_ms := batch_delay_ms cfg;
     blocked_backoff_ms := blocked_backoff_ms cfg;
     max_blocked_before_stop := max_blocked_before_stop cfg;
     outputPath := outputPath cfg;
     progressPath := progressPath cfg |}.

Definition formatPageUrl (pageNumber : Z) : string :=
  BASE_URL +:+ "?page=" +:+ JS.toString pageNumber.

(** *** The link pattern of [html.matchAll]

    The pattern, global and case-insensitive, is the attribute name [href],
    an equals sign and a double quote, then the captured group (one or
    more characters other than a double quote, followed by [.pdf]), then a
    closing double quote. *)

Definition lower (c : ascii) : ascii :=
  let n := N_of_ascii c in
  if ((65 <=? n) && (n <=? 90))%N then ascii_of_N (n + 32) else c.

(** [p], written in lower case, is a prefix of [s] up to the case of
    letters. *)
Fixpoint prefix_ci (p s : string) : bool :=
  match p, s with
  | EmptyString, _ => true
  | String a p', String b s' => Ascii.eqb a (lower b) && prefix_ci p' s'
  | String _ _, EmptyString => false
  end.

(** The run of characters before the next double quote, and whether that
    quote is there. *)
Fixpoint until_quote (s : string) : string * bool :=
  match s with
  | EmptyString => (EmptyString, false)
  | String c s' =>
    if Ascii.eqb c "034" then (EmptyString, true)
    else let '(run, closed) := until_quote s' in (String c run, closed)
  end.

(** [run] is at least one character followed by [.pdf] in any case. *)
Definition pdf_name (run : string) : bool :=
  let n := String.length run in
  (4 <? n)%nat && prefix_ci ".pdf" (substring (n - 4) 4 run).

(** A match of the pattern that starts at the head of [s]: the captured
    group. *)
Definition match_here (s : string) : option string :=
  if prefix_ci ("href=" +:+ String "034" EmptyString) s then
    let '(run, closed) := until_quote (substring 6 (String.length s - 6) s) in
    if closed && pdf_name run then Some run else None
  else None.

(** Successive matches from left to right; after a match the search goes
    on behind its closing quote ([skip] characters are passed over). *)
Fixpoint matches_from (skip : nat) (s : string) : list string :=
  match s with
  | EmptyString => []
  | String _ s' =>
    match skip with
    | S skip' => matches_from skip' s'
    | O =>
      match match_here s with
      | Some run => run :: matches_from (6 + String.length run) s'
      | None => matches_from 0 s'
      end
    end
  end.

Definition matchPdfHrefs (html : string) : list string := matches_from 0 html.

(** *** One page of a batch *)

Record BatchResult := {
  pageNumber : Z;
  hrefs : list string;
  blocked : bool;
}.

(** The callback of [batchPages.map]: what it returns for a
    [FetchResult]. *)
Definition toBatchResult (pageNumber : Z) (result : Fetcher.FetchResult)
  : BatchResult :=
  match result with
  | Fetcher.st_ok html =>
    {| pageNumber := pageNumber; hrefs := matchPdfHrefs html; blocked := false |}
  | Fetcher.st_blocked =>
    {| pageNumber := pageNumber; hrefs := []; blocked := true |}
  | Fetcher.st_error | Fetcher.st_empty =>
    {| pageNumber := pageNumber; hrefs := []; blocked := false |}
  end.

(** [batchResults.sort((a, b) => a.pageNumber - b.pageNumber)]: a stable
    sort by page number. *)
Fixpoint insert_by_page (r : BatchResult) (sorted : list BatchResult)
  : list BatchResult :=
  match sorted with
  | [] => [r]
  | r' :: rest =>
    if pageNumber r <=? pageNumber r' then r :: sorted
    else r' :: insert_by_page r rest
  end.

Definition sort_by_page (results : list BatchResult) : list BatchResult :=
  foldr insert_by_page [] results.

(** Page order on results, loose and strict. *)
Definition le_page (a b : BatchResult) : Prop := pageNumber a <= pageNumber b.
Definition lt_page (a b : BatchResult) : Prop := pageNumber a < pageNumber b.

(** *** Session state and effects *)

Inductive Message :=
| EntireBatchBlocked (blockedCount : Z)
| TooManyBlocked
| NoLinksStop (lastPage : Z)
| CheckpointAt (page : Z) (nlinks : nat).

(** What the session does to the outside, newest first; the messages kept
    are those that tell the ways of stopping apart. *)
Inductive Event :=
| Dispatch (pages : list Z)
| Sleep (ms : Z)
| Log (m : Message).

(** The variables of the test body that live across batches, the two
    files, and the trace. *)
Record Session := {
  start : Z;
  shouldStop : bool;
  lastProcessedPage : Z;
  blockedCount : Z;
  emptyPagesInARow : Z;
  batchCount : Z;
  pagesProcessed : Z;
  linksFoundThisRun : Z;
  links : LinkStore.Links;
  files : Files;
  trace : list Event;
}.

Definition set_start (v : Z) (st : Session) : Session :=
  {| start := v; shouldStop := shouldStop st;
     lastProcessedPage := lastProcessedPage st; blockedCount := blockedCount st;
     emptyPagesInARow := emptyPagesInARow st; batchCount := batchCount st;
     pagesProcessed := pagesProcessed st;
     linksFoundThisRun := linksFoundThisRun st; links := links st;
     files := files st; trace := trace st |}.

Definition set_shouldStop (v : bool) (st : Session) : Session :=
  {| start := start st; shouldStop := v;
     lastProcessedPage := lastProcessedPage st; blockedCount := blockedCount st;
     emptyPagesInARow := emptyPagesInARow st; batchCount := batchCount st;
     pagesProcessed := pagesProcessed st;
     linksFoundThisRun := linksFoundThisRun st; links := links st;
     files := files st; trace := trace st |}.

Definition set_lastProcessedPage (v : Z) (st : Session) : Session :=
  {| start := start st; shouldStop := shouldStop st;
     lastProcessedPage := v; blockedCount := blockedCount st;
     emptyPagesInARow := emptyPagesInARow st; batchCount := batchCount st;
     pagesProcessed := pagesProcessed st;
     linksFoundThisRun := linksFoundThisRun st; links := links st;
     files := files st; trace := trace st |}.

Definition set_blockedCount (v : Z) (st : Session) : Session :=
  {| start := start st; shouldStop := shouldStop st;
     lastProcessedPage := lastProcessedPage st; blockedCount := v;
     emptyPagesInARow := emptyPagesInARow st; batchCount := batchCount st;
     pagesProcessed := pagesProcessed st;
     linksFoundThisRun := linksFoundThisRun st; links := links st;
     files := files st; trace := trace st |}.

Definition set_emptyPagesInARow (v : Z) (st : Session) : Session :=
  {| start := start st; shouldStop := shouldStop st;
     lastProcessedPage := lastProcessedPage st; blockedCount := blockedCount st;
     emptyPagesInARow := v; batchCount := batchCount st;
     pagesProcessed := pagesProcessed st;
     linksFoundThisRun := linksFoundThisRun st; links := links st;
     files := files st; trace := trace st |}.

Definition set_batchCount (v : Z) (st : Session) : Session :=
  {| start := start st; shouldStop := shouldStop st;
     lastProcessedPage := lastProcessedPage st; blockedCount := blockedCount st;
     emptyPagesInARow := emptyPagesInARow st; batchCount := v;
     pagesProcessed := pagesProcessed st;
     linksFoundThisRun := linksFoundThisRun st; links := links st;
     files := files st; trace := trace st |}.

(** [pagesProcessed += 1; linksFoundThisRun += n] *)
Definition count_page (n : Z) (st : Session) : Session :=
  {| start := start st; shouldStop := shouldStop st;
     lastProcessedPage := lastProcessedPage st; blockedCount := blockedCount st;
     emptyPagesInARow := emptyPagesInARow st; batchCount := batchCount st;
     pagesProcessed := pagesProcessed st + 1;
     linksFoundThisRun := linksFoundThisRun st + n; links := links st;
     files := files st; trace := trace st |}.

Definition set_links (v : LinkStore.Links) (st : Session) : Session :=
  {| start := start st; shouldStop := shouldStop st;
     lastProcessedPage := lastProcessedPage st; blockedCount := blockedCount st;
     emptyPagesInARow := emptyPagesInARow st; batchCount := batchCount st;
     pagesProcessed := pagesProcessed st;
     linksFoundThisRun := linksFoundThisRun st; links := v;
     files := files st; trace := trace st |}.

Definition set_files (v : Files) (st : Session) : Session :=
  {| start := start st; shouldStop := shouldStop st;
     lastProcessedPage := lastProcessedPage st; blockedCount := blockedCount st;
     emptyPagesInARow := emptyPagesInARow st; batchCount := batchCount st;
     pagesProcessed := pagesProcessed st;
     linksFoundThisRun := linksFoundThisRun st; links := links st;
     files := v; trace := trace st |}.

Definition emit (e : Event) (st : Session) : Session :=
  {| start := start st; shouldStop := shouldStop st;
     lastProcessedPage := lastProcessedPage st; blockedCount := blockedCount st;
     emptyPagesInARow := emptyPagesInARow st; batchCount := batchCount st;
     pagesProcessed := pagesProcessed st;
     linksFoundThisRun := linksFoundThisRun st; links := links st;
     files := files st; trace := e :: trace st |}.

(** How an iteration of the outer [for] ends: at its end or at [continue]
    (the increment [start += CONCURRENCY] follows), or at [break]. *)
Inductive Flow :=
| Continue
| Break.

Section Run.
Variable cfg : Config.

(** [new URL(href, BASE_URL).toString()]: the serialised absolute URL,
    or [None] when the constructor throws. *)
Variable newURL : string -> option string.

(** [Array.from({ length: CONCURRENCY }, (_, index) => start + index)
    .filter((pageNumber) => pageNumber <= MAX_PAGE)] *)
Definition batchPages (start : Z) : list Z :=
  List.filter (fun pageNumber => pageNumber <=? max_page cfg)
    (map (fun index => start + index) (seqZ 0 (concurrency cfg))).

(** One page through [fetchWithRetry] and the callback; [net pageNumber]
    answers the requests for that page in this round. *)
Definition fetchPage (net : Z -> nat -> Fetcher.Attempt) (pageNumber : Z)
  : BatchResult :=
  toBatchResult pageNumber
    (Fetcher.fetchWithRetry (net pageNumber) (formatPageUrl pageNumber)
       (max_retries cfg)).1.

(** Every page of the batch at the cursor of [st] ends blocked in
    [round]. *)
Definition fully_blocked (net : nat -> Z -> nat -> Fetcher.Attempt)
    (round : nat) (st : Session) : Prop :=
  forall p, p ∈ batchPages (start st) ->
            blocked (fetchPage (net round) p) = true.

(** [for (const href of result.hrefs)]: [None] when an href does not
    resolve and the exception leaves the test body. *)
Fixpoint addHrefs (hrefs : list string) (ls : LinkStore.Links)
  : option LinkStore.Links :=
  match hrefs with
  | [] => Some ls
  | href :: rest =>
    match newURL href with
    | Some absoluteUrl => addHrefs rest (LinkStore.add absoluteUrl ls)
    | None => None
    end
  end.

(** The body of [for (const result of batchResults)]; the flag tells
    whether it ended in [break]. *)
Definition processResult (result : BatchResult) (st : Session)
  : option (Session * bool) :=
  if blocked result then Some (st, false)
  else
    let st := set_lastProcessedPage (pageNumber result) st in
    if (length (hrefs result) =? 0)%nat then
      let st := set_emptyPagesInARow (emptyPagesInARow st + 1) st in
      if empty_pages_before_stop cfg <=? emptyPagesInARow st then
        Some (set_shouldStop true
                (emit (Log (NoLinksStop (pageNumber result))) st), true)
      else Some (st, false)
    else
      let st := set_emptyPagesInARow 0 st in
      let st := count_page (Z.of_nat (length (hrefs result))) st in
      match addHrefs (hrefs result) (links st) with
      | Some ls => Some (set_links ls st, false)
      | None => None
      end.

Fixpoint processResults (results : list BatchResult) (st : Session)
  : option Session :=
  match results with
  | [] => Some st
  | result :: rest =>
    match processResult result st with
    | Some (st', true) => Some st'
    | Some (st', false) => processResults rest st'
    | None => None
    end
  end.

(** [saveCheckpoint(lastPage)]; [now] is [new Date().toISOString()]. *)
Definition saveCheckpoint (now : string) (lastPage : Z) (st : Session)
  : Session :=
  let state :=
    {| Progress.lastProcessedPage := lastPage;
       Progress.totalLinksFound :=
         Z.of_nat (size (LinkStore.uniqueLinks (links st)));
       Progress.timestamp := now |} in
  let files := Progress.writeProgress (progressPath cfg) state (files st) in
  let files :=
    Progress.writeFile (outputPath cfg)
      (LinkStore.writeLinks (LinkStore.allLinks (links st))) files in
  set_files files st.

Definition count_blocked (results : list BatchResult) : nat :=
  length (List.filter blocked results).

(** The iteration behind [batchResults.sort]: the block check, the loop
    over the results in the order of the list, the checkpoint and the
    pause. *)
Definition processBatch (now : string) (batchResults : list BatchResult)
    (st : Session) : option (Session * Flow) :=
  let blockedInBatch := count_blocked batchResults in
  if (blockedInBatch =? length batchResults)%nat then
    let st := set_blockedCount (blockedCount st + 1) st in
    let st := emit (Log (EntireBatchBlocked (blockedCount st))) st in
    if max_blocked_before_stop cfg <=? blockedCount st then
      Some (set_shouldStop true (emit (Log TooManyBlocked) st), Break)
    else
      let st := emit (Sleep (blocked_backoff_ms cfg)) st in
      Some (set_start (start st - concurrency cfg) st, Continue)
  else
    let st := if (blockedInBatch =? 0)%nat then set_blockedCount 0 st else st in
    match processResults batchResults st with
    | None => None
    | Some st =>
      let st := set_batchCount (batchCount st + 1) st in
      let st :=
        if Z.rem (batchCount st) (checkpoint_interval cfg) =? 0 then
          saveCheckpoint now (lastProcessedPage st)
            (emit (Log (CheckpointAt (lastProcessedPage st)
                          (length (LinkStore.allLinks (links st))))) st)
        else st in
      let st :=
        if (0 <? batch_delay_ms cfg) && negb (shouldStop st)
        then emit (Sleep (batch_delay_ms cfg)) st else st in
      Some (st, Continue)
    end.

(** The iteration from [batchResults.sort] on, for results that arrive
    in any order. *)
Definition aggregate (now : string) (batchResults : list BatchResult)
    (st : Session) : option (Session * Flow) :=
  processBatch now (sort_by_page batchResults) st.

(** One iteration of the outer loop; [Promise.all] hands the results over
    in the order of [batchPages]. *)
Definition iteration (net : Z -> nat -> Fetcher.Attempt) (now : string)
    (st : Session) : option (Session * Flow) :=
  let pages := batchPages (start st) in
  aggregate now (map (fetchPage net) pages) (emit (Dispatch pages) st).

Inductive Run :=
| Finished (st : Session)
| Threw
| OutOfFuel.

(** [for (let start = startPage; start <= MAX_PAGE && !shouldStop;
    start += CONCURRENCY)], from the state [st] at its [round]-th
    iteration; [net round] and [clock round] are the network and the
    time of that iteration. *)
Fixpoint loop (net : nat -> Z -> nat -> Fetcher.Attempt)
    (clock : nat -> string) (fuel : nat) (round : nat) (st : Session) : Run :=
  if (start st <=? max_page cfg) && negb (shouldStop st) then
    match fuel with
    | O => OutOfFuel
    | S fuel =>
      match iteration (net round) (clock round) st with
      | None => Threw
      | Some (st', Break) => Finished st'
      | Some (st', Continue) =>
        loop net clock fuel (S round)
          (set_start (start st' + concurrency cfg) st')
      end
    end
  else Finished st.

(** The state in which the loop is entered. *)
Definition initial (startPage : Z) (files : Files) : Session :=
  {| start := startPage; shouldStop := false;
     lastProcessedPage := startPage - 1; blockedCount := 0;
     emptyPagesInARow := 0; batchCount := 0; pagesProcessed := 0;
     linksFoundThisRun := 0;
     links := LinkStore.load (files !! outputPath cfg);
     files := files; trace := [] |}.

(** The test body from the start page on: the loop, then the final
    [saveCheckpoint(lastProcessedPage)] at time [final].  A [START_PAGE]
    without digits makes the start page [NaN]; such a session is not
    modelled ([None]). *)
Definition scrape (net : nat -> Z -> nat -> Fetcher.Attempt)
    (clock : nat -> string) (final : string) (fuel : nat)
    (START_PAGE : option string) (files : Files) : option Run :=
  match Progress.startPage START_PAGE
          (Progress.readProgress files (progressPath cfg)) with
  | Numeral.NaN => None
  | Numeral.Num startPage =>
    Some match loop net clock fuel 0 (initial startPage files) with
         | Finished st => Finished (saveCheckpoint final (lastProcessedPage st) st)
         | r => r
         end
  end.

End Run.

(** The batches handed to [Promise.all], oldest first. *)
Definition dispatched (tr : list Event) : list (list Z) :=
  rev (omap (fun e => match e with Dispatch pages => Some pages | _ => None end) tr).

(** The pauses taken, oldest first. *)
Definition slept (tr : list Event) : list Z :=
  rev (omap (fun e => match e with Sleep ms => Some ms | _ => None end) tr).

End Scheduler.

(** ** The page URL of [tests/doj-pdf-scraper.spec.ts] *)

Module PdfScraper.

(** The [url] that [scrapePage] passes to [page.goto]. *)
Definition scrapePage_url (pageNum : Z) : string :=
  if pageNum =? 1 then BASE_URL
  else BASE_URL +:+ "?page=" +:+ JS.toString pageNum.

End PdfScraper.

(** ** The pauses of [fetchWithRetry] *)

Module Backoff.

(** The pause that follows the attempt at index [attempt] when the loop goes
    round again: linear behind a block page, exponential behind a failure. *)
Definition delay_after (a : Fetcher.Attempt) (attempt : nat) : Z :=
  match a with
  | Fetcher.Responds r =>
    if Fetcher.isBlockedResponse (Fetcher.text r)
    then BLOCKED_BACKOFF_MS * (Z.of_nat attempt + 1)
    else RETRY_BASE_DELAY_MS * 2 ^ Z.of_nat attempt
  | Fetcher.Throws => RETRY_BASE_DELAY_MS * 2 ^ Z.of_nat attempt
  end.

(** The requests and pauses of [n] retried attempts from index [a] on. *)
Definition rounds (request : nat -> Fetcher.Attempt) (url : string)
    (a n : nat) : list Fetcher.Event :=
  flat_map (fun i => [Fetcher.Get url; Fetcher.Sleep (delay_after (request i) i)])
    (seq a n).

(** An answer that is no block page, not OK and not 403, 429 or 5xx. *)
Definition fatal_attempt (request : nat -> Fetcher.Attempt) (k : nat) : Prop :=
  exists r, request k = Fetcher.Responds r /\
            Fetcher.isBlockedResponse (Fetcher.text r) = false /\
            Fetcher.response_ok r = false /\
            Fetcher.rate_limited_or_server_error r = false.

(** How the loop ends when it is entered at index [a] with the iterations
    that the budget leaves: [m] attempts are retried, and the attempt at
    [a + m] decides the result. *)
Definition run_ends (request : nat -> Fetcher.Attempt) (url : string)
    (retries : Z) (a m : nat) (out : Fetcher.FetchResult * list Fetcher.Event)
    (tr : list Fetcher.Event) : Prop :=
  (forall j, (a <= j < a + m)%nat -> Fetcher.retried_attempt request j) /\
  rev out.2 = rev tr ++ rounds request url a m ++ [Fetcher.Get url] /\
  match out.1 with
  | Fetcher.st_ok html =>
      exists r, request (a + m)%nat = Fetcher.Responds r /\ html = Fetcher.text r /\
                Fetcher.isBlockedResponse (Fetcher.text r) = false /\
                Fetcher.response_ok r = true
  | Fetcher.st_blocked =>
      Fetcher.blocked_attempt request (a + m) /\ Z.of_nat (a + m) = retries
  | Fetcher.st_error =>
      (Fetcher.failed_attempt request (a + m) /\ Z.of_nat (a + m) = retries) \/
      fatal_attempt request (a + m)
  | Fetcher.st_empty => False
  end.

(** The four denial markers of [isBlockedResponse]. *)
Definition markers : list string :=
  ["Access Denied"; "don't have permission"; "Reference #"; "errors.edgesuite.net"].

End Backoff.

(** ** Anchors in a page *)

Module Html.

Fixpoint no_quote (s : string) : bool :=
  match s with
  | EmptyString => true
  | String c s' => negb (Ascii.eqb c "034") && no_quote s'
  end.

(** The attribute [href] with the value [h] between double quotes. *)
Definition href_attribute (h : string) : string :=
  "href=" +:+ String "034" (h +:+ String "034" EmptyString).

End Html.

(** ** A link store in order *)

Module Invariant.

(** Every URL the resolver returns is a line of the link file. *)
Definition clean_resolver (newURL : string -> option string) : Prop :=
  forall href u, newURL href = Some u -> LinkStore.url_line u = true.

(** The store holds each link once and only lines of the link file. *)
Definition store_ok (ls : LinkStore.Links) : Prop :=
  LinkStore.consistent ls /\
  Forall (fun x => LinkStore.url_line x = true) (LinkStore.allLinks ls).

(** From [ls] to [ls'] the store stays in order and links are only
    appended. *)
Definition grows (ls ls' : LinkStore.Links) : Prop :=
  (store_ok ls -> store_ok ls') /\
  LinkStore.allLinks ls `prefix_of` LinkStore.allLinks ls'.

(** The store as a fresh session loads it. *)
Definition reloaded (ls : LinkStore.Links) : LinkStore.Links :=
  {| LinkStore.uniqueLinks := LinkStore.uniqueLinks ls;
     LinkStore.allLinks := LinkStore.allLinks ls;
     LinkStore.newLinksThisRun := 0 |}.

(** The entries of [lines], each once, in the order in which they first
    occur: the head stays, and is struck out of what follows. *)
Fixpoint first_occurrences (lines : list string) : list string :=
  match lines with
  | [] => []
  | line :: rest =>
    line :: List.filter (fun other => negb (String.eqb line other))
              (first_occurrences rest)
  end.

(** From [st] to [st'] the three counters of the closing message only
    grow, and [linksFoundThisRun] grows at least as much as the links
    admitted and as the pages counted. *)
Definition counted (st st' : Scheduler.Session) : Prop :=
  let new st := LinkStore.newLinksThisRun (Scheduler.links st) in
  0 <= new st' - new st /\
  new st' - new st <= Scheduler.linksFoundThisRun st' - Scheduler.linksFoundThisRun st /\
  0 <= Scheduler.pagesProcessed st' - Scheduler.pagesProcessed st /\
  Scheduler.pagesProcessed st' - Scheduler.pagesProcessed st
    <= Scheduler.linksFoundThisRun st' - Scheduler.linksFoundThisRun st.

(** The batches from the cursor [start] up to [MAX_PAGE]. *)
Definition batches_left (cfg : Scheduler.Config) (start : Z) : Z :=
  if start <=? Scheduler.max_page cfg
  then (Scheduler.max_page cfg - start) / Scheduler.concurrency cfg + 1
  else 0.

(** The rounds in which a batch can be blocked as a whole without ending
    the session. *)
Definition blocked_rounds (cfg : Scheduler.Config) : Z :=
  Z.max 0 (Scheduler.max_blocked_before_stop cfg - 1).

(** A bound on the iterations the outer loop still makes from [st]: every
    batch ahead once, and before each the blocked rounds it can take. *)
Definition iterations_left (cfg : Scheduler.Config) (st : Scheduler.Session) : Z :=
  batches_left cfg (Scheduler.start st) * (blocked_rounds cfg + 1)
  + Z.max 0 (blocked_rounds cfg - Scheduler.blockedCount st).

(** The batches [bs], oldest first, are those of a cursor that starts at
    [s] and from one batch to the next stays or moves on by
    [CONCURRENCY]. *)
Fixpoint cursor_steps (cfg : Scheduler.Config) (s : Z) (bs : list (list Z)) : Prop :=
  match bs with
  | [] => True
  | b :: rest =>
    b = Scheduler.batchPages cfg s /\
    (cursor_steps cfg s rest \/
     cursor_steps cfg (s + Scheduler.concurrency cfg) rest)
  end.

End Invariant.

(** ** The batch scraper of [tests/doj-pdf-scraper.spec.ts]

    The loop of the test body over batches of pages, with the set of links,
    the link file it appends to and the set of failed pages.  Console
    output, the summary file and the pause between batches leave no mark on
    these and are left out. *)

Module PdfRun.

Definition START_PAGE : Z := 954.
Definition TABS_PER_BROWSER : Z := 15.
Definition NUM_BROWSERS : Z := 2.
Definition TOTAL_CONCURRENCY : Z := TABS_PER_BROWSER * NUM_BROWSERS.
Definition maxEmptyPages : Z := 5.

(** [line => line.trim().length > 0] *)
Definition nonblank (line : string) : bool :=
  (0 <? String.length (JS.trim line))%nat.

(** [loadExistingLinks]: the lines that are not blank, as they stand, in a
    [Set]; the empty set when the file cannot be read. *)
Definition loadExistingLinks (file : option string) : gset string :=
  match file with
  | Some content => list_to_set (List.filter nonblank (JS.split_lines content))
  | None => ∅
  end.

(** What a tab meets at a URL: [page.goto] rejects, resolves to [null], or
    resolves to a response with a status; [anchors] is what [page.$$eval]
    then returns, [None] when it rejects. *)
Inductive Visit :=
| GotoThrows
| NoResponse
| Response (status : Z) (anchors : option (list string)).

Record ScrapeResult := {
  pageNum : Z;
  hrefs : list string;
  error : bool;
}.

Definition scrapePage (goto : string -> Visit) (pageNum : Z) : ScrapeResult :=
  match goto (PdfScraper.scrapePage_url pageNum) with
  | Response status (Some hrefs) =>
    if status =? 200
    then {| pageNum := pageNum; hrefs := hrefs; error := false |}
    else {| pageNum := pageNum; hrefs := []; error := true |}
  | _ => {| pageNum := pageNum; hrefs := []; error := true |}
  end.

(** The variables that live across batches and the link file.
    [lastCompletedPage] is [None] for [-Infinity]; [failedPages] holds the
    page numbers of the set. *)
Record Run := {
  currentPage : Z;
  consecutiveEmptyPages : Z;
  existingLinks : gset string;
  failedPages : gset Z;
  pagesScrapedThisRun : Z;
  linksAddedThisRun : Z;
  lastCompletedPage : option Z;
  outputFile : option string;
}.

(** [fs.appendFile(OUTPUT_FILE, data)]: the file is created when it is not
    there. *)
Definition appendFile (data : string) (file : option string) : option string :=
  Some (default EmptyString file +:+ data).

(** The two nested [for] loops that hand the pages of a batch to the
    tabs. *)
Definition batchPageNums (currentPage : Z) : list Z :=
  flat_map
    (fun browserIdx =>
       map (fun tabIdx => currentPage + browserIdx * TABS_PER_BROWSER + tabIdx)
         (seqZ 0 TABS_PER_BROWSER))
    (seqZ 0 NUM_BROWSERS).

(** [batchResults.sort((a, b) => a.pageNum - b.pageNum)] *)
Fixpoint insert_by_pageNum (r : ScrapeResult) (sorted : list ScrapeResult)
  : list ScrapeResult :=
  match sorted with
  | [] => [r]
  | r' :: rest =>
    if pageNum r <=? pageNum r' then r :: sorted
    else r' :: insert_by_pageNum r rest
  end.

Definition sort_by_pageNum (results : list ScrapeResult) : list ScrapeResult :=
  foldr insert_by_pageNum [] results.

(** [Math.max(...xs)]; [None] is [-Infinity]. *)
Definition Math_max (xs : list Z) : option Z :=
  foldr (fun x m => Some match m with Some y => Z.max x y | None => x end) None xs.

(** The body of [for (const result of batchResults.sort(...))], with the
    flag [allEmpty]. *)
Definition record (result : ScrapeResult) (acc : Run * bool) : Run * bool :=
  let '(st, allEmpty) := acc in
  if error result then
    ({| currentPage := currentPage st;
        consecutiveEmptyPages := consecutiveEmptyPages st;
        existingLinks := existingLinks st;
        failedPages := {[pageNum result]} ∪ failedPages st;
        pagesScrapedThisRun := pagesScrapedThisRun st;
        linksAddedThisRun := linksAddedThisRun st;
        lastCompletedPage := lastCompletedPage st;
        outputFile := outputFile st |}, allEmpty)
  else if (0 <? length (hrefs result))%nat then
    let newLinks :=
      List.filter (fun href => negb (bool_decide (href ∈ existingLinks st)))
        (hrefs result) in
    let added := (0 <? length newLinks)%nat in
    ({| currentPage := currentPage st;
        consecutiveEmptyPages := consecutiveEmptyPages st;
        existingLinks :=
          if added then list_to_set newLinks ∪ existingLinks st
          else existingLinks st;
        failedPages := failedPages st ∖ {[pageNum result]};
        pagesScrapedThisRun := pagesScrapedThisRun st + 1;
        linksAddedThisRun :=
          if added then linksAddedThisRun st + Z.of_nat (length newLinks)
          else linksAddedThisRun st;
        lastCompletedPage := lastCompletedPage st;
        outputFile :=
          if added
          then appendFile (JS.join_lines newLinks +:+ String "010" EmptyString)
                 (outputFile st)
          else outputFile st |}, false)
  else
    ({| currentPage := currentPage st;
        consecutiveEmptyPages := consecutiveEmptyPages st;
        existingLinks := existingLinks st;
        failedPages := failedPages st ∖ {[pageNum result]};
        pagesScrapedThisRun := pagesScrapedThisRun st + 1;
        linksAddedThisRun := linksAddedThisRun st;
        lastCompletedPage := lastCompletedPage st;
        outputFile := outputFile st |}, allEmpty).

(** One iteration of the [while] loop; [goto] is the site in this round. *)
Definition batch (goto : string -> Visit) (st : Run) : Run :=
  let batchResults :=
    sort_by_pageNum (map (scrapePage goto) (batchPageNums (currentPage st))) in
  let '(st1, allEmpty) := foldl (fun acc result => record result acc) (st, true) batchResults in
  {| currentPage := currentPage st1 + TOTAL_CONCURRENCY;
     consecutiveEmptyPages :=
       if allEmpty && negb (existsb error batchResults)
       then consecutiveEmptyPages st1 + 1 else 0;
     existingLinks := existingLinks st1;
     failedPages := failedPages st1;
     pagesScrapedThisRun := pagesScrapedThisRun st1;
     linksAddedThisRun := linksAddedThisRun st1;
     lastCompletedPage := Math_max (map pageNum batchResults);
     outputFile := outputFile st1 |}.

(** [while (consecutiveEmptyPages < maxEmptyPages)]: the state in which the
    loop is left, [None] when [fuel] iterations do not end it. *)
Fixpoint run (web : nat -> string -> Visit) (fuel round : nat) (st : Run)
  : option Run :=
  if consecutiveEmptyPages st <? maxEmptyPages then
    match fuel with
    | O => None
    | S fuel => run web fuel (S round) (batch (web round) st)
    end
  else Some st.

(** The state after [n] iterations, or after fewer when the loop has been
    left before: what the handler of an abort between two batches sees. *)
Fixpoint after (web : nat -> string -> Visit) (n round : nat) (st : Run) : Run :=
  match n with
  | O => st
  | S n =>
    if consecutiveEmptyPages st <? maxEmptyPages
    then after web n (S round) (batch (web round) st)
    else st
  end.

(** The state in which the loop is entered: the links of the file, the
    failed pages already known. *)
Definition initial (file : option string) (failed : gset Z) : Run :=
  {| currentPage := START_PAGE;
     consecutiveEmptyPages := 0;
     existingLinks := loadExistingLinks file;
     failedPages := failed;
     pagesScrapedThisRun := 0;
     linksAddedThisRun := 0;
     lastCompletedPage := Some (START_PAGE - 1);
     outputFile := file |}.

(** An href that is one line of the link file: no line feed in it and not
    blank. *)
Definition line_href (href : string) : bool :=
  LinkStore.no_line_feed href && nonblank href.

(** Every anchor the site ever yields is such an href. *)
Definition line_hrefs (web : nat -> string -> Visit) : Prop :=
  forall round url status hrefs,
    web round url = Response status (Some hrefs) ->
    Forall (fun href => line_href href = true) hrefs.

(** The link file is absent, empty, or ends with a line feed. *)
Definition whole_lines (file : option string) : Prop :=
  match file with
  | None => True
  | Some content =>
    content = EmptyString \/
    exists body, content = body +:+ String "010" EmptyString
  end.

(** The set in memory is the set the link file loads as. *)
Definition in_step (st : Run) : Prop :=
  whole_lines (outputFile st) /\
  loadExistingLinks (outputFile st) = existingLinks st.

(** Every page of the batch at [currentPage] answers 200 without an
    anchor. *)
Definition quiet (goto : string -> Visit) (currentPage : Z) : Prop :=
  forall p, currentPage <= p < currentPage + TOTAL_CONCURRENCY ->
    exists status, goto (PdfScraper.scrapePage_url p) = Response status (Some [])
                   /\ status = 200.

(** Some page of the batch at [currentPage] fails. *)
Definition failing (goto : string -> Visit) (currentPage : Z) : Prop :=
  exists p, currentPage <= p < currentPage + TOTAL_CONCURRENCY /\
            error (scrapePage goto p) = true.

End PdfRun.

(** ** The progress line of [tests/test-doj.spec.ts] *)

Module Console.

Fixpoint spaces (n : nat) : string :=
  match n with
  | O => EmptyString
  | S n => String " " (spaces n)
  end.

(** [s.padEnd(targetLength, ' ')] *)
Definition padEnd (s : string) (targetLength : nat) : string :=
  s +:+ spaces (targetLength - String.length s).

(** [lastLogLength] and what has been handed to [process.stdout.write],
    oldest first. *)
Record Line := {
  lastLogLength : nat;
  written : list string;
}.

Definition start : Line := {| lastLogLength := 0; written := [] |}.

(** [logProgress(message)]; [logEnabled] is [process.stdout.isTTY ?? true]. *)
Definition logProgress (logEnabled : bool) (message : string) (st : Line) : Line :=
  if logEnabled then
    let padded := padEnd message (lastLogLength st) in
    {| lastLogLength := Nat.max (lastLogLength st) (String.length message);
       written := written st ++ [String "013" padded] |}
  else st.

End Console.

(* ================================================================== *)
(** * Properties *)

(** ** Retry ladder *)

Section RetryFacts.
Import Fetcher.
Variable request : nat -> Attempt.
Variable url : string.
Variable retries : Z.

Lemma attempts_cons_get u tr : attempts (Get u :: tr) = S (attempts tr).
Proof. reflexivity. Qed.

Lemma attempts_cons_sleep ms tr : attempts (Sleep ms :: tr) = attempts tr.
Proof. reflexivity. Qed.

Lemma attempts_rev tr : attempts (rev tr) = attempts tr.
Proof.
  unfold attempts. induction tr as [|e tr IH]; [done|].
  simpl. rewrite List.filter_app, length_app, IH.
  destruct e; simpl; lia.
Qed.

(** Each iteration sends one request, so at most [fuel] more are sent. *)
Lemma attempts_from_bound fuel a tr :
  (attempts (attempts_from request url retries fuel a tr).2
     <= attempts tr + fuel)%nat.
Proof.
  revert a tr. induction fuel as [|fuel IH]; intros a tr; simpl; [lia|].
  destruct (request a) as [|r].
  - destruct (Z.of_nat a <? retries); simpl.
    + etrans; [apply IH|]. rewrite attempts_cons_sleep, attempts_cons_get. lia.
    + rewrite attempts_cons_get. lia.
  - destruct (isBlockedResponse (text r)).
    + destruct (Z.of_nat a <? retries); simpl.
      * etrans; [apply IH|]. rewrite attempts_cons_sleep, attempts_cons_get. lia.
      * rewrite attempts_cons_get. lia.
    + destruct (response_ok r); simpl; [rewrite attempts_cons_get; lia|].
      destruct (rate_limited_or_server_error r && (Z.of_nat a <? retries)); simpl.
      * etrans; [apply IH|]. rewrite attempts_cons_sleep, attempts_cons_get. lia.
      * rewrite attempts_cons_get. lia.
Qed.

(** A retried attempt before the last index passes control to the next
    iteration. *)
Lemma attempts_from_retried fuel a tr :
  retried_attempt request a -> Z.of_nat a < retries ->
  exists ms,
    (attempts_from request url retries (S fuel) a tr =
     attempts_from request url retries fuel (S a) (Sleep ms :: Get url :: tr)).
Proof.
  intros Hr Hlt. simpl.
  assert ((Z.of_nat a <? retries) = true) as Hb by (apply Z.ltb_lt; lia).
  destruct Hr as [(r & Hreq & Hblk) | [Hreq | (r & Hreq & Hblk & Hok & Hst)]];
    rewrite Hreq, ?Hblk, ?Hok, ?Hst, Hb; simpl; eauto.
Qed.

(** Running through [k] retried attempts. *)
Lemma attempts_from_skip k fuel a tr :
  (forall j, (a <= j < a + k)%nat -> retried_attempt request j) ->
  Z.of_nat (a + k) <= retries ->
  exists tr',
    (attempts_from request url retries (k + fuel) a tr =
     attempts_from request url retries fuel (a + k) tr') /\
    attempts tr' = (attempts tr + k)%nat.
Proof.
  revert a tr. induction k as [|k IH]; intros a tr Hall Hle.
  - exists tr. rewrite !Nat.add_0_r. done.
  - destruct (attempts_from_retried (k + fuel) a tr) as [ms Hstep];
      [apply Hall; lia | lia |].
    destruct (IH (S a) (Sleep ms :: Get url :: tr)) as (tr' & Heq & Hn);
      [intros j Hj; apply Hall; lia | lia |].
    exists tr'. replace (a + S k)%nat with (S a + k)%nat by lia.
    change (S k + fuel)%nat with (S (k + fuel)).
    rewrite Hstep, Heq. split; [done|].
    rewrite Hn, attempts_cons_sleep, attempts_cons_get. lia.
Qed.

(** The loop never builds the [empty] variant. *)
Lemma attempts_from_variants fuel a tr :
  match (attempts_from request url retries fuel a tr).1 with
  | st_ok html =>
      exists k r, request k = Responds r /\ html = text r /\
                  isBlockedResponse html = false /\ response_ok r = true
  | st_blocked | st_error => True
  | st_empty => False
  end.
Proof.
  revert a tr. induction fuel as [|fuel IH]; intros a tr; simpl; [done|].
  destruct (request a) as [|r] eqn:Hreq.
  - destruct (Z.of_nat a <? retries); [apply IH | done].
  - destruct (isBlockedResponse (text r)) eqn:Hblk.
    + destruct (Z.of_nat a <? retries); [apply IH | done].
    + destruct (response_ok r) eqn:Hok; simpl; [by eauto 6|].
      destruct (rate_limited_or_server_error r && (Z.of_nat a <? retries));
        [apply IH | done].
Qed.

End RetryFacts.

(** C3. [fetchWithRetry] sends at most [retries + 1] requests, and its answer
    follows the ladder: the first attempt that is neither a block page nor a
    failure and is an OK response ends the loop at once with [ok]; when every
    earlier attempt was retried, a block page at the last index [retries]
    gives [blocked], and a transport exception or a 403/429/5xx answer there
    gives [error]. *)
Theorem fetchWithRetry_ladder (request : nat -> Fetcher.Attempt)
    (url : string) (retries : Z) :
  let out := Fetcher.fetchWithRetry request url retries in
  (Fetcher.attempts out.2 <= Z.to_nat (retries + 1))%nat /\
  (forall k r,
      Z.of_nat k <= retries ->
      (forall j, (j < k)%nat -> Fetcher.retried_attempt request j) ->
      request k = Fetcher.Responds r ->
      Fetcher.isBlockedResponse (Fetcher.text r) = false ->
      Fetcher.response_ok r = true ->
      out.1 = Fetcher.st_ok (Fetcher.text r) /\ Fetcher.attempts out.2 = S k) /\
  (forall k,
      Z.of_nat k = retries ->
      (forall j, (j < k)%nat -> Fetcher.retried_attempt request j) ->
      (Fetcher.blocked_attempt request k ->
         out.1 = Fetcher.st_blocked /\ Fetcher.attempts out.2 = S k) /\
      (Fetcher.failed_attempt request k ->
         out.1 = Fetcher.st_error /\ Fetcher.attempts out.2 = S k)).
Proof.
  unfold Fetcher.fetchWithRetry. cbv zeta.
  split; [|split].
  - pose proof (attempts_from_bound request url retries (Z.to_nat (retries + 1)) 0 []) as Hb.
    destruct (Fetcher.attempts_from _ _ _ _ _ _) as [res tr]; simpl in *.
    rewrite attempts_rev. exact Hb.
  - intros k r Hk Hall Hreq Hblk Hok.
    replace (Z.to_nat (retries + 1)) with (k + S (Z.to_nat retries - k))%nat by lia.
    destruct (attempts_from_skip request url retries k (S (Z.to_nat retries - k)) 0 [])
      as (tr' & Heq & Hn); [intros j Hj; apply Hall; lia | lia |].
    rewrite Heq. cbn [Fetcher.attempts_from Nat.add]. rewrite Hreq, Hblk, Hok. cbn [fst snd].
    rewrite attempts_rev, attempts_cons_get, Hn. done.
  - intros k Hk Hall.
    replace (Z.to_nat (retries + 1)) with (k + 1)%nat by lia.
    destruct (attempts_from_skip request url retries k 1 0 [])
      as (tr' & Heq & Hn); [intros j Hj; apply Hall; lia | lia |].
    rewrite Heq. cbn [Fetcher.attempts_from Nat.add].
    assert ((Z.of_nat k <? retries) = false) as Hlast by (apply Z.ltb_ge; lia).
    split.
    + intros (r & Hreq & Hblk). rewrite Hreq, Hblk, Hlast. cbn [fst snd].
      rewrite attempts_rev, attempts_cons_get, Hn. done.
    + intros [Hreq | (r & Hreq & Hblk & Hok & Hst)].
      * rewrite Hreq, Hlast. cbn [fst snd].
        rewrite attempts_rev, attempts_cons_get, Hn. done.
      * rewrite Hreq, Hblk, Hok, Hst, Hlast. cbn [fst snd andb].
        rewrite attempts_rev, attempts_cons_get, Hn. done.
Qed.

(** C10. Whatever the server answers, and however often the request throws,
    [fetchWithRetry] returns [blocked], [error], or [ok] with the body of a
    response that is OK and no block page; it never returns [empty].  A page
    is taken as empty only behind the fetcher: an [ok] page whose body has no
    matching href passes through the aggregation loop as an empty page. *)
Theorem fetchWithRetry_never_empty (request : nat -> Fetcher.Attempt)
    (url : string) (retries : Z) :
  let res := (Fetcher.fetchWithRetry request url retries).1 in
  res <> Fetcher.st_empty /\
  (res = Fetcher.st_blocked \/ res = Fetcher.st_error \/
   exists k r, request k = Fetcher.Responds r /\
               res = Fetcher.st_ok (Fetcher.text r) /\
               Fetcher.isBlockedResponse (Fetcher.text r) = false /\
               Fetcher.response_ok r = true) /\
  (forall cfg newURL pageNumber html st,
      Scheduler.matchPdfHrefs html = [] ->
      exists st' stop,
        Scheduler.processResult cfg newURL
          (Scheduler.toBatchResult pageNumber (Fetcher.st_ok html)) st
        = Some (st', stop) /\
        Scheduler.emptyPagesInARow st' = Scheduler.emptyPagesInARow st + 1).
Proof.
  cbv zeta. unfold Fetcher.fetchWithRetry.
  pose proof (attempts_from_variants request url retries
                (Z.to_nat (retries + 1)) 0 []) as Hv.
  destruct (Fetcher.attempts_from _ _ _ _ _ _) as [res tr]. simpl in *.
  split; [|split].
  - by destruct res.
  - destruct res as [html| | |]; [|by left|by right; left|done].
    destruct Hv as (k & r & Hreq & -> & Hblk & Hok). right; right. eauto 8.
  - intros cfg newURL pageNumber html st Hnone.
    unfold Scheduler.processResult, Scheduler.toBatchResult. simpl.
    rewrite Hnone. simpl.
    destruct (_ <=? _); eauto.
Qed.

(** ** The aggregation loop *)

Section SchedulerFacts.
Import Scheduler.
Variable cfg : Config.
Variable newURL : string -> option string.

Lemma processResult_blocked result st :
  blocked result = true -> processResult cfg newURL result st = Some (st, false).
Proof. intros Hb. unfold processResult. by rewrite Hb. Qed.

Lemma processResult_no_hrefs result st :
  blocked result = false -> hrefs result = [] ->
  exists st' stop,
    processResult cfg newURL result st = Some (st', stop) /\
    emptyPagesInARow st' = emptyPagesInARow st + 1 /\
    lastProcessedPage st' = pageNumber result /\
    links st' = links st /\
    stop = (empty_pages_before_stop cfg <=? emptyPagesInARow st + 1).
Proof.
  intros Hb Hh. unfold processResult. rewrite Hb, Hh. simpl.
  destruct (_ <=? _) eqn:E; eauto 10.
Qed.

Lemma processResult_some_hrefs result st :
  blocked result = false -> hrefs result <> [] ->
  match processResult cfg newURL result st with
  | Some (st', stop) =>
      stop = false /\ emptyPagesInARow st' = 0 /\
      lastProcessedPage st' = pageNumber result /\
      addHrefs newURL (hrefs result) (links st) = Some (links st')
  | None => addHrefs newURL (hrefs result) (links st) = None
  end.
Proof.
  intros Hb Hh. unfold processResult. rewrite Hb.
  destruct (hrefs result) as [|h hs] eqn:E; [done|].
  cbn [length Nat.eqb]. cbv zeta.
  change (links (count_page _ (set_emptyPagesInARow 0 (set_lastProcessedPage _ st))))
    with (links st).
  destruct (addHrefs newURL (h :: hs) (links st)); done.
Qed.

Lemma addHrefs_None hs ls :
  addHrefs newURL hs ls = None -> exists href, href ∈ hs /\ newURL href = None.
Proof.
  revert ls. induction hs as [|h hs IH]; intros ls; simpl; [done|].
  destruct (newURL h) as [u|] eqn:E.
  - intros H. destruct (IH _ H) as (href & Hin & Hn).
    exists href. split; [by right | done].
  - intros _. exists h. split; [by left | done].
Qed.

Lemma addHrefs_Some hs ls :
  (forall href, href ∈ hs -> is_Some (newURL href)) ->
  is_Some (addHrefs newURL hs ls).
Proof.
  revert ls. induction hs as [|h hs IH]; intros ls Hall; simpl; [by eexists|].
  destruct (Hall h) as [u ->]; [by left|].
  apply IH. intros href Hin. apply Hall. by right.
Qed.

End SchedulerFacts.

(** C1, as the code has it.  The counter of consecutive empty pages follows
    the fetch outcome of a page like this: a [blocked] page leaves the whole
    session as it is; a page that ended in [error] and a fetched page without
    a matching href both add one to the counter; a fetched page with at least
    one href, new or known, sets it to zero (unless one of its hrefs does not
    resolve and the exception ends the session). *)
Theorem empty_run_counter_by_outcome (cfg : Scheduler.Config)
    (newURL : string -> option string) (pageNumber : Z)
    (outcome : Fetcher.FetchResult) (st : Scheduler.Session) :
  let after :=
    Scheduler.processResult cfg newURL
      (Scheduler.toBatchResult pageNumber outcome) st in
  let one_more :=
    exists st' stop,
      after = Some (st', stop) /\
      Scheduler.emptyPagesInARow st' = Scheduler.emptyPagesInARow st + 1 in
  match outcome with
  | Fetcher.st_blocked => after = Some (st, false)
  | Fetcher.st_error | Fetcher.st_empty => one_more
  | Fetcher.st_ok html =>
    match Scheduler.matchPdfHrefs html with
    | [] => one_more
    | hrefs =>
      match after with
      | Some (st', stop) => stop = false /\ Scheduler.emptyPagesInARow st' = 0
      | None => exists href, href ∈ hrefs /\ newURL href = None
      end
    end
  end.
Proof.
  cbv zeta.
  assert (forall r, Scheduler.blocked r = false -> Scheduler.hrefs r = [] ->
            exists st' stop,
              Scheduler.processResult cfg newURL r st = Some (st', stop) /\
              Scheduler.emptyPagesInARow st' = Scheduler.emptyPagesInARow st + 1)
    as Hempty.
  { intros r Hb Hh.
    destruct (processResult_no_hrefs cfg newURL r st Hb Hh) as (st' & stop & ? & ? & _).
    eauto. }
  destruct outcome as [html| | |]; simpl.
  - destruct (Scheduler.matchPdfHrefs html) as [|h hs] eqn:E.
    + apply Hempty; simpl; done.
    + pose proof (processResult_some_hrefs cfg newURL
                    (Scheduler.toBatchResult pageNumber (Fetcher.st_ok html)) st) as Hp.
      simpl in Hp. rewrite E in Hp. specialize (Hp eq_refl ltac:(done)).
      destruct (Scheduler.processResult _ _ _ _) as [[st' stop]|].
      * tauto.
      * by apply addHrefs_None in Hp.
  - done.
  - apply Hempty; done.
  - apply Hempty; done.
Qed.

(** C1, the claim as written fails: a page whose every attempt throws ends in
    [error], and the one-page batch that holds it moves the counter of empty
    pages from 0 to 1. *)
Lemma error_page_extends_empty_run :
  let cfg := Scheduler.shipped 500 in
  let net := fun (_ : Z) (_ : nat) => Fetcher.Throws in
  let st := Scheduler.initial cfg 0 ∅ in
  (Fetcher.fetchWithRetry (net 0) (Scheduler.formatPageUrl 0) MAX_RETRIES).1
    = Fetcher.st_error /\
  Scheduler.emptyPagesInARow st = 0 /\
  (Scheduler.emptyPagesInARow ∘ fst) <$>
    Scheduler.iteration cfg Some net EmptyString st = Some 1.
Proof. vm_compute. done. Qed.

(** ** Ordering of a batch *)

Section OrderFacts.
Import Scheduler.

#[local] Instance le_page_trans : Transitive le_page.
Proof. unfold le_page. intros a b c. lia. Qed.

Lemma insert_by_page_Permutation r l : insert_by_page r l ≡ₚ r :: l.
Proof.
  induction l as [|r' l IH]; simpl; [done|].
  destruct (pageNumber r <=? pageNumber r'); [done|].
  rewrite IH. apply Permutation_swap.
Qed.

Lemma sort_by_page_Permutation l : sort_by_page l ≡ₚ l.
Proof.
  induction l as [|r l IH]; simpl; [done|].
  rewrite insert_by_page_Permutation. by rewrite IH.
Qed.

Lemma insert_by_page_sorted r l :
  StronglySorted le_page l -> StronglySorted le_page (insert_by_page r l).
Proof.
  induction l as [|r' l IH]; intros Hs; simpl.
  - repeat constructor.
  - apply StronglySorted_cons in Hs as [Hall Hs].
    destruct (pageNumber r <=? pageNumber r') eqn:E.
    + apply Z.leb_le in E. constructor.
      * by constructor.
      * constructor; [done|].
        eapply Forall_impl; [exact Hall|]. unfold le_page in *. intros; simpl in *; lia.
    + apply Z.leb_gt in E. constructor; [by apply IH|].
      rewrite insert_by_page_Permutation. constructor; [|done].
      unfold le_page. lia.
Qed.

Lemma sort_by_page_sorted l : StronglySorted le_page (sort_by_page l).
Proof.
  induction l as [|r l IH]; simpl; [constructor|].
  by apply insert_by_page_sorted.
Qed.

(** Results in strictly ascending page order are uniquely arranged. *)
Lemma lt_page_same_page l a b :
  StronglySorted lt_page l -> a ∈ l -> b ∈ l ->
  pageNumber a = pageNumber b -> a = b.
Proof.
  induction 1 as [|x l Hs IH Hall]; intros Ha Hb Heq; [by inv Ha|].
  rewrite Forall_forall in Hall. unfold lt_page in Hall.
  inv Ha; inv Hb; [done| | |by apply IH].
  - match goal with H : b ∈ l |- _ => apply Hall in H end. lia.
  - match goal with H : a ∈ l |- _ => apply Hall in H end. lia.
Qed.

Lemma lt_page_le_page l : StronglySorted lt_page l -> StronglySorted le_page l.
Proof.
  induction 1 as [|x l Hs IH Hall]; constructor; [done|].
  eapply Forall_impl; [exact Hall|]. unfold lt_page, le_page. intros; simpl in *; lia.
Qed.

(** Sorting any arrival order of a batch gives its ascending order. *)
Lemma sort_by_page_arrival arrived ordered :
  arrived ≡ₚ ordered -> StronglySorted lt_page ordered ->
  sort_by_page arrived = ordered.
Proof.
  intros Hperm Hord.
  apply (StronglySorted_unique_strong le_page).
  - intros x1 x2 H1 H2 H12 H21.
    apply (lt_page_same_page ordered); [done| |done|unfold le_page in *; lia].
    by rewrite <-Hperm, <-(sort_by_page_Permutation arrived).
  - apply sort_by_page_sorted.
  - by apply lt_page_le_page.
  - by rewrite sort_by_page_Permutation.
Qed.

Lemma seqZ_ascending m n : StronglySorted Z.lt (seqZ m n).
Proof.
  remember (Z.to_nat n) as k eqn:Hk. revert m n Hk.
  induction k as [|k IH]; intros m n Hk.
  - rewrite seqZ_nil by lia. constructor.
  - rewrite seqZ_cons by lia. constructor; [apply IH; lia|].
    apply Forall_forall. intros x Hx. apply elem_of_seqZ in Hx. lia.
Qed.

Lemma filter_ascending {A} (R : relation A) (f : A -> bool) l :
  StronglySorted R l -> StronglySorted R (List.filter f l).
Proof.
  induction 1 as [|x l Hs IH Hall]; simpl; [constructor|].
  destruct (f x); [|done]. constructor; [done|].
  rewrite Forall_forall in *. intros y Hy.
  apply Hall. apply list_elem_of_In in Hy. apply filter_In in Hy as [Hy _].
  by apply list_elem_of_In.
Qed.

Lemma map_ascending {A B} (R1 : relation A) (R2 : relation B) (f : A -> B) l :
  (forall x y, R1 x y -> R2 (f x) (f y)) ->
  StronglySorted R1 l -> StronglySorted R2 (map f l).
Proof.
  intros Hf. induction 1 as [|x l Hs IH Hall]; simpl; constructor; [done|].
  apply Forall_forall. intros y Hy.
  apply list_elem_of_In, in_map_iff in Hy as (z & <- & Hz).
  apply Hf. rewrite Forall_forall in Hall. apply Hall. by apply list_elem_of_In.
Qed.

Lemma pageNumber_toBatchResult p outcome :
  pageNumber (toBatchResult p outcome) = p.
Proof. by destruct outcome. Qed.

Variable cfg : Config.

Lemma batchPages_ascending start : StronglySorted Z.lt (batchPages cfg start).
Proof.
  unfold batchPages. apply filter_ascending.
  apply (map_ascending Z.lt Z.lt).
  - intros x y. lia.
  - apply seqZ_ascending.
Qed.

(** [Promise.all] hands over a batch in strictly ascending page order. *)
Lemma batch_results_ascending net start :
  StronglySorted lt_page (map (fetchPage cfg net) (batchPages cfg start)).
Proof.
  apply (map_ascending Z.lt lt_page).
  - intros x y Hxy. unfold lt_page, fetchPage.
    by rewrite !pageNumber_toBatchResult.
  - apply batchPages_ascending.
Qed.

End OrderFacts.

(** C8. In whatever order the fetches of a batch complete, the aggregation
    ends in the very session (counters, links, last processed page, files and
    trace alike) that comes from going through the results of that batch in
    ascending page order. *)
Theorem aggregate_completion_order (cfg : Scheduler.Config)
    (newURL : string -> option string) (net : Z -> nat -> Fetcher.Attempt)
    (now : string) (start : Z) (arrived : list Scheduler.BatchResult)
    (st : Scheduler.Session) :
  let in_page_order :=
    map (Scheduler.fetchPage cfg net) (Scheduler.batchPages cfg start) in
  arrived ≡ₚ in_page_order ->
  Sorted Z.lt (map Scheduler.pageNumber in_page_order) /\
  Scheduler.aggregate cfg newURL now arrived st =
  Scheduler.processBatch cfg newURL now in_page_order st.
Proof.
  intros in_page_order Hperm. split.
  - apply StronglySorted_Sorted.
    apply (map_ascending Scheduler.lt_page Z.lt); [done|].
    apply batch_results_ascending.
  - unfold Scheduler.aggregate.
    rewrite (sort_by_page_arrival arrived in_page_order); [done..|].
    apply batch_results_ascending.
Qed.

(** ** Batches that are blocked as a whole *)

Section BlockFacts.
Import Scheduler.
Variable cfg : Config.
Variable newURL : string -> option string.

Lemma count_blocked_le l : (count_blocked l <= length l)%nat.
Proof.
  unfold count_blocked. induction l as [|r l IH]; simpl; [lia|].
  destruct (blocked r); simpl; lia.
Qed.

Lemma count_blocked_all l :
  count_blocked l = length l <-> Forall (fun r => blocked r = true) l.
Proof.
  unfold count_blocked. induction l as [|r l IH]; simpl.
  - split; [constructor|done].
  - pose proof (count_blocked_le l) as Hle. unfold count_blocked in Hle.
    destruct (blocked r) eqn:E; simpl; split.
    + intros H. constructor; [done|]. apply IH. lia.
    + intros H. apply Forall_cons in H as [_ H]. apply IH in H. lia.
    + intros H. lia.
    + intros H. apply Forall_cons in H as [H _]. congruence.
Qed.

Lemma count_blocked_none l :
  count_blocked l = 0%nat <-> Forall (fun r => blocked r = false) l.
Proof.
  unfold count_blocked. induction l as [|r l IH]; simpl.
  - split; [constructor|done].
  - destruct (blocked r) eqn:E; simpl; split.
    + intros H. lia.
    + intros H. apply Forall_cons in H as [H _]. congruence.
    + intros H. constructor; [done|]. by apply IH.
    + intros H. apply Forall_cons in H as [_ H]. by apply IH.
Qed.

Lemma count_blocked_cons r l :
  count_blocked (r :: l) = ((if blocked r then 1 else 0) + count_blocked l)%nat.
Proof. unfold count_blocked. simpl. by destruct (blocked r). Qed.

Lemma count_blocked_insert r s :
  count_blocked (insert_by_page r s) = count_blocked (r :: s).
Proof.
  induction s as [|r' s IH]; simpl; [done|].
  destruct (pageNumber r <=? pageNumber r'); [done|].
  rewrite (count_blocked_cons r'), IH, !count_blocked_cons. lia.
Qed.

Lemma count_blocked_sort l : count_blocked (sort_by_page l) = count_blocked l.
Proof.
  induction l as [|r l IH]; [done|].
  change (sort_by_page (r :: l)) with (insert_by_page r (sort_by_page l)).
  by rewrite count_blocked_insert, !count_blocked_cons, IH.
Qed.

Lemma length_sort_by_page l : length (sort_by_page l) = length l.
Proof. apply Permutation_length, sort_by_page_Permutation. Qed.

(** What the aggregation loop leaves alone. *)
Lemma processResult_frame r st st' stop :
  processResult cfg newURL r st = Some (st', stop) ->
  blockedCount st' = blockedCount st /\ start st' = start st /\
  batchCount st' = batchCount st /\ files st' = files st.
Proof.
  unfold processResult.
  destruct (blocked r); [by intros [= <- <-]|].
  destruct (length (hrefs r) =? 0)%nat.
  - cbv zeta. destruct (_ <=? _); by intros [= <- <-].
  - cbv zeta. destruct (addHrefs _ _ _); [|done]. by intros [= <- <-].
Qed.

Lemma processResults_frame l st st' :
  processResults cfg newURL l st = Some st' ->
  blockedCount st' = blockedCount st /\ start st' = start st /\
  batchCount st' = batchCount st /\ files st' = files st.
Proof.
  revert st. induction l as [|r l IH]; intros st; simpl; [by intros [= <-]|].
  destruct (processResult cfg newURL r st) as [[st1 []]|] eqn:E; [| |done].
  - intros [= <-]. by apply processResult_frame in E.
  - intros H. apply IH in H. apply processResult_frame in E.
    destruct H as (-> & -> & -> & ->). done.
Qed.

(** The loop over a batch fails only on an href that does not resolve. *)
Lemma processResults_None l st :
  processResults cfg newURL l st = None ->
  exists r href, r ∈ l /\ href ∈ hrefs r /\ newURL href = None.
Proof.
  revert st. induction l as [|r l IH]; intros st; simpl; [done|].
  destruct (processResult cfg newURL r st) as [[st1 []]|] eqn:E; [done| |].
  - intros H. destruct (IH _ H) as (r' & href & ? & ? & ?).
    exists r', href. split; [by right|done].
  - intros _. unfold processResult in E.
    destruct (blocked r); [done|].
    destruct (length (hrefs r) =? 0)%nat; cbv zeta in E.
    + by destruct (_ <=? _).
    + destruct (addHrefs _ _ _) eqn:Ea; [done|].
      apply addHrefs_None in Ea as (href & ? & ?).
      exists r, href. split; [by left|done].
Qed.

End BlockFacts.

(** The loop body on any list of results with one that is not blocked: the
    list is aggregated and the loop goes on; the counter of batches blocked
    as a whole is set to zero when no result of the list is blocked, and a
    list of one result always sets it to zero. *)
Lemma aggregate_blocked_counter (cfg : Scheduler.Config)
    (newURL : string -> option string) (now : string)
    (results : list Scheduler.BatchResult) (st : Scheduler.Session) :
  (exists r, r ∈ results /\ Scheduler.blocked r = false) ->
  match Scheduler.aggregate cfg newURL now results st with
  | Some (st', flow) =>
      flow = Scheduler.Continue /\
      Scheduler.blockedCount st' =
        (if (Scheduler.count_blocked results =? 0)%nat then 0
         else Scheduler.blockedCount st) /\
      (length results = 1%nat -> Scheduler.blockedCount st' = 0)
  | None =>
      exists r href, r ∈ results /\ href ∈ Scheduler.hrefs r /\ newURL href = None
  end.
Proof.
  intros (r0 & Hin & Hnb).
  unfold Scheduler.aggregate, Scheduler.processBatch.
  rewrite count_blocked_sort, length_sort_by_page.
  assert (Scheduler.count_blocked results <> length results) as Hne.
  { intros Heq. apply count_blocked_all in Heq.
    rewrite Forall_forall in Heq. apply Heq in Hin. congruence. }
  apply Nat.eqb_neq in Hne. rewrite Hne.
  assert (length results = 1%nat -> Scheduler.count_blocked results = 0%nat) as Hone.
  { intros Hlen. pose proof (count_blocked_le results).
    apply Nat.eqb_neq in Hne. lia. }
  destruct (Scheduler.processResults _ _ _ _) as [st1|] eqn:E.
  - apply processResults_frame in E as (Hbc & _).
    cbv zeta. split; [done|].
    assert (forall s, Scheduler.blockedCount
              (if (0 <? Scheduler.batch_delay_ms cfg) && negb (Scheduler.shouldStop s)
               then Scheduler.emit (Scheduler.Sleep (Scheduler.batch_delay_ms cfg)) s
               else s) = Scheduler.blockedCount s) as Hsleep.
    { intros s. by destruct (_ && _). }
    rewrite Hsleep.
    destruct (Z.rem _ _ =? 0); simpl; rewrite Hbc.
    all: destruct (Scheduler.count_blocked results =? 0)%nat eqn:E0; simpl;
      (split; [done|]); intros Hlen; try done;
      apply Hone in Hlen; apply Nat.eqb_neq in E0; done.
  - apply processResults_None in E as (r & href & Hr & Hh & Hn).
    exists r, href. split; [|done].
    by rewrite <-(sort_by_page_Permutation results).
Qed.

(** C5. At the width of the program, [CONCURRENCY = 1], every batch the
    loop forms has one page, so a batch with a result that is not blocked
    has no blocked result at all: aggregating it sets the counter of batches
    blocked as a whole to zero, whatever it was, and the loop goes on; the
    only other end of the iteration is the exception of an href that does
    not resolve. *)
Theorem blocked_counter_after_batch (cfg : Scheduler.Config)
    (newURL : string -> option string) (net : Z -> nat -> Fetcher.Attempt)
    (now : string) (st : Scheduler.Session) :
  Scheduler.concurrency cfg = 1 ->
  let results :=
    map (Scheduler.fetchPage cfg net) (Scheduler.batchPages cfg (Scheduler.start st)) in
  (exists r, r ∈ results /\ Scheduler.blocked r = false) ->
  match Scheduler.iteration cfg newURL net now st with
  | Some (st', flow) =>
      flow = Scheduler.Continue /\ Scheduler.blockedCount st' = 0
  | None =>
      exists r href, r ∈ results /\ href ∈ Scheduler.hrefs r /\ newURL href = None
  end.
Proof.
  intros HW results Hex. unfold Scheduler.iteration. fold results.
  pose proof (aggregate_blocked_counter cfg newURL now results
                (Scheduler.emit
                   (Scheduler.Dispatch (Scheduler.batchPages cfg (Scheduler.start st)))
                   st) Hex) as H.
  destruct (Scheduler.aggregate _ _ _ _ _) as [[st' flow]|]; [|exact H].
  destruct H as (Hflow & _ & Hone). split; [exact Hflow|]. apply Hone.
  destruct Hex as (r0 & Hin & _). subst results.
  unfold Scheduler.batchPages in *. rewrite HW in *.
  change (seqZ 0 1) with [0] in *. simpl in *.
  destruct (Scheduler.start st + 0 <=? Scheduler.max_page cfg); [done|].
  by apply elem_of_nil in Hin.
Qed.

(** ** Re-dispatch of a blocked batch *)

Section RedispatchFacts.
Import Scheduler.
Variable cfg : Config.
Variable newURL : string -> option string.
Variable net : nat -> Z -> nat -> Fetcher.Attempt.
Variable clock : nat -> string.

Lemma fully_blocked_count round st :
  fully_blocked cfg net round st ->
  let results :=
    sort_by_page (map (fetchPage cfg (net round)) (batchPages cfg (start st))) in
  (count_blocked results =? length results)%nat = true.
Proof.
  intros Hall results. apply Nat.eqb_eq. subst results.
  rewrite count_blocked_sort, length_sort_by_page.
  apply count_blocked_all, Forall_forall. intros r Hr.
  apply list_elem_of_In, in_map_iff in Hr as (p & <- & Hp).
  apply Hall. by apply list_elem_of_In.
Qed.

(** A batch blocked as a whole, below the threshold: the loop pauses and
    comes back to the same cursor. *)
Lemma loop_retry fuel round st :
  start st <= max_page cfg -> shouldStop st = false ->
  fully_blocked cfg net round st ->
  blockedCount st + 1 < max_blocked_before_stop cfg ->
  exists st1,
    loop cfg newURL net clock (S fuel) round st =
      loop cfg newURL net clock fuel (S round) st1 /\
    start st1 = start st /\ shouldStop st1 = false /\
    blockedCount st1 = blockedCount st + 1 /\
    trace st1 =
      Sleep (blocked_backoff_ms cfg)
        :: Log (EntireBatchBlocked (blockedCount st + 1))
        :: Dispatch (batchPages cfg (start st)) :: trace st /\
    lastProcessedPage st1 = lastProcessedPage st /\
    emptyPagesInARow st1 = emptyPagesInARow st /\
    links st1 = links st /\ files st1 = files st.
Proof.
  intros Hle Hgo Hall Hlt.
  cbn [loop]. rewrite Hgo.
  replace (start st <=? max_page cfg) with true by (symmetry; apply Z.leb_le; lia).
  cbn [andb negb].
  unfold iteration, aggregate, processBatch.
  rewrite (fully_blocked_count round st Hall). cbv zeta. cbn [blockedCount set_blockedCount emit].
  replace (max_blocked_before_stop cfg <=? blockedCount st + 1) with false
    by (symmetry; apply Z.leb_gt; lia).
  eexists. split; [reflexivity|]. simpl.
  repeat split; try done. lia.
Qed.

(** A batch blocked as a whole, at the threshold: the loop is left. *)
Lemma loop_give_up fuel round st :
  start st <= max_page cfg -> shouldStop st = false ->
  fully_blocked cfg net round st ->
  max_blocked_before_stop cfg <= blockedCount st + 1 ->
  exists st1,
    loop cfg newURL net clock (S fuel) round st = Finished st1 /\
    start st1 = start st /\ shouldStop st1 = true /\
    trace st1 =
      Log TooManyBlocked
        :: Log (EntireBatchBlocked (blockedCount st + 1))
        :: Dispatch (batchPages cfg (start st)) :: trace st /\
    lastProcessedPage st1 = lastProcessedPage st /\
    emptyPagesInARow st1 = emptyPagesInARow st /\
    links st1 = links st /\ files st1 = files st.
Proof.
  intros Hle Hgo Hall Hge.
  cbn [loop]. rewrite Hgo.
  replace (start st <=? max_page cfg) with true by (symmetry; apply Z.leb_le; lia).
  cbn [andb negb].
  unfold iteration, aggregate, processBatch.
  rewrite (fully_blocked_count round st Hall). cbv zeta. cbn [blockedCount set_blockedCount emit].
  replace (max_blocked_before_stop cfg <=? blockedCount st + 1) with true
    by (symmetry; apply Z.leb_le; lia).
  eexists. split; [reflexivity|]. simpl. done.
Qed.

End RedispatchFacts.

Section BoundedBlocks.
Import Scheduler.
Variable cfg : Config.
Variable newURL : string -> option string.
Variable net : nat -> Z -> nat -> Fetcher.Attempt.
Variable clock : nat -> string.

Lemma fully_blocked_same_cursor round st st1 :
  start st1 = start st ->
  fully_blocked cfg net round st -> fully_blocked cfg net round st1.
Proof. unfold fully_blocked. by intros ->. Qed.

Lemma dispatched_dispatch pages tr :
  dispatched (Dispatch pages :: tr) = dispatched tr ++ [pages].
Proof. reflexivity. Qed.
Lemma dispatched_sleep ms tr : dispatched (Sleep ms :: tr) = dispatched tr.
Proof. reflexivity. Qed.
Lemma dispatched_log m tr : dispatched (Log m :: tr) = dispatched tr.
Proof. reflexivity. Qed.
Lemma slept_dispatch pages tr : slept (Dispatch pages :: tr) = slept tr.
Proof. reflexivity. Qed.
Lemma slept_sleep ms tr : slept (Sleep ms :: tr) = slept tr ++ [ms].
Proof. reflexivity. Qed.
Lemma slept_log m tr : slept (Log m :: tr) = slept tr.
Proof. reflexivity. Qed.

Ltac trace_proj :=
  repeat first
    [ rewrite dispatched_dispatch | rewrite dispatched_sleep
    | rewrite dispatched_log | rewrite slept_dispatch
    | rewrite slept_sleep | rewrite slept_log ].

Lemma loop_blocked_rounds n : forall fuel round st,
  start st <= max_page cfg -> shouldStop st = false ->
  n = Z.to_nat (Z.max 1 (max_blocked_before_stop cfg - blockedCount st)) ->
  (forall k, (k < n)%nat -> fully_blocked cfg net (round + k) st) ->
  exists st',
    loop cfg newURL net clock (n + fuel) round st = Finished st' /\
    shouldStop st' = true /\ start st' = start st /\
    dispatched (trace st') =
      dispatched (trace st) ++ replicate n (batchPages cfg (start st)) /\
    slept (trace st') =
      slept (trace st) ++ replicate (n - 1) (blocked_backoff_ms cfg) /\
    head (trace st') = Some (Log TooManyBlocked) /\
    lastProcessedPage st' = lastProcessedPage st /\
    emptyPagesInARow st' = emptyPagesInARow st /\
    links st' = links st /\ files st' = files st.
Proof.
  induction n as [|n IH]; intros fuel round st Hle Hgo Hn Hall; [lia|].
  assert (fully_blocked cfg net round st) as H0.
  { specialize (Hall 0%nat). rewrite Nat.add_0_r in Hall. apply Hall. lia. }
  destruct (decide (max_blocked_before_stop cfg <= blockedCount st + 1)) as [Hge|Hlt].
  - assert (n = 0%nat) as -> by lia.
    destruct (loop_give_up cfg newURL net clock fuel round st Hle Hgo H0 Hge)
      as (st1 & Hrun & Hs & Hstop & Htr & Hl & He & Hk & Hf).
    exists st1. change (1 + fuel)%nat with (S fuel). rewrite Hrun, Htr.
    trace_proj. simpl. rewrite app_nil_r.
    repeat split; try done.
  - destruct (loop_retry cfg newURL net clock (n + fuel) round st Hle Hgo H0 ltac:(lia))
      as (st1 & Hrun & Hs & Hgo1 & Hbc & Htr & Hl & He & Hk & Hf).
    destruct (IH fuel (S round) st1) as (st' & Hrun' & Hstop & Hs' & Hd & Hsl & Hh & Hl' & He' & Hk' & Hf').
    + lia.
    + done.
    + lia.
    + intros k Hk1. apply (fully_blocked_same_cursor _ st); [done|].
      replace (S round + k)%nat with (round + S k)%nat by lia. apply Hall. lia.
    + exists st'. change (S n + fuel)%nat with (S (n + fuel)).
      rewrite Hrun, Hrun'. split; [done|].
      rewrite Hd, Hsl, Htr, Hs. trace_proj.
      rewrite <-!app_assoc.
      assert (n <> 0%nat) as Hn0 by lia.
      replace (S n - 1)%nat with (S (n - 1)) by lia. cbn [replicate app].
      repeat split; try done; congruence.
Qed.

End BoundedBlocks.

(** C4. When every page of the batch at the cursor ends blocked, the
    decision is taken from this batch alone.  Below the threshold the loop
    logs the block, sleeps [blocked_backoff_ms] and comes back with the
    cursor where it was: the next iteration of the loop dispatches the same
    page numbers and aggregates their results, whatever the site answers
    then.  At the threshold the loop is
    left with [shouldStop] set, without a cooldown.  And when the batch
    keeps being blocked, the session dispatches it [n] times in all, [n]
    being what is left of [max_blocked_before_stop], with [n - 1] cooldowns
    between, and then stops, links and files untouched. *)
Theorem full_batch_block_redispatch (cfg : Scheduler.Config)
    (newURL : string -> option string)
    (net : nat -> Z -> nat -> Fetcher.Attempt) (clock : nat -> string)
    (fuel round : nat) (st : Scheduler.Session) :
  Scheduler.start st <= Scheduler.max_page cfg ->
  Scheduler.shouldStop st = false ->
  let pages := Scheduler.batchPages cfg (Scheduler.start st) in
  let blocked_in (k : nat) :=
    forall p, p ∈ pages ->
      Scheduler.blocked (Scheduler.fetchPage cfg (net (round + k)%nat) p) = true in
  let n := Z.to_nat (Z.max 1 (Scheduler.max_blocked_before_stop cfg
                              - Scheduler.blockedCount st)) in
  (blocked_in 0%nat ->
   Scheduler.blockedCount st + 1 < Scheduler.max_blocked_before_stop cfg ->
   exists st1,
     Scheduler.loop cfg newURL net clock (S fuel) round st =
       Scheduler.loop cfg newURL net clock fuel (S round) st1 /\
     Scheduler.start st1 = Scheduler.start st /\
     Scheduler.shouldStop st1 = false /\
     Scheduler.batchPages cfg (Scheduler.start st1) = pages /\
     Scheduler.blockedCount st1 = Scheduler.blockedCount st + 1 /\
     Scheduler.trace st1 =
       Scheduler.Sleep (Scheduler.blocked_backoff_ms cfg)
         :: Scheduler.Log (Scheduler.EntireBatchBlocked (Scheduler.blockedCount st + 1))
         :: Scheduler.Dispatch pages :: Scheduler.trace st /\
     Scheduler.lastProcessedPage st1 = Scheduler.lastProcessedPage st /\
     Scheduler.emptyPagesInARow st1 = Scheduler.emptyPagesInARow st /\
     Scheduler.links st1 = Scheduler.links st /\
     Scheduler.files st1 = Scheduler.files st /\
     (forall (answers : Z -> nat -> Fetcher.Attempt) (now : string),
        Scheduler.iteration cfg newURL answers now st1 =
        Scheduler.aggregate cfg newURL now
          (map (Scheduler.fetchPage cfg answers) pages)
          (Scheduler.emit (Scheduler.Dispatch pages) st1)) /\
     forall fuel',
       Scheduler.loop cfg newURL net clock (S fuel') (S round) st1 =
       match Scheduler.aggregate cfg newURL (clock (S round))
               (map (Scheduler.fetchPage cfg (net (S round))) pages)
               (Scheduler.emit (Scheduler.Dispatch pages) st1) with
       | None => Scheduler.Threw
       | Some (st2, Scheduler.Break) => Scheduler.Finished st2
       | Some (st2, Scheduler.Continue) =>
         Scheduler.loop cfg newURL net clock fuel' (S (S round))
           (Scheduler.set_start (Scheduler.start st2 + Scheduler.concurrency cfg) st2)
       end) /\
  (blocked_in 0%nat ->
   Scheduler.max_blocked_before_stop cfg <= Scheduler.blockedCount st + 1 ->
   exists st1,
     Scheduler.loop cfg newURL net clock (S fuel) round st = Scheduler.Finished st1 /\
     Scheduler.start st1 = Scheduler.start st /\
     Scheduler.shouldStop st1 = true /\
     Scheduler.trace st1 =
       Scheduler.Log Scheduler.TooManyBlocked
         :: Scheduler.Log (Scheduler.EntireBatchBlocked (Scheduler.blockedCount st + 1))
         :: Scheduler.Dispatch pages :: Scheduler.trace st /\
     Scheduler.lastProcessedPage st1 = Scheduler.lastProcessedPage st /\
     Scheduler.emptyPagesInARow st1 = Scheduler.emptyPagesInARow st /\
     Scheduler.links st1 = Scheduler.links st /\
     Scheduler.files st1 = Scheduler.files st) /\
  ((forall k, (k < n)%nat -> blocked_in k) ->
   exists st',
     Scheduler.loop cfg newURL net clock (n + fuel) round st = Scheduler.Finished st' /\
     Scheduler.shouldStop st' = true /\
     Scheduler.start st' = Scheduler.start st /\
     Scheduler.dispatched (Scheduler.trace st') =
       Scheduler.dispatched (Scheduler.trace st) ++ replicate n pages /\
     Scheduler.slept (Scheduler.trace st') =
       Scheduler.slept (Scheduler.trace st)
         ++ replicate (n - 1) (Scheduler.blocked_backoff_ms cfg) /\
     head (Scheduler.trace st') = Some (Scheduler.Log Scheduler.TooManyBlocked) /\
     Scheduler.lastProcessedPage st' = Scheduler.lastProcessedPage st /\
     Scheduler.emptyPagesInARow st' = Scheduler.emptyPagesInARow st /\
     Scheduler.links st' = Scheduler.links st /\
     Scheduler.files st' = Scheduler.files st).
Proof.
  intros Hle Hgo pages blocked_in n.
  assert (blocked_in 0%nat -> Scheduler.fully_blocked cfg net round st) as Hnow.
  { intros H p Hp. specialize (H p Hp). by rewrite Nat.add_0_r in H. }
  split; [|split].
  - intros Hall Hlt.
    destruct (loop_retry cfg newURL net clock fuel round st Hle Hgo (Hnow Hall) Hlt)
      as (st1 & Hrun & Hs & Hgo1 & Hbc & Htr & Hl & He & Hk & Hf).
    exists st1. subst pages.
    split; [exact Hrun|]. split; [exact Hs|]. split; [exact Hgo1|].
    split; [by rewrite Hs|]. split; [exact Hbc|]. split; [exact Htr|].
    split; [exact Hl|]. split; [exact He|]. split; [exact Hk|]. split; [exact Hf|].
    split.
    + intros answers now. unfold Scheduler.iteration. by rewrite Hs.
    + intros fuel'. cbn [Scheduler.loop]. rewrite Hgo1, Hs.
      replace (Scheduler.start st <=? Scheduler.max_page cfg) with true
        by (symmetry; apply Z.leb_le; lia).
      cbn [andb negb]. unfold Scheduler.iteration. by rewrite Hs.
  - intros Hall Hge.
    destruct (loop_give_up cfg newURL net clock fuel round st Hle Hgo (Hnow Hall) Hge)
      as (st1 & Hrun & Hs & Hstop & Htr & Hl & He & Hk & Hf).
    exists st1. done.
  - intros Hall. apply loop_blocked_rounds; [done..|].
    intros k Hk p Hp. by apply Hall.
Qed.

(** ** The link file *)

Section LinkFacts.
Import LinkStore.

Lemma append_cons c a b : String c a +:+ b = String c (a +:+ b).
Proof. reflexivity. Qed.

Lemma append_nil_l b : EmptyString +:+ b = b.
Proof. reflexivity. Qed.

Lemma append_assoc a b c : (a +:+ b) +:+ c = a +:+ (b +:+ c).
Proof.
  induction a as [|x a IH]; [done|].
  by rewrite !append_cons, IH.
Qed.

Lemma split_lines_nonempty s : JS.split_lines s <> [].
Proof.
  induction s as [|c s IH]; simpl; [done|].
  destruct (Ascii.eqb c "010"); [done|].
  by destruct (JS.split_lines s).
Qed.

(** A string without line feed is one piece. *)
Lemma split_lines_one s : no_line_feed s = true -> JS.split_lines s = [s].
Proof.
  induction s as [|c s IH]; simpl; [done|].
  intros [Hc Hs]%andb_prop. apply negb_true_iff in Hc. rewrite Hc, (IH Hs). done.
Qed.

(** The pieces of a split hold no line feed. *)
Lemma split_lines_pieces s :
  Forall (fun piece => no_line_feed piece = true) (JS.split_lines s).
Proof.
  induction s as [|c s IH]; simpl; [by repeat constructor|].
  destruct (Ascii.eqb c "010") eqn:E; [by constructor|].
  destruct (JS.split_lines s) as [|piece pieces].
  { repeat constructor. simpl. by rewrite E. }
  apply Forall_cons in IH as [Hp Hps].
  constructor; [|done]. simpl. by rewrite E, Hp.
Qed.

Lemma split_lines_append a b :
  no_line_feed a = true ->
  JS.split_lines (a +:+ String "010" b) = a :: JS.split_lines b.
Proof.
  induction a as [|c a IH]; [done|].
  simpl no_line_feed. intros [Hc Ha]%andb_prop. apply negb_true_iff in Hc.
  rewrite append_cons. simpl. by rewrite Hc, (IH Ha).
Qed.

(** Splitting what [writeLinks] wrote gives the lines back, and an empty
    piece behind the last line feed. *)
Lemma split_lines_join line lines :
  Forall (fun l => no_line_feed l = true) (line :: lines) ->
  JS.split_lines (JS.join_lines (line :: lines) +:+ String "010" EmptyString)
    = (line :: lines) ++ [EmptyString].
Proof.
  revert line. induction lines as [|l lines IH]; intros line Hall.
  - apply Forall_cons in Hall as [Hl _]. unfold JS.join_lines. simpl String.concat.
    by rewrite split_lines_append.
  - apply Forall_cons in Hall as [Hl Hall].
    assert (JS.join_lines (line :: l :: lines) +:+ String "010" EmptyString
            = line +:+ String "010"
                (JS.join_lines (l :: lines) +:+ String "010" EmptyString)) as ->.
    { unfold JS.join_lines.
      change (String.concat (String "010" EmptyString) (line :: l :: lines))
        with (line +:+ (String "010" EmptyString
                          +:+ String.concat (String "010" EmptyString) (l :: lines))).
      by rewrite !append_assoc. }
    rewrite split_lines_append by done.
    by rewrite IH.
Qed.

(** *** Trimming *)

Lemma trimStart_clean s : JS.starts_clean (JS.trimStart s).
Proof.
  induction s as [|c s IH]; simpl; [done|].
  by destruct (JS.is_white_space c) eqn:E.
Qed.

Lemma trimStart_of_clean s : JS.starts_clean s -> JS.trimStart s = s.
Proof. destruct s as [|c s]; simpl; [done|]. by intros ->. Qed.

Lemma trimEnd_clean s : JS.starts_clean s -> JS.starts_clean (JS.trimEnd s).
Proof.
  destruct s as [|c s]; simpl; [done|]. intros Hc.
  destruct (JS.trimEnd s); simpl; [by rewrite Hc|done].
Qed.

Lemma trimEnd_idem s : JS.trimEnd (JS.trimEnd s) = JS.trimEnd s.
Proof.
  induction s as [|c s IH]; simpl; [done|].
  destruct (JS.trimEnd s) as [|d t] eqn:E.
  - destruct (JS.is_white_space c) eqn:Ec; simpl; [done|]. by rewrite Ec.
  - change (JS.trimEnd (String c (String d t))) with
      (match JS.trimEnd (String d t) with
       | EmptyString =>
           if JS.is_white_space c then EmptyString else String c EmptyString
       | t' => String c t'
       end).
    by rewrite IH.
Qed.

Lemma trim_idem s : JS.trim (JS.trim s) = JS.trim s.
Proof.
  unfold JS.trim.
  rewrite (trimStart_of_clean (JS.trimEnd (JS.trimStart s))).
  - apply trimEnd_idem.
  - apply trimEnd_clean, trimStart_clean.
Qed.

Lemma trimStart_no_line_feed s :
  no_line_feed s = true -> no_line_feed (JS.trimStart s) = true.
Proof.
  induction s as [|c s IH]; simpl; [done|].
  intros [Hc Hs]%andb_prop.
  destruct (JS.is_white_space c); [by apply IH|]. simpl. by rewrite Hc, Hs.
Qed.

Lemma trimEnd_no_line_feed s :
  no_line_feed s = true -> no_line_feed (JS.trimEnd s) = true.
Proof.
  induction s as [|c s IH]; simpl; [done|].
  intros [Hc Hs]%andb_prop. specialize (IH Hs).
  destruct (JS.trimEnd s) as [|d t].
  - destruct (JS.is_white_space c); simpl; [done|]. by rewrite Hc.
  - simpl in *. by rewrite Hc, IH.
Qed.

(** *** Loading *)

Lemma dedupe_from_elem seen acc lines x :
  x ∈ dedupe_from seen acc lines -> x ∈ acc \/ x ∈ lines.
Proof.
  revert seen acc. induction lines as [|l lines IH]; intros seen acc; simpl.
  - by left.
  - destruct (decide (l ∈ seen)); intros H%IH.
    + destruct H; [by left|by right; right].
    + destruct H as [H|H]; [|by right; right].
      apply elem_of_app in H as [H|H]; [by left|].
      apply list_elem_of_singleton in H as ->. right; by left.
Qed.

Lemma dedupe_from_NoDup seen acc lines :
  NoDup acc -> seen = list_to_set acc -> NoDup (dedupe_from seen acc lines).
Proof.
  revert seen acc. induction lines as [|l lines IH]; intros seen acc Hnd ->; simpl.
  - done.
  - destruct (decide (l ∈ list_to_set acc)) as [Hin|Hnin]; [by apply IH|].
    apply IH.
    + apply NoDup_app. split; [done|]. split; [|apply NoDup_singleton].
      intros x Hx ->%list_elem_of_singleton. apply Hnin.
      by apply elem_of_list_to_set.
    + rewrite list_to_set_app_L. simpl.
      rewrite (right_id_L ∅ (∪)). apply (comm_L (∪)).
Qed.

(** Lines that are already distinct, and new to [seen], are all kept. *)
Lemma dedupe_from_distinct seen acc lines :
  NoDup lines -> (forall x, x ∈ lines -> x ∉ seen) ->
  dedupe_from seen acc lines = acc ++ lines.
Proof.
  revert seen acc. induction lines as [|l lines IH]; intros seen acc Hnd Hnew; simpl.
  - by rewrite app_nil_r.
  - apply NoDup_cons in Hnd as [Hl Hnd].
    destruct (decide (l ∈ seen)) as [Hin|_].
    { exfalso. apply (Hnew l); [by left|done]. }
    rewrite IH; [by rewrite <-app_assoc|done|].
    intros x Hx. apply not_elem_of_union. split.
    + apply not_elem_of_singleton. by intros ->.
    + apply Hnew. by right.
Qed.

Lemma url_line_spec u :
  url_line u = true <->
  JS.truthy u = true /\ no_line_feed u = true /\ JS.trim u = u.
Proof.
  unfold url_line. rewrite !andb_true_iff, bool_decide_eq_true. tauto.
Qed.

(** Whatever the file holds, the lines loaded from it are link lines. *)
Lemma readExistingLinks_lines file :
  Forall (fun x => url_line x = true) (readExistingLinks file).
Proof.
  destruct file as [contents|]; simpl; [|constructor].
  apply Forall_forall. intros x Hx.
  apply dedupe_from_elem in Hx as [Hx|Hx]; [by inv Hx|].
  apply list_elem_of_In, filter_In in Hx as [Hx Ht].
  apply in_map_iff in Hx as (piece & <- & Hp).
  apply url_line_spec. split; [done|]. split; [|apply trim_idem].
  unfold JS.trim. apply trimEnd_no_line_feed, trimStart_no_line_feed.
  pose proof (split_lines_pieces contents) as Hall.
  rewrite Forall_forall in Hall. apply Hall. by apply list_elem_of_In.
Qed.

Lemma readExistingLinks_NoDup file : NoDup (readExistingLinks file).
Proof.
  destruct file as [contents|]; simpl; [|constructor].
  apply dedupe_from_NoDup; [constructor|done].
Qed.

(** The lines of the text [writeLinks] hands over are the links. *)
Lemma written_lines links :
  Forall (fun x => url_line x = true) links ->
  List.filter JS.truthy (JS.split_lines (writeLinks links)) = links.
Proof.
  intros Hall. unfold writeLinks.
  destruct links as [|line lines]; [done|].
  cbn [length Nat.ltb Nat.leb].
  rewrite split_lines_join.
  2:{ eapply Forall_impl; [exact Hall|]. intros x Hx. simpl in Hx.
      by apply url_line_spec in Hx as (_ & ? & _). }
  rewrite List.filter_app. simpl List.filter at 2. rewrite app_nil_r.
  induction Hall as [|x l Hx _ IH]; [done|]. simpl.
  apply url_line_spec in Hx as (-> & _ & _). by rewrite IH.
Qed.

(** Reading back what [writeLinks] wrote. *)
Lemma read_written links :
  Forall (fun x => url_line x = true) links -> NoDup links ->
  readExistingLinks (Some (writeLinks links)) = links.
Proof.
  intros Hall Hnd. unfold readExistingLinks, writeLinks.
  destruct links as [|line lines]; [done|].
  cbn [length Nat.ltb Nat.leb].
  rewrite split_lines_join.
  2:{ eapply Forall_impl; [exact Hall|]. intros x Hx. simpl in Hx.
      by apply url_line_spec in Hx as (_ & ? & _). }
  rewrite map_app, List.filter_app. simpl map at 2. simpl List.filter at 2.
  rewrite app_nil_r.
  assert (map JS.trim (line :: lines) = line :: lines) as ->.
  { clear Hnd. induction Hall as [|x l Hx _ IH]; [done|]. simpl.
    apply url_line_spec in Hx as (_ & _ & ->). by rewrite IH. }
  assert (List.filter JS.truthy (line :: lines) = line :: lines) as ->.
  { clear Hnd. induction Hall as [|x l Hx _ IH]; [done|]. simpl.
    apply url_line_spec in Hx as (-> & _ & _). by rewrite IH. }
  rewrite dedupe_from_distinct; [done..|]. intros x _. apply not_elem_of_empty.
Qed.

(** *** Admission *)

Lemma add_present u ls : u ∈ uniqueLinks ls -> add u ls = ls.
Proof. intros Hin. unfold add. by rewrite decide_True. Qed.

Lemma add_elem u ls : u ∈ uniqueLinks (add u ls).
Proof.
  unfold add. destruct (decide (u ∈ uniqueLinks ls)); [done|]. simpl.
  apply elem_of_union_l, elem_of_singleton. done.
Qed.

Lemma add_idem u ls : add u (add u ls) = add u ls.
Proof. apply add_present, add_elem. Qed.

Lemma add_consistent u ls : consistent ls -> consistent (add u ls).
Proof.
  intros [Hnd Hset]. unfold add.
  destruct (decide (u ∈ uniqueLinks ls)) as [Hin|Hnin]; [done|].
  split; simpl.
  - apply NoDup_app. split; [done|]. split; [|apply NoDup_singleton].
    intros x Hx ->%list_elem_of_singleton. apply Hnin. rewrite Hset.
    by apply elem_of_list_to_set.
  - rewrite list_to_set_app_L, Hset. simpl.
    rewrite (right_id_L ∅ (∪)). apply (comm_L (∪)).
Qed.

Lemma add_lines u ls :
  url_line u = true ->
  Forall (fun x => url_line x = true) (allLinks ls) ->
  Forall (fun x => url_line x = true) (allLinks (add u ls)).
Proof.
  intros Hu Hall. unfold add.
  destruct (decide (u ∈ uniqueLinks ls)); [done|]. simpl.
  apply Forall_app. split; [done|]. by constructor.
Qed.

Lemma load_consistent file : consistent (load file).
Proof. split; simpl; [apply readExistingLinks_NoDup|done]. Qed.

Lemma admitted_store file urls :
  Forall (fun x => url_line x = true) urls ->
  let ls := foldl (fun ls x => add x ls) (load file) urls in
  consistent ls /\ Forall (fun x => url_line x = true) (allLinks ls).
Proof.
  intros Hurls.
  assert (consistent (load file) /\
          Forall (fun x => url_line x = true) (allLinks (load file))) as H0.
  { split; [apply load_consistent|apply readExistingLinks_lines]. }
  revert H0. generalize (load file) as ls0.
  induction Hurls as [|x urls Hx _ IH]; intros ls0 [Hc Hl]; simpl; [done|].
  apply IH. split; [by apply add_consistent|by apply add_lines].
Qed.

End LinkFacts.

(** C7. Take the store loaded from any link file (or from none) and admit
    any link lines.  Admitting a URL again changes nothing, neither the set
    nor the list that is written, so two admissions of a new URL grow the set
    by exactly one; the list to be written holds no URL twice and holds the
    members of the set, and so do the lines of the written file; and writing
    that list and reading the file back gives the list, hence the set,
    again. *)
Theorem link_store_admission_roundtrip (file : option string)
    (urls : list string) (u : string) :
  Forall (fun x => LinkStore.url_line x = true) urls ->
  let ls := foldl (fun ls x => LinkStore.add x ls) (LinkStore.load file) urls in
  let written := LinkStore.writeLinks (LinkStore.allLinks ls) in
  LinkStore.add u (LinkStore.add u ls) = LinkStore.add u ls /\
  (u ∈ LinkStore.uniqueLinks ls ->
     LinkStore.add u ls = ls /\
     LinkStore.writeLinks (LinkStore.allLinks (LinkStore.add u ls)) = written) /\
  (u ∉ LinkStore.uniqueLinks ls ->
     size (LinkStore.uniqueLinks (LinkStore.add u (LinkStore.add u ls)))
       = S (size (LinkStore.uniqueLinks ls))) /\
  NoDup (LinkStore.allLinks ls) /\
  LinkStore.uniqueLinks ls = list_to_set (LinkStore.allLinks ls) /\
  NoDup (List.filter JS.truthy (JS.split_lines written)) /\
  LinkStore.readExistingLinks (Some written) = LinkStore.allLinks ls /\
  LinkStore.uniqueLinks (LinkStore.load (Some written)) = LinkStore.uniqueLinks ls.
Proof.
  intros Hurls ls written. subst written.
  destruct (admitted_store file urls Hurls) as [[Hnd Hset] Hlines].
  fold ls in Hnd, Hset, Hlines.
  assert (LinkStore.readExistingLinks
            (Some (LinkStore.writeLinks (LinkStore.allLinks ls)))
          = LinkStore.allLinks ls) as Hread.
  { by apply read_written. }
  split; [apply add_idem|].
  split; [intros Hin; by rewrite add_present|].
  split.
  { intros Hnin. rewrite add_idem. unfold LinkStore.add.
    rewrite decide_False by done. simpl.
    rewrite size_union, size_singleton; [lia|].
    intros x Hx%elem_of_singleton Hin. by subst x. }
  split; [done|]. split; [done|].
  split; [by rewrite written_lines|]. split; [done|].
  unfold LinkStore.load. cbn [LinkStore.uniqueLinks].
  by rewrite Hread, Hset.
Qed.

(** ** Numerals *)

Section NumeralFacts.
Import Decimal.

Lemma append_nil_r s : s +:+ EmptyString = s.
Proof. induction s as [|c s IH]; [done|]. by rewrite append_cons, IH. Qed.

Lemma digits_string_of_uint u rest :
  Numeral.ends_numeral rest ->
  Numeral.digits (NilEmpty.string_of_uint u +:+ rest)
    = (NilEmpty.string_of_uint u, rest).
Proof.
  intros Hrest. induction u as [|u IH|u IH|u IH|u IH|u IH|u IH|u IH|u IH|u IH|u IH];
    simpl NilEmpty.string_of_uint;
    rewrite ?append_cons; simpl Numeral.digits; rewrite ?IH; try done.
  rewrite append_nil_l. destruct rest as [|c rest]; [done|].
  simpl in *. by rewrite Hrest.
Qed.

Lemma value_string_of_uint u :
  Numeral.value (NilEmpty.string_of_uint u) = Z.of_uint u.
Proof. unfold Numeral.value. by rewrite NilEmpty.usu. Qed.

Lemma to_uint_normal p : unorm (Pos.to_uint p) = Pos.to_uint p.
Proof.
  rewrite <-DecimalPos.Unsigned.to_of, DecimalPos.Unsigned.of_to. done.
Qed.

(** The numeral of a positive number starts with a digit other than 0. *)
Lemma to_uint_head p :
  match Pos.to_uint p with
  | Nil | D0 _ => False
  | _ => True
  end.
Proof.
  pose proof (to_uint_normal p) as Hn.
  pose proof (DecimalPos.Unsigned.of_to p) as Hp.
  destruct (Pos.to_uint p) as [|u|u|u|u|u|u|u|u|u|u] eqn:E; try done.
  unfold unorm in Hn.
  destruct (nzhead (D0 u)) eqn:Ez; try discriminate Hn.
  - injection Hn as <-. by vm_compute in Hp.
  - by apply DecimalFacts.nzhead_nonzero in Ez.
Qed.

Lemma of_to_uint p : Z.of_uint (Pos.to_uint p) = Z.pos p.
Proof. unfold Z.of_uint. by rewrite DecimalPos.Unsigned.of_to. Qed.

Lemma toString_0 : JS.toString 0 = "0".
Proof. reflexivity. Qed.

Lemma toString_pos p :
  JS.toString (Z.pos p) = NilEmpty.string_of_uint (Pos.to_uint p).
Proof.
  unfold JS.toString. simpl. pose proof (to_uint_head p).
  by destruct (Pos.to_uint p).
Qed.

Lemma toString_neg p :
  JS.toString (Z.neg p) = String "-" (NilEmpty.string_of_uint (Pos.to_uint p)).
Proof.
  unfold JS.toString. simpl. pose proof (to_uint_head p).
  by destruct (Pos.to_uint p).
Qed.

(** [parseInt] reads back the numeral of an integer. *)
Lemma parseInt_toString n : Numeral.parseInt (JS.toString n) = Numeral.Num n.
Proof.
  destruct n as [|p|p].
  - reflexivity.
  - rewrite toString_pos. unfold Numeral.parseInt.
    pose proof (to_uint_head p) as Hh. pose proof (of_to_uint p) as Hv.
    pose proof (digits_string_of_uint (Pos.to_uint p) EmptyString I) as Hd.
    rewrite append_nil_r in Hd. rewrite <-value_string_of_uint in Hv.
    destruct (Pos.to_uint p); try done; simpl NilEmpty.string_of_uint in *;
      simpl JS.trimStart; cbv iota; rewrite Hd; by rewrite Hv.
  - rewrite toString_neg. unfold Numeral.parseInt.
    pose proof (of_to_uint p) as Hv.
    pose proof (digits_string_of_uint (Pos.to_uint p) EmptyString I) as Hd.
    rewrite append_nil_r in Hd. rewrite <-value_string_of_uint in Hv.
    pose proof (to_uint_head p) as Hh.
    simpl JS.trimStart. cbv iota. rewrite Hd.
    destruct (Pos.to_uint p); try done; simpl NilEmpty.string_of_uint in *;
      by rewrite Hv.
Qed.

Lemma toString_truthy n : JS.truthy (JS.toString n) = true.
Proof.
  destruct n as [|p|p]; [done| |by rewrite toString_neg].
  rewrite toString_pos. pose proof (to_uint_head p). by destruct (Pos.to_uint p).
Qed.

End NumeralFacts.

(** C2, the claim as written fails: with page 10 persisted and an override of
    5, the session starts at page 5, which is not the greatest of the
    override, the resume point 11 and a default start, whatever default is
    taken. *)
Lemma start_page_is_not_a_maximum :
  let persisted :=
    {| Progress.lastProcessedPage := 10; Progress.totalLinksFound := 0;
       Progress.timestamp := EmptyString |} in
  Progress.startPage (Some "5") (Some persisted) = Numeral.Num 5 /\
  forall default_start : Z,
    Progress.startPage (Some "5") (Some persisted)
      <> Numeral.Num (Z.max 5 (Z.max (Progress.lastProcessedPage persisted + 1)
                                 default_start)).
Proof.
  split; [reflexivity|].
  intros default_start. vm_compute Progress.startPage.
  simpl Progress.lastProcessedPage. intros [= H]. lia.
Qed.

(** ** Page URLs *)

Section UrlFacts.

Lemma append_inj_l a b c : a +:+ b = a +:+ c -> b = c.
Proof. induction a as [|x a IH]; [done|]. rewrite !append_cons. intros [= H]. auto. Qed.

Lemma toString_inj n m : JS.toString n = JS.toString m -> n = m.
Proof.
  intros H. pose proof (parseInt_toString n) as Hn.
  rewrite H, parseInt_toString in Hn. by injection Hn.
Qed.

Lemma append_length a b : String.length (a +:+ b) = (String.length a + String.length b)%nat.
Proof. induction a as [|x a IH]; [done|]. rewrite append_cons. simpl. by rewrite IH. Qed.

End UrlFacts.

(** C6, as the code has it.  [scrapePage] asks for the bare listing URL at
    page 1 and appends [?page=N] for every other page; [formatPageUrl], which
    the retrying fetcher uses, appends [?page=N] for every page, page 1
    included, never asks for the bare listing URL, and gives different pages
    different URLs. *)
Theorem page_url_construction (N : Z) :
  PdfScraper.scrapePage_url 1 = BASE_URL /\
  (N <> 1 ->
   PdfScraper.scrapePage_url N = BASE_URL +:+ "?page=" +:+ JS.toString N) /\
  Scheduler.formatPageUrl N = BASE_URL +:+ "?page=" +:+ JS.toString N /\
  Scheduler.formatPageUrl N <> BASE_URL /\
  (forall M, Scheduler.formatPageUrl N = Scheduler.formatPageUrl M -> N = M).
Proof.
  split; [reflexivity|]. split.
  { intros HN. unfold PdfScraper.scrapePage_url.
    by rewrite (proj2 (Z.eqb_neq N 1) HN). }
  split; [reflexivity|]. split.
  - unfold Scheduler.formatPageUrl. intros H.
    apply (f_equal String.length) in H. rewrite !append_length in H.
    simpl in H. lia.
  - intros M H. unfold Scheduler.formatPageUrl in H.
    apply append_inj_l, append_inj_l in H. by apply toString_inj.
Qed.

(** C6, the claim as written fails: for page 1 [formatPageUrl] does not ask
    for the bare listing URL, it appends [?page=1]. *)
Lemma formatPageUrl_keeps_page_1 :
  Scheduler.formatPageUrl 1
    = "https://www.justice.gov/epstein/doj-disclosures/data-set-9-files?page=1" /\
  Scheduler.formatPageUrl 1 <> BASE_URL.
Proof. split; [reflexivity|]. by vm_compute. Qed.

(** ** The progress file *)

Section ProgressFacts.
Import Decimal.

(** [JSON.parse] undoes the quoting of [JSON.stringify]. *)
Lemma parse_chars_quote s rest :
  JSON.parse_chars (JSON.quote_chars s +:+ String "034" rest) = Some (s, rest).
Proof.
  induction s as [|c s IH]; [reflexivity|].
  destruct c as [[] [] [] [] [] [] [] []];
    simpl JSON.quote_chars; rewrite ?append_cons; simpl JSON.parse_chars;
    rewrite IH; reflexivity.
Qed.

Lemma parse_number_uint u rest :
  Numeral.leading_digit u ->
  JSON.parse_number (NilEmpty.string_of_uint u +:+ String "," rest)
    = Some (JSON.Num (Z.of_uint u), String "," rest).
Proof.
  intros Hu. rewrite <-value_string_of_uint.
  destruct u as [|u|u|u|u|u|u|u|u|u|u]; try done;
    simpl NilEmpty.string_of_uint; rewrite append_cons;
    unfold JSON.parse_number; cbv beta iota; simpl Numeral.digits;
    rewrite digits_string_of_uint by done; reflexivity.
Qed.

Lemma parse_number_neg_uint u rest :
  Numeral.leading_digit u ->
  JSON.parse_number (String "-" (NilEmpty.string_of_uint u +:+ String "," rest))
    = Some (JSON.Num (- Z.of_uint u), String "," rest).
Proof.
  intros Hu. rewrite <-value_string_of_uint.
  destruct u as [|u|u|u|u|u|u|u|u|u|u]; try done;
    simpl NilEmpty.string_of_uint; rewrite append_cons;
    unfold JSON.parse_number; cbv beta iota; simpl Numeral.digits;
    rewrite digits_string_of_uint by done; reflexivity.
Qed.

(** A member value that is the numeral of an integer, behind the blank
    that [JSON.stringify] puts after the colon. *)
Lemma parse_value_toString fuel n rest :
  JSON.parse_value (S fuel) (String " " (JS.toString n +:+ String "," rest))
    = Some (JSON.Num n, String "," rest).
Proof.
  destruct n as [|p|p].
  - reflexivity.
  - rewrite toString_pos. pose proof (to_uint_head p) as Hh.
    rewrite <-(of_to_uint p), <-parse_number_uint by done.
    destruct (Pos.to_uint p); try done; reflexivity.
  - rewrite toString_neg. pose proof (to_uint_head p) as Hh.
    change (Z.neg p) with (- Z.pos p).
    rewrite <-(of_to_uint p), <-parse_number_neg_uint by done.
    reflexivity.
Qed.

(** The opening of the object, down to the first key. *)
Lemma parse_value_object fuel body :
  JSON.parse_value (S fuel)
    (String "{" (String "010" (String " " (String " " (String "034" body)))))
    = JSON.parse_members fuel (String "034" body) [].
Proof. reflexivity. Qed.

(** A member with a number, followed by a comma. *)
Lemma parse_members_number fuel key n rest acc :
  JSON.parse_members (S (S fuel))
    (String "034" (JSON.quote_chars key +:+ String "034"
       (String ":" (String " " (JS.toString n +:+ String ","
          (String "010" (String " " (String " " rest)))))))) acc
    = JSON.parse_members (S fuel) rest (acc ++ [(key, JSON.Num n)]).
Proof.
  cbn [JSON.parse_members JSON.skip_ws JSON.is_ws].
  rewrite parse_chars_quote. cbn [JSON.skip_ws JSON.is_ws].
  rewrite parse_value_toString. reflexivity.
Qed.

(** The last member, a string, and the closing brace. *)
Lemma parse_members_string fuel key str rest acc :
  JSON.parse_members (S (S fuel))
    (String "034" (JSON.quote_chars key +:+ String "034"
       (String ":" (String " " (String "034" (JSON.quote_chars str +:+ String "034"
          (String "010" (String "}" rest))))))) ) acc
    = Some (JSON.Obj (acc ++ [(key, JSON.Str str)]), rest).
Proof.
  cbn [JSON.parse_members JSON.skip_ws JSON.is_ws].
  rewrite parse_chars_quote. cbn [JSON.skip_ws JSON.is_ws JSON.parse_value].
  rewrite parse_chars_quote. reflexivity.
Qed.

(** The text of a progress record, character by character around the
    three values. *)
Lemma stringify_text state :
  Progress.stringify state =
    String "{" (String "010" (String " " (String " " (String "034"
    (JSON.quote_chars "lastProcessedPage" +:+ String "034" (String ":"
    (String " " (JS.toString (Progress.lastProcessedPage state) +:+ String
    "," (String "010" (String " " (String " " (String "034"
    (JSON.quote_chars "totalLinksFound" +:+ String "034" (String ":" (String
    " " (JS.toString (Progress.totalLinksFound state) +:+ String "," (String
    "010" (String " " (String " " (String "034" (JSON.quote_chars
    "timestamp" +:+ String "034" (String ":" (String " " (String "034"
    (JSON.quote_chars (Progress.timestamp state) +:+ String "034" (String
    "010" (String "}" EmptyString))))))))))))))))))))))))))).
Proof.
  unfold Progress.stringify, JSON.quote. cbv zeta.
  repeat first [rewrite append_cons | rewrite append_nil_l | rewrite append_assoc].
  reflexivity.
Qed.

Lemma parse_stringify state :
  JSON.parse (Progress.stringify state) =
  Some (JSON.Obj
          [("lastProcessedPage", JSON.Num (Progress.lastProcessedPage state));
           ("totalLinksFound", JSON.Num (Progress.totalLinksFound state));
           ("timestamp", JSON.Str (Progress.timestamp state))]).
Proof.
  unfold JSON.parse. rewrite stringify_text.
  cbn [String.length].
  rewrite parse_value_object, parse_members_number, parse_members_number,
    parse_members_string.
  reflexivity.
Qed.

(** A completed checkpoint reads back as the record that was written. *)
Lemma readProgress_writeProgress filePath state files :
  Progress.readProgress (Progress.writeProgress filePath state files) filePath
    = Some state.
Proof.
  unfold Progress.readProgress, Progress.writeProgress, Progress.writeFile.
  rewrite lookup_insert_eq, parse_stringify. by destruct state.
Qed.

End ProgressFacts.

(** C2, as the code has it.  With [START_PAGE] unset or empty the start page
    is one past the persisted [lastProcessedPage] (0 when no progress is
    there), also when that record is read back from the progress file a
    checkpoint wrote, and the session then enters its loop with the cursor on
    that page; with [START_PAGE] set to the numeral of a page, the start page
    is that page whatever is persisted, also when it lies before the resume
    point. *)
Theorem start_page_override_or_resume (existingProgress : option Progress.ProgressState) :
  (forall START_PAGE,
     START_PAGE = None \/ START_PAGE = Some EmptyString ->
     Progress.startPage START_PAGE existingProgress =
       Numeral.Num match existingProgress with
                   | Some p => Progress.lastProcessedPage p + 1
                   | None => 0
                   end) /\
  (forall (filePath : string) (state : Progress.ProgressState) (files : Files),
     Progress.startPage None
       (Progress.readProgress (Progress.writeProgress filePath state files) filePath)
     = Numeral.Num (Progress.lastProcessedPage state + 1)) /\
  (forall cfg newURL net clock final fuel (state : Progress.ProgressState)
          (files : Files),
     let persisted :=
       Progress.writeProgress (Scheduler.progressPath cfg) state files in
     Scheduler.scrape cfg newURL net clock final fuel None persisted =
     Some match Scheduler.loop cfg newURL net clock fuel 0
                  (Scheduler.initial cfg (Progress.lastProcessedPage state + 1)
                     persisted) with
          | Scheduler.Finished st =>
            Scheduler.Finished
              (Scheduler.saveCheckpoint cfg final (Scheduler.lastProcessedPage st) st)
          | r => r
          end) /\
  (forall override : Z,
     Progress.startPage (Some (JS.toString override)) existingProgress
       = Numeral.Num override).
Proof.
  split; [|split; [|split]].
  - intros START_PAGE [-> | ->]; unfold Progress.startPage; simpl;
      by destruct existingProgress.
  - intros filePath state files. by rewrite readProgress_writeProgress.
  - intros cfg newURL net clock final fuel state files persisted.
    unfold Scheduler.scrape. subst persisted.
    by rewrite readProgress_writeProgress.
  - intros override. unfold Progress.startPage, Progress.envStartPage.
    by rewrite toString_truthy, parseInt_toString.
Qed.

Section InterruptedWrite.

Lemma length_substring n s :
  (n <= String.length s)%nat -> String.length (substring 0 n s) = n.
Proof.
  revert n. induction s as [|c s IH]; intros [|n] Hn; simpl in *; try done; [lia|].
  rewrite IH; [done|lia].
Qed.

End InterruptedWrite.

(** C9, as the code has it.  A checkpoint is two plain [fs.writeFile] calls,
    the first one on the progress path itself: it creates no other file and
    renames nothing.  Once the write is complete a reader gets the record
    that was written.  While it is under way the file holds a proper prefix
    of the new text and no longer what it held before; a reader that finds it
    empty gets no progress at all. *)
Theorem checkpoint_overwrites_in_place (cfg : Scheduler.Config) (now : string)
    (lastPage : Z) (st : Scheduler.Session) :
  let state :=
    {| Progress.lastProcessedPage := lastPage;
       Progress.totalLinksFound :=
         Z.of_nat (size (LinkStore.uniqueLinks (Scheduler.links st)));
       Progress.timestamp := now |} in
  let filePath := Scheduler.progressPath cfg in
  Scheduler.files (Scheduler.saveCheckpoint cfg now lastPage st) =
    Progress.writeFile (Scheduler.outputPath cfg)
      (LinkStore.writeLinks (LinkStore.allLinks (Scheduler.links st)))
      (Progress.writeProgress filePath state (Scheduler.files st)) /\
  (forall files : Files,
     dom (Progress.writeProgress filePath state files) = {[filePath]} ∪ dom files /\
     Progress.readProgress (Progress.writeProgress filePath state files) filePath
       = Some state) /\
  (forall (files : Files) (written : nat),
     (written < String.length (Progress.stringify state))%nat ->
     let during := Progress.writeProgress_interrupted filePath state written files in
     during !! filePath = Some (substring 0 written (Progress.stringify state)) /\
     during !! filePath <> Some (Progress.stringify state) /\
     dom during = {[filePath]} ∪ dom files) /\
  (forall files : Files,
     Progress.readProgress
       (Progress.writeProgress_interrupted filePath state 0 files) filePath = None).
Proof.
  intros state filePath. split; [reflexivity|]. split; [|split].
  - intros files. split; [|apply readProgress_writeProgress].
    unfold Progress.writeProgress, Progress.writeFile. by rewrite dom_insert_L.
  - intros files written Hlt during. subst during.
    unfold Progress.writeProgress_interrupted, Progress.writeFile_interrupted.
    rewrite lookup_insert_eq, dom_insert_L. split; [done|]. split; [|done].
    intros H.
    assert (substring 0 written (Progress.stringify state) = Progress.stringify state)
      as H' by congruence.
    apply (f_equal String.length) in H'.
    rewrite length_substring in H'; lia.
  - intros files.
    unfold Progress.readProgress, Progress.writeProgress_interrupted,
      Progress.writeFile_interrupted.
    rewrite lookup_insert_eq.
    by destruct (Progress.stringify state).
Qed.

(** C9, the claim as written fails: page 41 is durable, the checkpoint for
    page 42 is cut short after the file was opened, or after any number of
    characters short of the whole text, and a reader no longer finds page 41
    nor any progress: the next session starts at page 0. *)
Lemma interrupted_checkpoint_loses_progress :
  let filePath := "pdf-links.progress.json" in
  let durable :=
    {| Progress.lastProcessedPage := 41; Progress.totalLinksFound := 7;
       Progress.timestamp := "2026-01-01T00:00:00.000Z" |} in
  let next :=
    {| Progress.lastProcessedPage := 42; Progress.totalLinksFound := 9;
       Progress.timestamp := "2026-01-01T00:05:00.000Z" |} in
  let before := Progress.writeProgress filePath durable ∅ in
  let during written := Progress.writeProgress_interrupted filePath next written before in
  Progress.readProgress before filePath = Some durable /\
  during 0%nat !! filePath = Some EmptyString /\
  Progress.readProgress (during 0%nat) filePath = None /\
  Progress.startPage None (Progress.readProgress (during 0%nat) filePath)
    = Numeral.Num 0 /\
  forallb (fun written =>
             match Progress.readProgress (during written) filePath with
             | None => true
             | Some _ => false
             end)
    (seq 0 (String.length (Progress.stringify next))) = true.
Proof. vm_compute. done. Qed.

(** * The theorems at concrete inputs *)

(** Two transport failures, then an OK page: three requests, result [ok]. *)
Lemma fetchWithRetry_ladder_witness :
  let request (k : nat) :=
    if (k <? 2)%nat then Fetcher.Throws
    else Fetcher.Responds {| Fetcher.status := 200; Fetcher.text := "<html></html>" |} in
  let out := Fetcher.fetchWithRetry request (Scheduler.formatPageUrl 7) MAX_RETRIES in
  out.1 = Fetcher.st_ok "<html></html>" /\ Fetcher.attempts out.2 = 3%nat.
Proof.
  intros request out.
  refine (proj1 (proj2 (fetchWithRetry_ladder request (Scheduler.formatPageUrl 7)
                          MAX_RETRIES)) 2%nat
            {| Fetcher.status := 200; Fetcher.text := "<html></html>" |} _ _ _ _ _).
  - unfold MAX_RETRIES. lia.
  - intros j Hj. right. left. destruct j as [|[|j]]; [reflexivity|reflexivity|lia].
  - reflexivity.
  - reflexivity.
  - reflexivity.
Defined.

(** An OK page without links is an empty page for the scheduler. *)
Lemma fetchWithRetry_never_empty_witness :
  let cfg := Scheduler.shipped 500 in
  let st := Scheduler.initial cfg 0 ∅ in
  Scheduler.matchPdfHrefs "<html></html>" = [] /\
  exists st' stop,
    Scheduler.processResult cfg Some
      (Scheduler.toBatchResult 0 (Fetcher.st_ok "<html></html>")) st
    = Some (st', stop) /\
    Scheduler.emptyPagesInARow st' = Scheduler.emptyPagesInARow st + 1.
Proof.
  intros cfg st. split; [reflexivity|].
  exact (proj2 (proj2 (fetchWithRetry_never_empty (fun _ => Fetcher.Throws)
                         EmptyString 0))
           cfg Some 0 "<html></html>" st eq_refl).
Defined.

(** The session as shipped.  Page 0 is denied in the first round and
    answers in the second: one cooldown, and page 0 is dispatched again.
    And page 0 is denied in every round: three dispatches, two cooldowns,
    and the session stops. *)
Lemma full_batch_block_redispatch_witness :
  let cfg := Scheduler.shipped 500 in
  let denied := Fetcher.Responds {| Fetcher.status := 403; Fetcher.text := "Access Denied" |} in
  let listing := Fetcher.Responds {| Fetcher.status := 200; Fetcher.text := "<html></html>" |} in
  let once (round : nat) (pageNumber : Z) (attempt : nat) :=
    if (round =? 0)%nat then denied else listing in
  let always (round : nat) (pageNumber : Z) (attempt : nat) := denied in
  let clock (round : nat) := EmptyString in
  let st := Scheduler.initial cfg 0 ∅ in
  Scheduler.start st <= Scheduler.max_page cfg /\
  Scheduler.shouldStop st = false /\
  Scheduler.blocked (Scheduler.fetchPage cfg (once 0%nat) 0) = true /\
  Scheduler.blocked (Scheduler.fetchPage cfg (once 1%nat) 0) = false /\
  Scheduler.blockedCount st + 1 < Scheduler.max_blocked_before_stop cfg /\
  (exists st1,
     Scheduler.loop cfg Some once clock 2 0 st =
       Scheduler.loop cfg Some once clock 1 1 st1 /\
     Scheduler.start st1 = 0 /\
     Scheduler.trace st1 =
       [Scheduler.Sleep 30000;
        Scheduler.Log (Scheduler.EntireBatchBlocked 1);
        Scheduler.Dispatch [0]] /\
     Scheduler.iteration cfg Some (once 1%nat) EmptyString st1 =
       Scheduler.aggregate cfg Some EmptyString
         (map (Scheduler.fetchPage cfg (once 1%nat)) [0])
         (Scheduler.emit (Scheduler.Dispatch [0]) st1)) /\
  exists st',
    Scheduler.loop cfg Some always clock 3 0 st = Scheduler.Finished st' /\
    Scheduler.shouldStop st' = true /\
    Scheduler.start st' = 0 /\
    Scheduler.dispatched (Scheduler.trace st') = [[0]; [0]; [0]] /\
    Scheduler.slept (Scheduler.trace st') = [30000; 30000].
Proof.
  intros cfg denied listing once always clock st.
  assert (Scheduler.start st <= Scheduler.max_page cfg) as Hle by (vm_compute; discriminate).
  assert (Scheduler.shouldStop st = false) as Hgo by reflexivity.
  assert (Scheduler.blockedCount st + 1 < Scheduler.max_blocked_before_stop cfg)
    as Hlt by reflexivity.
  split; [exact Hle|]. split; [exact Hgo|].
  split; [reflexivity|]. split; [reflexivity|]. split; [exact Hlt|]. split.
  - destruct (proj1 (full_batch_block_redispatch cfg Some once clock 1 0 st Hle Hgo))
      as (st1 & Hrun & Hs & _ & _ & _ & Htr & _ & _ & _ & _ & Hnext & _); [|exact Hlt|].
    + intros p Hp. vm_compute in Hp.
      apply list_elem_of_singleton in Hp. subst p. reflexivity.
    + exists st1. split; [exact Hrun|]. split; [exact Hs|]. split; [exact Htr|].
      exact (Hnext (once 1%nat) EmptyString).
  - destruct (proj2 (proj2 (full_batch_block_redispatch cfg Some always clock 0 0 st
                              Hle Hgo)))
      as (st' & Hrun & Hstop & Hstart & Hd & Hs & _).
    + intros k _ p Hp. vm_compute in Hp.
      apply list_elem_of_singleton in Hp. subst p. reflexivity.
    + exists st'. split; [exact Hrun|]. split; [exact Hstop|].
      split; [exact Hstart|]. split; [exact Hd|exact Hs].
Defined.

(** The batch at page 0 ends in [error] after two batches blocked as a
    whole. *)
Lemma blocked_counter_after_batch_witness :
  let cfg := Scheduler.shipped 500 in
  let net (pageNumber : Z) (attempt : nat) := Fetcher.Throws in
  let st := Scheduler.set_blockedCount 2 (Scheduler.initial cfg 0 ∅) in
  let results :=
    map (Scheduler.fetchPage cfg net) (Scheduler.batchPages cfg (Scheduler.start st)) in
  Scheduler.concurrency cfg = 1 /\
  (exists r, r ∈ results /\ Scheduler.blocked r = false) /\
  Scheduler.blockedCount st = 2 /\
  (Scheduler.blockedCount ∘ fst) <$>
    Scheduler.iteration cfg Some net EmptyString st = Some 0.
Proof.
  intros cfg net st results.
  assert (Scheduler.concurrency cfg = 1) as HW by reflexivity.
  assert (exists r, r ∈ results /\ Scheduler.blocked r = false) as Hex.
  { exists (Scheduler.toBatchResult 0 Fetcher.st_error). split; [left|reflexivity]. }
  split; [exact HW|]. split; [exact Hex|]. split; [reflexivity|].
  pose proof (blocked_counter_after_batch cfg Some net EmptyString st HW Hex) as Hthm.
  destruct (Scheduler.iteration cfg Some net EmptyString st) as [[st' flow]|].
  - destruct Hthm as (_ & Hbc). simpl. rewrite Hbc. reflexivity.
  - destruct Hthm as (r & href & _ & _ & Hn). discriminate Hn.
Defined.

(** A store loaded from a file of one link, two admissions, one of them of
    the link already there. *)
Lemma link_store_admission_roundtrip_witness :
  let file := Some ("https://a.example/x.pdf" +:+ String "010" EmptyString) in
  let urls := ["https://a.example/y.pdf"; "https://a.example/x.pdf"] in
  let ls := foldl (fun ls x => LinkStore.add x ls) (LinkStore.load file) urls in
  Forall (fun x => LinkStore.url_line x = true) urls /\
  LinkStore.allLinks ls = ["https://a.example/x.pdf"; "https://a.example/y.pdf"] /\
  LinkStore.readExistingLinks
    (Some (LinkStore.writeLinks (LinkStore.allLinks ls))) = LinkStore.allLinks ls.
Proof.
  intros file urls ls.
  assert (Forall (fun x => LinkStore.url_line x = true) urls) as Hurls.
  { repeat constructor. }
  split; [exact Hurls|]. split; [reflexivity|].
  exact (proj1 (proj2 (proj2 (proj2 (proj2 (proj2 (proj2
           (link_store_admission_roundtrip file urls "https://a.example/y.pdf" Hurls)))))))).
Defined.

(** Pages 5 to 8, completing in the order 8, 7, 6, 5. *)
Lemma aggregate_completion_order_witness :
  let cfg := Scheduler.at_width 4 (Scheduler.shipped 500) in
  let net (pageNumber : Z) (attempt : nat) :=
    if pageNumber =? 6 then Fetcher.Throws
    else Fetcher.Responds {| Fetcher.status := 200; Fetcher.text := "<html></html>" |} in
  let in_page_order := map (Scheduler.fetchPage cfg net) (Scheduler.batchPages cfg 5) in
  let arrived := rev in_page_order in
  let st := Scheduler.initial cfg 5 ∅ in
  arrived ≡ₚ in_page_order /\
  map Scheduler.pageNumber arrived = [8; 7; 6; 5] /\
  Scheduler.aggregate cfg Some EmptyString arrived st =
  Scheduler.processBatch cfg Some EmptyString in_page_order st.
Proof.
  intros cfg net in_page_order arrived st.
  assert (arrived ≡ₚ in_page_order) as Hperm.
  { symmetry. apply Permutation_rev. }
  split; [exact Hperm|]. split; [reflexivity|].
  exact (proj2 (aggregate_completion_order cfg Some net EmptyString 5 arrived st Hperm)).
Defined.

(** Page 2 of the listing, in both scrapers. *)
Lemma page_url_construction_witness :
  (2 <> 1) /\
  PdfScraper.scrapePage_url 2 = BASE_URL +:+ "?page=" +:+ JS.toString 2.
Proof.
  assert (2 <> 1) as Hne by discriminate.
  split; [exact Hne|].
  exact (proj1 (proj2 (page_url_construction 2)) Hne).
Defined.

(** No [START_PAGE], page 41 persisted by a checkpoint: the session starts at
    page 42. *)
Lemma start_page_override_or_resume_witness :
  let persisted :=
    {| Progress.lastProcessedPage := 41; Progress.totalLinksFound := 7;
       Progress.timestamp := "2026-01-01T00:00:00.000Z" |} in
  (@None string = None \/ @None string = Some EmptyString) /\
  Progress.startPage None (Some persisted) = Numeral.Num (41 + 1).
Proof.
  intros persisted.
  assert (@None string = None \/ @None string = Some EmptyString) as Hunset by (left; reflexivity).
  split; [exact Hunset|].
  exact (proj1 (start_page_override_or_resume (Some persisted)) None Hunset).
Defined.

(** A checkpoint for page 42 cut short after ten characters. *)
Lemma checkpoint_overwrites_in_place_witness :
  let cfg := Scheduler.shipped 500 in
  let st := Scheduler.initial cfg 0 ∅ in
  let state :=
    {| Progress.lastProcessedPage := 42;
       Progress.totalLinksFound :=
         Z.of_nat (size (LinkStore.uniqueLinks (Scheduler.links st)));
       Progress.timestamp := "2026-01-01T00:05:00.000Z" |} in
  (10 < String.length (Progress.stringify state))%nat /\
  Progress.writeProgress_interrupted (Scheduler.progressPath cfg) state 10 ∅
    !! Scheduler.progressPath cfg
  = Some (substring 0 10 (Progress.stringify state)).
Proof.
  intros cfg st state.
  assert (10 < String.length (Progress.stringify state))%nat as Hlt
    by (vm_compute; lia).
  split; [exact Hlt|].
  exact (proj1 (proj1 (proj2 (proj2
           (checkpoint_overwrites_in_place cfg "2026-01-01T00:05:00.000Z" 42 st)))
           ∅ 10%nat Hlt)).
Defined.


(* ================================================================== *)
(** * Further properties *)

(** ** The retry loop, attempt by attempt *)

Section RetryRun.
Import Fetcher.
Variable request : nat -> Attempt.
Variable url : string.
Variable retries : Z.

Lemma rounds_S a n :
  Backoff.rounds request url a (S n) =
  Get url :: Sleep (Backoff.delay_after (request a) a)
    :: Backoff.rounds request url (S a) n.
Proof. reflexivity. Qed.

Lemma attempts_app tr1 tr2 : attempts (tr1 ++ tr2) = (attempts tr1 + attempts tr2)%nat.
Proof. unfold attempts. by rewrite List.filter_app, length_app. Qed.

Lemma attempts_rounds a n : attempts (Backoff.rounds request url a n) = n.
Proof.
  revert a. induction n as [|n IH]; intros a; [done|].
  rewrite rounds_S, attempts_cons_get, attempts_cons_sleep. by rewrite IH.
Qed.

Lemma attempts_from_run fuel : forall a tr,
  Z.of_nat (a + S fuel) = retries + 1 ->
  exists m, (m <= fuel)%nat /\
    Backoff.run_ends request url retries a m (attempts_from request url retries (S fuel) a tr) tr.
Proof.
  induction fuel as [|fuel IH]; intros a tr Hfuel.
  - exists 0%nat. split; [done|]. unfold Backoff.run_ends. rewrite Nat.add_0_r.
    split; [intros j Hj; lia|].
    assert ((Z.of_nat a <? retries) = false) as Hlast by (apply Z.ltb_ge; lia).
    simpl. rewrite Hlast.
    destruct (request a) as [|r] eqn:Hreq; simpl.
    + split; [done|]. left. split; [by left|lia].
    + destruct (isBlockedResponse (text r)) eqn:Hblk; simpl.
      * split; [done|]. split; [by exists r|lia].
      * destruct (response_ok r) eqn:Hok; simpl; [by eauto 8|].
        rewrite andb_false_r. simpl. split; [done|].
        destruct (rate_limited_or_server_error r) eqn:Hst.
        -- left. split; [right; by exists r|lia].
        -- right. by exists r.
  - assert ((Z.of_nat a <? retries) = true) as Hmore by (apply Z.ltb_lt; lia).
    assert (forall d,
              d = Backoff.delay_after (request a) a ->
              retried_attempt request a ->
              exists m, (m <= S fuel)%nat /\
                Backoff.run_ends request url retries a m
                  (attempts_from request url retries (S fuel) (S a)
                     (Sleep d :: Get url :: tr)) tr) as Hstep.
    { intros d -> Hretried.
      destruct (IH (S a) (Sleep (Backoff.delay_after (request a) a) :: Get url :: tr))
        as (m & Hm & Hall & Htr & Hres); [lia|].
      exists (S m). split; [lia|]. unfold Backoff.run_ends.
      replace (a + S m)%nat with (S a + m)%nat by lia.
      split; [|split; [|done]].
      - intros j Hj. destruct (decide (j = a)) as [->|]; [done|]. apply Hall. lia.
      - rewrite Htr, rounds_S. simpl. by rewrite <-!app_assoc. }
    change (attempts_from request url retries (S (S fuel)) a tr) with
      (let tr' := Get url :: tr in
       match request a with
       | Responds response =>
         let html := text response in
         if isBlockedResponse html then
           if Z.of_nat a <? retries then
             attempts_from request url retries (S fuel) (S a)
               (Sleep (BLOCKED_BACKOFF_MS * (Z.of_nat a + 1)) :: tr')
           else (st_blocked, tr')
         else if response_ok response then (st_ok html, tr')
         else if rate_limited_or_server_error response && (Z.of_nat a <? retries) then
           attempts_from request url retries (S fuel) (S a)
             (Sleep (RETRY_BASE_DELAY_MS * 2 ^ Z.of_nat a) :: tr')
         else (st_error, tr')
       | Throws =>
         if Z.of_nat a <? retries then
           attempts_from request url retries (S fuel) (S a)
             (Sleep (RETRY_BASE_DELAY_MS * 2 ^ Z.of_nat a) :: tr')
         else (st_error, tr')
       end) in *.
    cbv zeta. rewrite Hmore.
    destruct (request a) as [|r] eqn:Hreq.
    + apply Hstep; [reflexivity|]. right. by left.
    + destruct (isBlockedResponse (text r)) eqn:Hblk.
      * apply Hstep.
        -- unfold Backoff.delay_after. by rewrite Hblk.
        -- left. by exists r.
      * destruct (response_ok r) eqn:Hok.
        -- exists 0%nat. split; [lia|]. unfold Backoff.run_ends. rewrite Nat.add_0_r.
           split; [intros j Hj; lia|]. simpl. split; [done|]. by exists r.
        -- destruct (rate_limited_or_server_error r) eqn:Hst; simpl.
           ++ apply Hstep.
              ** unfold Backoff.delay_after. by rewrite Hblk.
              ** right. right. by exists r.
           ++ exists 0%nat. split; [lia|]. unfold Backoff.run_ends. rewrite Nat.add_0_r.
              split; [intros j Hj; lia|]. simpl. split; [done|].
              right. by exists r.
Qed.

End RetryRun.

(** X1. The trace of [fetchWithRetry]: with a negative budget nothing is
    requested and the result is [error]; otherwise at least one request is
    sent, every request but the last is followed by one pause, which is
    [BLOCKED_BACKOFF_MS * (i + 1)] behind a block page at index [i] and
    [RETRY_BASE_DELAY_MS * 2 ^ i] behind a failure, and nothing follows the
    last request. *)
Theorem fetchWithRetry_backoff_trace (request : nat -> Fetcher.Attempt)
    (url : string) (retries : Z) :
  let out := Fetcher.fetchWithRetry request url retries in
  let n := Fetcher.attempts out.2 in
  (retries < 0 -> out = (Fetcher.st_error, [])) /\
  (0 <= retries ->
   (1 <= n)%nat /\ Z.of_nat n <= retries + 1 /\
   out.2 = Backoff.rounds request url 0 (n - 1) ++ [Fetcher.Get url]).
Proof.
  cbv zeta. unfold Fetcher.fetchWithRetry. split.
  - intros Hneg. by replace (Z.to_nat (retries + 1)) with 0%nat by lia.
  - intros Hpos.
    replace (Z.to_nat (retries + 1)) with (S (Z.to_nat retries)) by lia.
    destruct (attempts_from_run request url retries (Z.to_nat retries) 0 [])
      as (m & Hm & _ & Htr & _); [lia|].
    destruct (Fetcher.attempts_from _ _ _ _ _ _) as [res tr]. simpl in *.
    rewrite Htr, attempts_app, attempts_rounds.
    change (Fetcher.attempts [Fetcher.Get url]) with 1%nat.
    replace (m + 1 - 1)%nat with m by lia. split; [lia|]. split; [lia|done].
Qed.

(** X2. What a result of [fetchWithRetry] tells about the attempts: all
    attempts before the last were retried; [ok] carries the body of the last
    response, which is OK and no block page; [blocked] comes only from a
    block page at index [retries], the budget being used up; [error] comes
    from a failure at index [retries] or from an answer that is neither
    retried nor OK. *)
Theorem fetchWithRetry_result_sound (request : nat -> Fetcher.Attempt)
    (url : string) (retries : Z) :
  0 <= retries ->
  let out := Fetcher.fetchWithRetry request url retries in
  let last := (Fetcher.attempts out.2 - 1)%nat in
  (forall j, (j < last)%nat -> Fetcher.retried_attempt request j) /\
  match out.1 with
  | Fetcher.st_ok html =>
      exists r, request last = Fetcher.Responds r /\ html = Fetcher.text r /\
                Fetcher.isBlockedResponse (Fetcher.text r) = false /\
                Fetcher.response_ok r = true
  | Fetcher.st_blocked =>
      Fetcher.blocked_attempt request last /\ Z.of_nat last = retries
  | Fetcher.st_error =>
      (Fetcher.failed_attempt request last /\ Z.of_nat last = retries) \/
      Backoff.fatal_attempt request last
  | Fetcher.st_empty => False
  end.
Proof.
  intros Hpos. cbv zeta. unfold Fetcher.fetchWithRetry.
  replace (Z.to_nat (retries + 1)) with (S (Z.to_nat retries)) by lia.
  destruct (attempts_from_run request url retries (Z.to_nat retries) 0 [])
    as (m & Hm & Hall & Htr & Hres); [lia|].
  destruct (Fetcher.attempts_from _ _ _ _ _ _) as [res tr]. simpl in *.
  rewrite Htr, attempts_app, attempts_rounds.
  change (Fetcher.attempts [Fetcher.Get url]) with 1%nat.
  replace (m + 1 - 1)%nat with m by lia.
  split; [intros j Hj; apply Hall; lia|done].
Qed.

(** X3. An answer that is no block page, not OK and not 403, 429 or 5xx
    (a 404, say) ends the loop at once with [error]: no pause, no further
    request, whatever is left of the budget. *)
Theorem fetchWithRetry_fatal_status (request : nat -> Fetcher.Attempt)
    (url : string) (retries : Z) (k : nat) :
  Z.of_nat k <= retries ->
  (forall j, (j < k)%nat -> Fetcher.retried_attempt request j) ->
  Backoff.fatal_attempt request k ->
  let out := Fetcher.fetchWithRetry request url retries in
  out.1 = Fetcher.st_error /\ Fetcher.attempts out.2 = S k /\
  last out.2 = Some (Fetcher.Get url).
Proof.
  intros Hk Hall (r & Hreq & Hblk & Hok & Hst). cbv zeta.
  unfold Fetcher.fetchWithRetry.
  replace (Z.to_nat (retries + 1)) with (k + S (Z.to_nat retries - k))%nat by lia.
  destruct (attempts_from_skip request url retries k (S (Z.to_nat retries - k)) 0 [])
    as (tr' & Heq & Hn); [intros j Hj; apply Hall; lia | lia |].
  rewrite Heq. cbn [Fetcher.attempts_from Nat.add].
  rewrite Hreq, Hblk, Hok, Hst. cbn [fst snd andb].
  split; [done|]. split.
  - rewrite attempts_rev, attempts_cons_get, Hn. done.
  - simpl. by rewrite last_snoc.
Qed.

(** ** Block pages *)

Section MarkerFacts.

Lemma prefix_spec n s : String.prefix n s = true <-> exists post, s = n +:+ post.
Proof.
  revert n. induction s as [|b s IH]; intros n; simpl.
  - destruct n as [|a n]; simpl.
    + split; [by exists EmptyString|done].
    + split; [done|]. intros (post & H). by rewrite append_cons in H.
  - destruct n as [|a n].
    + split; [|done]. intros _. by exists (String b s).
    + destruct (ascii_dec a b) as [->|Hne].
      * rewrite IH. split; intros (post & H); exists post.
        -- by rewrite append_cons, H.
        -- rewrite append_cons in H. by injection H.
      * split; [done|]. intros (post & H). rewrite append_cons in H.
        injection H as H1 H2. congruence.
Qed.

(** [includes] finds an occurrence anywhere in the string. *)
Lemma includes_spec s n :
  JS.includes s n = true <-> exists pre post, s = pre +:+ n +:+ post.
Proof.
  induction s as [|c s IH].
  - change (JS.includes EmptyString n) with (String.prefix n EmptyString || false).
    rewrite orb_false_r, prefix_spec. split.
    + intros (post & H). by exists EmptyString, post.
    + intros (pre & post & H). destruct pre as [|x pre]; [by exists post|].
      by rewrite append_cons in H.
  - change (JS.includes (String c s) n)
      with (String.prefix n (String c s) || JS.includes s n).
    rewrite orb_true_iff, prefix_spec, IH. split.
    + intros [(post & H) | (pre & post & H)].
      * by exists EmptyString, post.
      * exists (String c pre), post. by rewrite append_cons, H.
    + intros (pre & post & H). destruct pre as [|x pre].
      * left. by exists post.
      * right. rewrite append_cons in H. injection H as -> H.
        by exists pre, post.
Qed.

End MarkerFacts.

(** X4. A body is taken as a block page exactly when one of the four denial
    markers occurs somewhere in it, in that very spelling; the status of the
    response plays no part. *)
Theorem isBlockedResponse_markers (html : string) :
  Fetcher.isBlockedResponse html = true <->
  exists marker pre post,
    marker ∈ Backoff.markers /\ html = pre +:+ marker +:+ post.
Proof.
  unfold Fetcher.isBlockedResponse, Backoff.markers.
  rewrite !orb_true_iff, !includes_spec. split.
  - intros [[[(pre & post & H)|(pre & post & H)]|(pre & post & H)]|(pre & post & H)];
      eexists _, pre, post; (split; [|exact H]);
      repeat first [by left | right].
  - intros (marker & pre & post & Hin & H).
    repeat (apply elem_of_cons in Hin as [->|Hin]); [| | | |by inv Hin].
    + left; left; left. by exists pre, post.
    + left; left; right. by exists pre, post.
    + left; right. by exists pre, post.
    + right. by exists pre, post.
Qed.

(** ** Loading and admission, further *)

Section LoadFacts.
Import LinkStore.

Lemma dedupe_from_keeps seen acc lines x :
  seen = list_to_set acc -> x ∈ acc \/ x ∈ lines ->
  x ∈ dedupe_from seen acc lines.
Proof.
  revert seen acc. induction lines as [|l lines IH]; intros seen acc -> Hx; simpl.
  - destruct Hx as [Hx|Hx]; [done|by inv Hx].
  - destruct (decide (l ∈ list_to_set acc)) as [Hin|Hnin].
    + apply IH; [done|]. destruct Hx as [Hx|Hx]; [by left|].
      inv Hx; [left; by apply elem_of_list_to_set in Hin|by right].
    + apply IH.
      * rewrite list_to_set_app_L. simpl.
        rewrite (right_id_L ∅ (∪)). apply (comm_L (∪)).
      * destruct Hx as [Hx|Hx]; [left; apply elem_of_app; by left|].
        inv Hx; [left; apply elem_of_app; right; by left|by right].
Qed.

Lemma dedupe_from_sublist seen acc lines :
  exists kept, dedupe_from seen acc lines = acc ++ kept /\ kept `sublist_of` lines.
Proof.
  revert seen acc. induction lines as [|l lines IH]; intros seen acc; simpl.
  - exists []. by rewrite app_nil_r.
  - destruct (decide (l ∈ seen)).
    + destruct (IH seen acc) as (kept & -> & Hs). exists kept.
      split; [done|]. by apply sublist_cons.
    + destruct (IH ({[l]} ∪ seen) (acc ++ [l])) as (kept & -> & Hs).
      exists (l :: kept). rewrite <-app_assoc. split; [done|]. by apply sublist_skip.
Qed.

Lemma add_all_consistent urls : forall ls,
  consistent ls ->
  let ls' := foldl (fun ls x => add x ls) ls urls in
  consistent ls' /\
  allLinks ls `prefix_of` allLinks ls' /\
  uniqueLinks ls' = uniqueLinks ls ∪ list_to_set urls /\
  newLinksThisRun ls' - newLinksThisRun ls =
    Z.of_nat (length (allLinks ls')) - Z.of_nat (length (allLinks ls)).
Proof.
  induction urls as [|u urls IH]; intros ls Hc; simpl.
  - split; [done|]. split; [done|]. split; [|lia].
    by rewrite (right_id_L ∅ (∪)).
  - destruct (IH (add u ls) (add_consistent u ls Hc)) as (Hc' & Hp & Hu & Hn).
    split; [done|]. split; [|split].
    + etrans; [|exact Hp]. unfold add.
      destruct (decide (u ∈ uniqueLinks ls)); [done|]. simpl.
      by apply prefix_app_r.
    + rewrite Hu. unfold add.
      destruct (decide (u ∈ uniqueLinks ls)) as [Hin|Hnin]; simpl.
      * rewrite (assoc_L (∪)). f_equal. apply (anti_symm (⊆)).
        -- apply union_subseteq_l.
        -- apply union_least; [done|]. by apply singleton_subseteq_l.
      * rewrite (assoc_L (∪)). f_equal. apply (comm_L (∪)).
    + assert (newLinksThisRun (add u ls) - newLinksThisRun ls =
              Z.of_nat (length (allLinks (add u ls)))
              - Z.of_nat (length (allLinks ls))) as Hone.
      { unfold add. destruct (decide (u ∈ uniqueLinks ls)); simpl; [lia|].
        rewrite length_app. simpl. lia. }
      lia.
Qed.

Lemma filter_twice {A} (f g : A -> bool) l :
  List.filter f (List.filter g l) = List.filter (fun x => g x && f x) l.
Proof.
  induction l as [|x l IH]; [done|]. simpl.
  destruct (g x); simpl; [|done]. destruct (f x); by rewrite IH.
Qed.

(** The loop with its [Set] keeps the first occurrences that are not in
    [seen] yet. *)
Lemma dedupe_from_first_occurrences lines : forall seen acc,
  dedupe_from seen acc lines =
  acc ++ List.filter (fun x => negb (bool_decide (x ∈ seen)))
           (Invariant.first_occurrences lines).
Proof.
  induction lines as [|line rest IH]; intros seen acc.
  - simpl. by rewrite app_nil_r.
  - cbn [dedupe_from Invariant.first_occurrences List.filter].
    destruct (decide (line ∈ seen)) as [Hin|Hnin].
    + rewrite IH, (bool_decide_eq_true_2 _ Hin). cbn [negb]. f_equal.
      rewrite filter_twice. apply List.filter_ext_in. intros x _.
      destruct (String.eqb line x) eqn:E; [|done].
      apply String.eqb_eq in E as <-. by rewrite (bool_decide_eq_true_2 _ Hin).
    + rewrite IH, (bool_decide_eq_false_2 _ Hnin). cbn [negb].
      rewrite <-app_assoc. cbn [app]. do 2 f_equal.
      rewrite filter_twice. apply List.filter_ext_in. intros x _.
      destruct (String.eqb line x) eqn:E.
      * apply String.eqb_eq in E as <-. cbn [negb andb].
        apply negb_false_iff, bool_decide_eq_true. by apply elem_of_union_l, elem_of_singleton.
      * apply String.eqb_neq in E. cbn [negb andb]. f_equal.
        apply bool_decide_ext. rewrite elem_of_union, elem_of_singleton.
        split; [intros [?|?]; [congruence|done]|by right].
Qed.

Lemma consistent_size ls :
  consistent ls -> size (uniqueLinks ls) = length (allLinks ls).
Proof.
  intros [Hnd ->]. by rewrite size_list_to_set.
Qed.

End LoadFacts.

(** X5. [readExistingLinks] normalises any link file: no file gives no link;
    otherwise the result is the list of the non-empty trimmed lines of the
    file, each once and in the order of their first occurrence (every line
    is kept where it first stands and struck out further down), and every
    one of them is a line that can be written back as it is. *)
Theorem readExistingLinks_normalises (file : option string) :
  let links := LinkStore.readExistingLinks file in
  NoDup links /\
  Forall (fun x => LinkStore.url_line x = true) links /\
  (file = None -> links = []) /\
  (forall contents, file = Some contents ->
     let lines := List.filter JS.truthy (map JS.trim (JS.split_lines contents)) in
     links = Invariant.first_occurrences lines /\
     links `sublist_of` lines /\
     forall x, x ∈ links <->
       x <> EmptyString /\
       exists line, line ∈ JS.split_lines contents /\ JS.trim line = x).
Proof.
  intros links. split; [apply readExistingLinks_NoDup|].
  split; [apply readExistingLinks_lines|]. split; [by intros ->|].
  intros contents -> lines. subst links. simpl. fold lines. split; [|split].
  - rewrite dedupe_from_first_occurrences. cbn [app].
    rewrite <-(List.filter_ext_in (fun _ => true)); [|done].
    clear. induction (Invariant.first_occurrences lines) as [|x l IH]; [done|].
    simpl. by rewrite IH.
  - destruct (dedupe_from_sublist ∅ [] lines) as (kept & -> & Hs). done.
  - intros x. split.
    + intros Hx. apply dedupe_from_elem in Hx as [Hx|Hx]; [by inv Hx|].
      apply list_elem_of_In, filter_In in Hx as [Hx Ht].
      apply in_map_iff in Hx as (line & <- & Hl). split.
      * intros E. by rewrite E in Ht.
      * exists line. split; [by apply list_elem_of_In|done].
    + intros (Hne & line & Hl & <-).
      apply dedupe_from_keeps; [done|]. right.
      apply list_elem_of_In, filter_In. split.
      * apply in_map. by apply list_elem_of_In.
      * by destruct (JS.trim line).
Qed.

(** X6. Loading is stable: writing the loaded links with [writeLinks] and
    loading that text gives the same links, whatever the first file held
    (blank lines, padded lines and repeated lines are gone after one
    pass). *)
Theorem readExistingLinks_stable (file : option string) :
  LinkStore.readExistingLinks
    (Some (LinkStore.writeLinks (LinkStore.readExistingLinks file)))
  = LinkStore.readExistingLinks file.
Proof.
  apply read_written; [apply readExistingLinks_lines|apply readExistingLinks_NoDup].
Qed.

(** X7. Admission keeps the books: from a store that holds each link once,
    admitting any URLs keeps it so, only appends to the list of links, makes
    the set the old set plus the admitted URLs, and raises [newLinksThisRun]
    by exactly the number of links appended, which is also the growth of the
    set. *)
Theorem admission_accounting (ls : LinkStore.Links) (urls : list string) :
  LinkStore.consistent ls ->
  let ls' := foldl (fun ls x => LinkStore.add x ls) ls urls in
  LinkStore.consistent ls' /\
  LinkStore.allLinks ls `prefix_of` LinkStore.allLinks ls' /\
  LinkStore.uniqueLinks ls' = LinkStore.uniqueLinks ls ∪ list_to_set urls /\
  LinkStore.newLinksThisRun ls' - LinkStore.newLinksThisRun ls =
    Z.of_nat (length (LinkStore.allLinks ls'))
    - Z.of_nat (length (LinkStore.allLinks ls)) /\
  Z.of_nat (size (LinkStore.uniqueLinks ls')) =
    Z.of_nat (size (LinkStore.uniqueLinks ls))
    + (LinkStore.newLinksThisRun ls' - LinkStore.newLinksThisRun ls).
Proof.
  intros Hc ls'.
  destruct (add_all_consistent urls ls Hc) as (Hc' & Hp & Hu & Hn).
  fold ls' in Hc', Hp, Hu, Hn.
  split; [done|]. split; [done|]. split; [done|]. split; [done|].
  rewrite (consistent_size ls' Hc'), (consistent_size ls Hc). lia.
Qed.

(** ** The pages of a batch *)

Section BatchPagesFacts.
Import Scheduler.
Variable cfg : Config.

Lemma batchPages_seq (start : Z) (k : nat) :
  List.filter (fun pageNumber => pageNumber <=? max_page cfg)
    (map (fun i : Z => start + i) (seqZ 0 (Z.of_nat k)))
  = seqZ start (Z.min (Z.of_nat k) (max_page cfg - start + 1)).
Proof.
  induction k as [|k IH]; [by rewrite !seqZ_nil by lia|].
  rewrite seqZ_S, map_app, List.filter_app, IH. simpl.
  destruct (start + (0 + Z.of_nat k) <=? max_page cfg) eqn:E.
  - apply Z.leb_le in E.
    replace (Z.min (Z.of_nat k) (max_page cfg - start + 1)) with (Z.of_nat k) by lia.
    replace (Z.min (Z.of_nat (S k)) (max_page cfg - start + 1))
      with (Z.of_nat (S k)) by lia.
    rewrite seqZ_S. by rewrite Z.add_0_l.
  - apply Z.leb_gt in E. rewrite app_nil_r. f_equal. lia.
Qed.

End BatchPagesFacts.

(** X8. A batch is the run of consecutive page numbers from the cursor on,
    [CONCURRENCY] of them, cut off behind [MAX_PAGE]: no page of it lies
    above the ceiling, and a cursor within [CONCURRENCY - 1] of the ceiling
    gets a shorter batch. *)
Theorem batchPages_contiguous (cfg : Scheduler.Config) (start : Z) :
  Scheduler.batchPages cfg start =
    seqZ start (Z.min (Scheduler.concurrency cfg)
                  (Scheduler.max_page cfg - start + 1)) /\
  (forall p, p ∈ Scheduler.batchPages cfg start <->
     start <= p < start + Scheduler.concurrency cfg /\ p <= Scheduler.max_page cfg) /\
  (start + Scheduler.concurrency cfg - 1 <= Scheduler.max_page cfg ->
   length (Scheduler.batchPages cfg start) = Z.to_nat (Scheduler.concurrency cfg)).
Proof.
  assert (Scheduler.batchPages cfg start =
          seqZ start (Z.min (Scheduler.concurrency cfg)
                        (Scheduler.max_page cfg - start + 1))) as Heq.
  { unfold Scheduler.batchPages.
    destruct (decide (0 <= Scheduler.concurrency cfg)) as [Hw|Hw].
    - rewrite <-(Z2Nat.id (Scheduler.concurrency cfg)) at 1 by done.
      rewrite batchPages_seq. f_equal. lia.
    - by rewrite !seqZ_nil by lia. }
  split; [done|]. rewrite Heq. split.
  - intros p. rewrite elem_of_seqZ. lia.
  - intros Hfit. rewrite length_seqZ. lia.
Qed.


(** ** Links of a page *)

Section HrefFacts.
Import Scheduler.

Lemma until_quote_no_quote s : Html.no_quote (until_quote s).1 = true.
Proof.
  induction s as [|c s IH]; simpl; [done|].
  destruct (Ascii.eqb c "034") eqn:E; [done|].
  destruct (until_quote s) as [run closed]. simpl in *. by rewrite E, IH.
Qed.

Lemma until_quote_value h rest :
  Html.no_quote h = true -> until_quote (h +:+ String "034" rest) = (h, true).
Proof.
  induction h as [|c h IH]; [done|].
  simpl Html.no_quote. intros [Hc Hh]%andb_prop. apply negb_true_iff in Hc.
  rewrite append_cons. simpl. by rewrite Hc, (IH Hh).
Qed.

Lemma match_here_sound s run :
  match_here s = Some run -> Html.no_quote run = true /\ pdf_name run = true.
Proof.
  unfold match_here. destruct (prefix_ci _ s); [|done].
  pose proof (until_quote_no_quote (substring 6 (String.length s - 6) s)) as Hq.
  destruct (until_quote _) as [r closed]. simpl in Hq.
  destruct closed; simpl; [|done].
  destruct (pdf_name r) eqn:E; [|done]. by intros [= <-].
Qed.

Lemma matches_from_sound s : forall skip,
  Forall (fun h => Html.no_quote h = true /\ pdf_name h = true) (matches_from skip s).
Proof.
  induction s as [|c s IH]; intros skip; [constructor|].
  destruct skip as [|skip]; [|apply IH].
  change (matches_from 0 (String c s)) with
    (match match_here (String c s) with
     | Some run => run :: matches_from (6 + String.length run) s
     | None => matches_from 0 s
     end).
  destruct (match_here (String c s)) as [run|] eqn:E; [|apply IH].
  constructor; [by apply match_here_sound in E|apply IH].
Qed.

Lemma substring_all s : substring 0 (String.length s) s = s.
Proof. induction s as [|c s IH]; [done|]. simpl. by rewrite IH. Qed.

Lemma matches_from_skip a b :
  matches_from (String.length a) (a +:+ b) = matches_from 0 b.
Proof. induction a as [|c a IH]; [done|]. rewrite append_cons. simpl. apply IH. Qed.

Lemma href_attribute_text h rest :
  Html.href_attribute h +:+ rest =
  String "h" (String "r" (String "e" (String "f" (String "="
    (String "034" (h +:+ String "034" rest)))))).
Proof.
  unfold Html.href_attribute.
  repeat first [rewrite append_cons | rewrite append_nil_l | rewrite append_assoc].
  reflexivity.
Qed.

Lemma match_here_attribute h rest :
  Html.no_quote h = true -> pdf_name h = true ->
  match_here (Html.href_attribute h +:+ rest) = Some h.
Proof.
  intros Hq Hp. rewrite href_attribute_text. unfold match_here.
  cbn [prefix_ci String.length Nat.sub substring].
  assert (forall t, substring 0 (String.length t - 0) t = t) as Hsub.
  { intros t. rewrite Nat.sub_0_r. apply substring_all. }
  change (prefix_ci ("href=" +:+ String "034" EmptyString)
            (String "h" (String "r" (String "e" (String "f" (String "="
               (String "034" (h +:+ String "034" rest)))))))) with true.
  cbv iota. rewrite Hsub, until_quote_value by done. simpl. by rewrite Hp.
Qed.

End HrefFacts.

(** X9. What [matchPdfHrefs] extracts: every href it returns holds no double
    quote, is longer than four characters and ends in [.pdf] in some case of
    letters; and a page that begins with an [href] attribute of such a value
    yields that value first, then whatever the search finds behind the
    closing quote. *)
Theorem matchPdfHrefs_extracts (html : string) :
  Forall (fun h => Html.no_quote h = true /\ Scheduler.pdf_name h = true)
    (Scheduler.matchPdfHrefs html) /\
  (forall h rest,
     Html.no_quote h = true -> Scheduler.pdf_name h = true ->
     Scheduler.matchPdfHrefs (Html.href_attribute h +:+ rest)
       = h :: Scheduler.matchPdfHrefs rest).
Proof.
  split; [apply matches_from_sound|].
  intros h rest Hq Hp. unfold Scheduler.matchPdfHrefs.
  pose proof (match_here_attribute h rest Hq Hp) as Hm.
  rewrite href_attribute_text in *.
  change (Scheduler.matches_from 0 (String "h" ?s)) with
    (match Scheduler.match_here (String "h" s) with
     | Some run => run :: Scheduler.matches_from (6 + String.length run) s
     | None => Scheduler.matches_from 0 s
     end).
  rewrite Hm. f_equal.
  pose proof (matches_from_skip
                (String "r" (String "e" (String "f" (String "="
                   (String "034" (h +:+ String "034" EmptyString))))))
                rest) as Hs.
  rewrite !append_cons, append_assoc, append_cons, append_nil_l in Hs.
  rewrite <-Hs. f_equal. simpl. rewrite append_length. simpl. lia.
Qed.

(** ** The run of empty pages *)

Section EmptyRunFacts.
Import Scheduler.
Variable cfg : Config.
Variable newURL : string -> option string.

Lemma processResult_empty r st :
  blocked r = false -> hrefs r = [] ->
  processResult cfg newURL r st =
  let st1 := set_emptyPagesInARow (emptyPagesInARow st + 1)
               (set_lastProcessedPage (pageNumber r) st) in
  if empty_pages_before_stop cfg <=? emptyPagesInARow st + 1
  then Some (set_shouldStop true (emit (Log (NoLinksStop (pageNumber r))) st1), true)
  else Some (st1, false).
Proof. intros Hb Hh. unfold processResult. by rewrite Hb, Hh. Qed.

Lemma empty_run_below rs : forall st,
  Forall (fun r => blocked r = false /\ hrefs r = []) rs ->
  emptyPagesInARow st + Z.of_nat (length rs) < empty_pages_before_stop cfg ->
  exists st',
    processResults cfg newURL rs st = Some st' /\
    emptyPagesInARow st' = emptyPagesInARow st + Z.of_nat (length rs) /\
    shouldStop st' = shouldStop st /\
    lastProcessedPage st' =
      default (lastProcessedPage st) (pageNumber <$> last rs) /\
    links st' = links st /\ trace st' = trace st.
Proof.
  induction rs as [|r rs IH]; intros st Hall Hlt.
  - exists st. simpl. repeat split; try done. lia.
  - apply Forall_cons in Hall as [[Hb Hh] Hall]. simpl in Hlt.
    simpl processResults. rewrite processResult_empty by done. cbv zeta.
    replace (empty_pages_before_stop cfg <=? emptyPagesInARow st + 1) with false
      by (symmetry; apply Z.leb_gt; lia).
    destruct (IH (set_emptyPagesInARow (emptyPagesInARow st + 1)
                    (set_lastProcessedPage (pageNumber r) st)) Hall)
      as (st' & Hrun & Hc & Hs & Hl & Hk & Ht); [simpl; lia|].
    exists st'. split; [done|]. simpl in *.
    split; [lia|]. split; [done|]. split; [|done].
    rewrite Hl. destruct rs as [|r' rs]; [done|]. rewrite last_cons_cons.
    destruct (last (r' :: rs)) eqn:El; [done|]. by apply last_None in El.
Qed.

Lemma empty_run_reaches rs : forall st,
  Forall (fun r => blocked r = false /\ hrefs r = []) rs ->
  empty_pages_before_stop cfg <= emptyPagesInARow st + Z.of_nat (length rs) ->
  rs <> [] ->
  let k := Z.to_nat (empty_pages_before_stop cfg - emptyPagesInARow st - 1) in
  exists st' r,
    rs !! k = Some r /\
    processResults cfg newURL rs st = Some st' /\
    shouldStop st' = true /\
    emptyPagesInARow st' = emptyPagesInARow st + Z.of_nat k + 1 /\
    lastProcessedPage st' = pageNumber r /\
    trace st' = Log (NoLinksStop (pageNumber r)) :: trace st /\
    links st' = links st.
Proof.
  induction rs as [|r rs IH]; intros st Hall Hge Hne k; [done|].
  apply Forall_cons in Hall as [[Hb Hh] Hall]. simpl in Hge.
  simpl processResults. rewrite processResult_empty by done. cbv zeta.
  destruct (empty_pages_before_stop cfg <=? emptyPagesInARow st + 1) eqn:E.
  - apply Z.leb_le in E. assert (k = 0%nat) as -> by lia.
    eexists _, r. split; [done|]. split; [done|]. simpl. repeat split; try done. lia.
  - apply Z.leb_gt in E.
    destruct (IH (set_emptyPagesInARow (emptyPagesInARow st + 1)
                    (set_lastProcessedPage (pageNumber r) st)) Hall)
      as (st' & r' & Hk & Hrun & Hs & Hc & Hl & Ht & Hlk).
    + simpl. lia.
    + intros ->. simpl in Hge. lia.
    + simpl in *.
      replace k with (S (Z.to_nat (empty_pages_before_stop cfg
                                   - (emptyPagesInARow st + 1) - 1))) by lia.
      exists st', r'. split; [done|]. split; [done|].
      repeat split; try done. lia.
Qed.

End EmptyRunFacts.

(** X10. A run of fetched pages without links, or of pages that ended in
    [error]: as long as the counter stays below [EMPTY_PAGES_BEFORE_STOP]
    every page adds one to it and the loop goes through the whole batch;
    the page on which the counter reaches the threshold sets [shouldStop],
    is the last processed page, is named in the closing message, and the
    pages of the batch behind it are not looked at. *)
Theorem empty_run_stops (cfg : Scheduler.Config) (newURL : string -> option string)
    (rs : list Scheduler.BatchResult) (st : Scheduler.Session) :
  Forall (fun r => Scheduler.blocked r = false /\ Scheduler.hrefs r = []) rs ->
  let c := Scheduler.emptyPagesInARow st in
  let T := Scheduler.empty_pages_before_stop cfg in
  (c + Z.of_nat (length rs) < T ->
   exists st',
     Scheduler.processResults cfg newURL rs st = Some st' /\
     Scheduler.emptyPagesInARow st' = c + Z.of_nat (length rs) /\
     Scheduler.shouldStop st' = Scheduler.shouldStop st /\
     Scheduler.lastProcessedPage st' =
       default (Scheduler.lastProcessedPage st) (Scheduler.pageNumber <$> last rs)) /\
  (T <= c + Z.of_nat (length rs) -> rs <> [] ->
   let k := Z.to_nat (T - c - 1) in
   exists st' r,
     rs !! k = Some r /\
     Scheduler.processResults cfg newURL rs st = Some st' /\
     Scheduler.shouldStop st' = true /\
     Scheduler.emptyPagesInARow st' = c + Z.of_nat k + 1 /\
     Scheduler.lastProcessedPage st' = Scheduler.pageNumber r /\
     Scheduler.trace st' =
       Scheduler.Log (Scheduler.NoLinksStop (Scheduler.pageNumber r))
         :: Scheduler.trace st).
Proof.
  intros Hall c T. split.
  - intros Hlt.
    destruct (empty_run_below cfg newURL rs st Hall Hlt)
      as (st' & ? & ? & ? & ? & _). eauto 6.
  - intros Hge Hne k.
    destruct (empty_run_reaches cfg newURL rs st Hall Hge Hne)
      as (st' & r & ? & ? & ? & ? & ? & ? & _). exists st', r. done.
Qed.


(** ** The link store across a session *)

Section StoreFacts.
Import Scheduler Invariant.
Variable cfg : Config.
Variable newURL : string -> option string.
Hypothesis Hclean : clean_resolver newURL.

Lemma grows_refl ls : grows ls ls.
Proof. by split. Qed.

Lemma grows_trans ls1 ls2 ls3 : grows ls1 ls2 -> grows ls2 ls3 -> grows ls1 ls3.
Proof. intros [H1 P1] [H2 P2]. split; [auto|by etrans]. Qed.

Lemma add_grows u ls : LinkStore.url_line u = true -> grows ls (LinkStore.add u ls).
Proof.
  intros Hu. split.
  - intros [Hc Hl]. split; [by apply add_consistent|by apply add_lines].
  - unfold LinkStore.add. destruct (decide _); [done|]. simpl. by apply prefix_app_r.
Qed.

Lemma addHrefs_grows hs : forall ls ls',
  addHrefs newURL hs ls = Some ls' -> grows ls ls'.
Proof.
  induction hs as [|h hs IH]; intros ls ls'; simpl.
  - intros [= <-]. apply grows_refl.
  - destruct (newURL h) as [u|] eqn:E; [|done]. intros H.
    eapply grows_trans; [apply add_grows; by eapply Hclean|by apply IH].
Qed.

Lemma processResult_grows r st st' stop :
  processResult cfg newURL r st = Some (st', stop) -> grows (links st) (links st').
Proof.
  unfold processResult.
  destruct (blocked r); [intros [= <- <-]; apply grows_refl|].
  destruct (length (hrefs r) =? 0)%nat; cbv zeta.
  - destruct (_ <=? _); intros [= <- <-]; apply grows_refl.
  - destruct (addHrefs _ _ _) as [ls|] eqn:E; [|done]. intros [= <- <-].
    by apply addHrefs_grows in E.
Qed.

Lemma processResults_grows rs : forall st st',
  processResults cfg newURL rs st = Some st' -> grows (links st) (links st').
Proof.
  induction rs as [|r rs IH]; intros st st'; simpl.
  - intros [= <-]. apply grows_refl.
  - destruct (processResult cfg newURL r st) as [[st1 []]|] eqn:E; [| |done].
    + intros [= <-]. by apply processResult_grows in E.
    + intros H. eapply grows_trans; [by eapply processResult_grows|by apply IH].
Qed.

Lemma processBatch_grows now rs st st' flow :
  processBatch cfg newURL now rs st = Some (st', flow) ->
  grows (links st) (links st').
Proof.
  unfold processBatch. destruct (_ =? _)%nat.
  - cbv zeta. destruct (_ <=? _); intros [= <- <-]; apply grows_refl.
  - destruct (processResults _ _ _ _) as [st1|] eqn:E; [|done].
    apply processResults_grows in E.
    assert (links (if (count_blocked rs =? 0)%nat then set_blockedCount 0 st else st)
            = links st) as Hl by (by destruct (_ =? _)%nat).
    rewrite Hl in E. cbv zeta. intros [= <- <-].
    destruct (_ && _); destruct (Z.rem _ _ =? 0); exact E.
Qed.

Lemma loop_grows net clock fuel : forall round st st',
  loop cfg newURL net clock fuel round st = Finished st' ->
  grows (links st) (links st').
Proof.
  induction fuel as [|fuel IH]; intros round st st'; simpl.
  - destruct (_ && _); [done|]. intros [= <-]. apply grows_refl.
  - destruct (_ && _); [|intros [= <-]; apply grows_refl].
    destruct (iteration cfg newURL (net round) (clock round) st)
      as [[st1 []]|] eqn:E; [| |done].
    + intros H. apply IH in H. unfold iteration, aggregate in E.
      apply processBatch_grows in E. eapply grows_trans; [exact E|exact H].
    + intros [= <-]. unfold iteration, aggregate in E.
      by apply processBatch_grows in E.
Qed.

Lemma initial_store_ok startPage files : store_ok (links (initial cfg startPage files)).
Proof. split; [apply load_consistent|apply readExistingLinks_lines]. Qed.

(** What a checkpoint leaves in the link file loads as the store in
    memory. *)
Lemma checkpoint_reloads now lastPage st :
  store_ok (links st) ->
  LinkStore.load (files (saveCheckpoint cfg now lastPage st) !! outputPath cfg)
  = reloaded (links st).
Proof.
  intros [[Hnd Hset] Hl]. unfold saveCheckpoint, Progress.writeFile. simpl.
  rewrite lookup_insert_eq. unfold LinkStore.load.
  rewrite read_written by done. unfold reloaded. by rewrite Hset.
Qed.

Lemma checkpoint_progress now lastPage st :
  outputPath cfg <> progressPath cfg ->
  Progress.readProgress (files (saveCheckpoint cfg now lastPage st)) (progressPath cfg)
  = Some {| Progress.lastProcessedPage := lastPage;
            Progress.totalLinksFound :=
              Z.of_nat (size (LinkStore.uniqueLinks (links st)));
            Progress.timestamp := now |}.
Proof.
  intros Hne. unfold saveCheckpoint, Progress.writeFile. simpl.
  unfold Progress.readProgress. rewrite lookup_insert_ne by done.
  unfold Progress.writeProgress, Progress.writeFile.
  rewrite lookup_insert_eq, parse_stringify. done.
Qed.

End StoreFacts.


(** X12. A session that runs to its end loses no link, whatever link file
    it found and whatever page it started from, provided the resolver
    yields lines of the link file and the two paths differ: the links
    loaded at the start are still the head of its list, its set and its
    list agree, the link file left by the final save loads as exactly its
    store, and the progress file left by it reads as the last processed
    page with the number of links and the time of that save. *)
Theorem finished_session_persists (cfg : Scheduler.Config)
    (newURL : string -> option string)
    (net : nat -> Z -> nat -> Fetcher.Attempt) (clock : nat -> string)
    (final : string) (fuel : nat) (startPage : Z) (files : Files)
    (st1 : Scheduler.Session) :
  Invariant.clean_resolver newURL ->
  Scheduler.outputPath cfg <> Scheduler.progressPath cfg ->
  Scheduler.loop cfg newURL net clock fuel 0 (Scheduler.initial cfg startPage files)
    = Scheduler.Finished st1 ->
  let st' := Scheduler.saveCheckpoint cfg final (Scheduler.lastProcessedPage st1) st1 in
  Invariant.store_ok (Scheduler.links st') /\
  LinkStore.readExistingLinks (files !! Scheduler.outputPath cfg)
    `prefix_of` LinkStore.allLinks (Scheduler.links st') /\
  LinkStore.load (Scheduler.files st' !! Scheduler.outputPath cfg)
    = Invariant.reloaded (Scheduler.links st') /\
  Progress.readProgress (Scheduler.files st') (Scheduler.progressPath cfg) =
    Some {| Progress.lastProcessedPage := Scheduler.lastProcessedPage st';
            Progress.totalLinksFound :=
              Z.of_nat (length (LinkStore.allLinks (Scheduler.links st')));
            Progress.timestamp := final |}.
Proof.
  intros Hclean Hne Hloop st'.
  apply (loop_grows cfg newURL Hclean) in Hloop as [Hok Hpre].
  specialize (Hok (initial_store_ok cfg startPage files)).
  assert (Scheduler.links st' = Scheduler.links st1) as -> by done.
  assert (Scheduler.lastProcessedPage st' = Scheduler.lastProcessedPage st1)
    as -> by done.
  split; [exact Hok|]. split; [exact Hpre|]. subst st'. split.
  - by apply checkpoint_reloads.
  - rewrite checkpoint_progress by done.
    by rewrite (consistent_size _ (proj1 Hok)).
Qed.


(** ** The outer loop *)

Section LoopFacts.
Import Scheduler.
Variable cfg : Config.
Variable newURL : string -> option string.

Lemma dispatched_app new tr : dispatched (new ++ tr) = dispatched tr ++ dispatched new.
Proof. unfold dispatched. by rewrite omap_app, rev_app_distr. Qed.

Lemma batchPages_bounds start p :
  p ∈ batchPages cfg start ->
  start <= p < start + concurrency cfg /\ p <= max_page cfg.
Proof.
  unfold batchPages. intros H. apply list_elem_of_In, filter_In in H as [H Hle].
  apply in_map_iff in H as (i & <- & Hi).
  apply list_elem_of_In, elem_of_seqZ in Hi. apply Z.leb_le in Hle. lia.
Qed.

Lemma processResult_step r st st' stop :
  processResult cfg newURL r st = Some (st', stop) ->
  (exists new, trace st' = new ++ trace st /\ dispatched new = []) /\
  (lastProcessedPage st' = lastProcessedPage st \/
   lastProcessedPage st' = pageNumber r).
Proof.
  unfold processResult.
  destruct (blocked r); [intros [= <- <-]; split; [by exists []|by left]|].
  destruct (length (hrefs r) =? 0)%nat; cbv zeta.
  - destruct (_ <=? _); intros [= <- <-]; simpl.
    + split; [by exists [Log (NoLinksStop (pageNumber r))]|by right].
    + split; [by exists []|by right].
  - destruct (addHrefs _ _ _); [|done]. intros [= <- <-]. simpl.
    split; [by exists []|by right].
Qed.

Lemma processResults_step rs : forall st st',
  processResults cfg newURL rs st = Some st' ->
  (exists new, trace st' = new ++ trace st /\ dispatched new = []) /\
  (lastProcessedPage st' = lastProcessedPage st \/
   exists r, r ∈ rs /\ lastProcessedPage st' = pageNumber r).
Proof.
  induction rs as [|r rs IH]; intros st st'; simpl.
  - intros [= <-]. split; [by exists []|by left].
  - destruct (processResult cfg newURL r st) as [[st1 []]|] eqn:E; [| |done].
    + intros [= <-]. apply processResult_step in E as [Ht [Hl|Hl]].
      * split; [done|by left].
      * split; [done|]. right. exists r. split; [by left|done].
    + intros H. apply IH in H as [(new2 & Ht2 & Hd2) Hl2].
      apply processResult_step in E as [(new1 & Ht1 & Hd1) Hl1]. split.
      * exists (new2 ++ new1). rewrite Ht2, Ht1, <-app_assoc. split; [done|].
        by rewrite dispatched_app, Hd1, Hd2.
      * destruct Hl2 as [Hl2|(r' & Hin & Hl2)].
        -- rewrite Hl2. destruct Hl1 as [Hl1|Hl1]; [by left|].
           right. exists r. split; [by left|done].
        -- right. exists r'. split; [by right|done].
Qed.

Lemma processBatch_None now rs st :
  processBatch cfg newURL now rs st = None -> exists href, newURL href = None.
Proof.
  unfold processBatch. destruct (_ =? _)%nat.
  - cbv zeta. by destruct (_ <=? _).
  - destruct (processResults _ _ _ _) as [st1|] eqn:E; [done|]. intros _.
    apply processResults_None in E as (r & href & _ & _ & H). by exists href.
Qed.

(** What an iteration does to the cursor, to the counter of blocked
    batches, to the last processed page and to the trace. *)
Lemma processBatch_step now rs st st' flow :
  processBatch cfg newURL now rs st = Some (st', flow) ->
  (exists new, trace st' = new ++ trace st /\ dispatched new = []) /\
  match flow with
  | Break =>
      start st' = start st /\ lastProcessedPage st' = lastProcessedPage st
  | Continue =>
      (start st' = start st - concurrency cfg /\
       blockedCount st' = blockedCount st + 1 /\
       blockedCount st + 1 < max_blocked_before_stop cfg /\
       lastProcessedPage st' = lastProcessedPage st) \/
      (start st' = start st /\
       (blockedCount st' = 0 \/ blockedCount st' = blockedCount st) /\
       rs <> [] /\
       (lastProcessedPage st' = lastProcessedPage st \/
        exists r, r ∈ rs /\ lastProcessedPage st' = pageNumber r))
  end.
Proof.
  unfold processBatch. destruct (_ =? _)%nat eqn:Hall.
  - cbv zeta. destruct (_ <=? _) eqn:E; intros [= <- <-]; simpl.
    + split; [|done].
      by exists [Log TooManyBlocked; Log (EntireBatchBlocked (blockedCount st + 1))].
    + apply Z.leb_gt in E. split; [|left; done].
      by exists [Sleep (blocked_backoff_ms cfg);
                 Log (EntireBatchBlocked (blockedCount st + 1))].
  - destruct (processResults _ _ _ _) as [st1|] eqn:E; [|done].
    pose proof (processResults_frame _ _ _ _ _ E) as (Hb & Hs & _ & _).
    apply processResults_step in E as [(new & Ht & Hd) Hl].
    assert (rs <> []) as Hne by (by intros ->).
    assert (start st1 = start st /\
            (blockedCount st1 = 0 \/ blockedCount st1 = blockedCount st) /\
            trace st1 = new ++ trace st /\
            (lastProcessedPage st1 = lastProcessedPage st \/
             exists r, r ∈ rs /\ lastProcessedPage st1 = pageNumber r))
      as (Hs1 & Hb1 & Ht1 & Hl1).
    { destruct (count_blocked rs =? 0)%nat; simpl in *; repeat split; auto. }
    cbv zeta. intros [= <- <-].
    destruct (_ && _); destruct (Z.rem _ _ =? 0); simpl; (split; [|right; done]).
    + exists (Sleep (batch_delay_ms cfg)
                :: Log (CheckpointAt (lastProcessedPage st1)
                          (length (LinkStore.allLinks (links st1)))) :: new).
      by rewrite Ht1.
    + exists (Sleep (batch_delay_ms cfg) :: new). by rewrite Ht1.
    + exists (Log (CheckpointAt (lastProcessedPage st1)
                     (length (LinkStore.allLinks (links st1)))) :: new).
      by rewrite Ht1.
    + by exists new.
Qed.

Lemma batches_left_pos start :
  1 <= concurrency cfg -> start <= max_page cfg ->
  1 <= Invariant.batches_left cfg start.
Proof.
  intros HW Hle. unfold Invariant.batches_left.
  replace (start <=? max_page cfg) with true by (symmetry; apply Z.leb_le; lia).
  pose proof (Z.div_pos (max_page cfg - start) (concurrency cfg)). lia.
Qed.

Lemma batches_left_next start :
  1 <= concurrency cfg -> start <= max_page cfg ->
  Invariant.batches_left cfg (start + concurrency cfg)
  <= Invariant.batches_left cfg start - 1.
Proof.
  intros HW Hle. unfold Invariant.batches_left.
  replace (start <=? max_page cfg) with true by (symmetry; apply Z.leb_le; lia).
  destruct (_ <=? _) eqn:E.
  - apply Z.leb_le in E.
    replace (max_page cfg - start)
      with (max_page cfg - (start + concurrency cfg) + 1 * concurrency cfg) by lia.
    rewrite Z.div_add by lia. lia.
  - pose proof (Z.div_pos (max_page cfg - start) (concurrency cfg)). lia.
Qed.

Lemma loop_enough net clock fuel : forall round st,
  1 <= concurrency cfg ->
  Invariant.iterations_left cfg st <= Z.of_nat fuel ->
  match loop cfg newURL net clock fuel round st with
  | OutOfFuel => False
  | Threw => exists href, newURL href = None
  | Finished _ => True
  end.
Proof.
  induction fuel as [|fuel IH]; intros round st HW Hfuel; cbn [loop];
    destruct (start st <=? max_page cfg) eqn:E1; [|done| |done];
    destruct (shouldStop st) eqn:E2; [done| |done|]; cbn [andb negb];
    apply Z.leb_le in E1;
    pose proof (batches_left_pos (start st) HW E1) as Hpos;
    unfold Invariant.iterations_left, Invariant.blocked_rounds in *.
  - nia.
  - destruct (iteration _ _ _ _ _) as [[st1 []]|] eqn:E; [|done|].
    + apply IH; [done|]. unfold iteration, aggregate in E.
      apply processBatch_step in E as (_ & [(Hs & Hb & Hlt & _)|(Hs & Hb & _)]);
        simpl in Hs, Hb |- *; rewrite Hs.
      * replace (start st - concurrency cfg + concurrency cfg) with (start st) by lia.
        simpl in Hlt. rewrite Hb. lia.
      * pose proof (batches_left_next (start st) HW E1) as Hnext.
        set (K := 0 `max` (max_blocked_before_stop cfg - 1)) in *.
        assert (Invariant.batches_left cfg (start st + concurrency cfg) * (K + 1)
                <= (Invariant.batches_left cfg (start st) - 1) * (K + 1)) as Hmul
          by (apply Z.mul_le_mono_nonneg_r; lia).
        destruct Hb as [Hb|Hb]; rewrite Hb; lia.
    + unfold iteration, aggregate in E. by apply processBatch_None in E.
Qed.

Lemma loop_dispatch net clock fuel : forall round st st',
  loop cfg newURL net clock fuel round st = Finished st' ->
  exists new, trace st' = new ++ trace st /\
              Invariant.cursor_steps cfg (start st) (dispatched new).
Proof.
  induction fuel as [|fuel IH]; intros round st st'; cbn [loop].
  - destruct (_ && _); [done|]. intros [= <-]. by exists [].
  - destruct (_ && _); [|intros [= <-]; by exists []].
    destruct (iteration _ _ _ _ _) as [[st1 []]|] eqn:E; [| |done];
      unfold iteration, aggregate in E;
      apply processBatch_step in E as ((new1 & Ht1 & Hd1) & Hflow);
      simpl in Ht1, Hflow.
    + intros H. apply IH in H as (new2 & Ht2 & Hc2). simpl in Ht2, Hc2.
      exists (new2 ++ new1 ++ [Dispatch (batchPages cfg (start st))]).
      split; [by rewrite Ht2, Ht1, <-!app_assoc|].
      rewrite !dispatched_app, Hd1. simpl. split; [done|].
      destruct Hflow as [(Hs & _)|(Hs & _)]; rewrite Hs in Hc2.
      * left. by replace (start st - concurrency cfg + concurrency cfg)
                with (start st) in Hc2 by lia.
      * by right.
    + intros [= <-]. exists (new1 ++ [Dispatch (batchPages cfg (start st))]).
      split; [by rewrite Ht1, <-app_assoc|].
      rewrite dispatched_app, Hd1. simpl. split; [done|by left].
Qed.

Lemma cursor_steps_bounds bs : forall s,
  0 <= concurrency cfg ->
  Invariant.cursor_steps cfg s bs ->
  forall pages p, pages ∈ bs -> p ∈ pages -> s <= p <= max_page cfg.
Proof.
  induction bs as [|b bs IH]; intros s HW Hc pages p Hin Hp.
  - by apply elem_of_nil in Hin.
  - destruct Hc as [-> Hrest]. apply elem_of_cons in Hin as [->|Hin].
    + apply batchPages_bounds in Hp. lia.
    + destruct Hrest as [Hrest|Hrest].
      * by apply (IH s HW Hrest pages).
      * pose proof (IH _ HW Hrest pages p Hin Hp). lia.
Qed.

Lemma loop_lastProcessedPage net clock fuel : forall round st st',
  lastProcessedPage st < start st ->
  loop cfg newURL net clock fuel round st = Finished st' ->
  lastProcessedPage st <= lastProcessedPage st' /\
  lastProcessedPage st' < start st' /\
  lastProcessedPage st' <= Z.max (lastProcessedPage st) (max_page cfg).
Proof.
  induction fuel as [|fuel IH]; intros round st st' Hlt; cbn [loop].
  - destruct (_ && _); [done|]. intros [= <-]. lia.
  - destruct (_ && _); [|intros [= <-]; lia].
    destruct (iteration _ _ _ _ _) as [[st1 []]|] eqn:E; [| |done];
      unfold iteration, aggregate in E;
      apply processBatch_step in E as (_ & Hflow); simpl in Hflow.
    + intros H.
      assert (lastProcessedPage st <= lastProcessedPage st1 /\
              lastProcessedPage st1 < start st1 + concurrency cfg /\
              lastProcessedPage st1 <= Z.max (lastProcessedPage st) (max_page cfg))
        as (H1 & H2 & H3).
      { destruct Hflow as [(Hs & _ & _ & Hl)|(Hs & _ & Hne & Hl)]; [lia|].
        assert (0 < concurrency cfg) as HW.
        { destruct (batchPages cfg (start st)) as [|p ps] eqn:Ep; [done|].
          assert (p ∈ batchPages cfg (start st)) as Hp by (rewrite Ep; by left).
          apply batchPages_bounds in Hp. lia. }
        destruct Hl as [Hl|(r & Hin & Hl)]; [lia|].
        rewrite sort_by_page_Permutation in Hin.
        apply list_elem_of_In, in_map_iff in Hin as (p & <- & Hp).
        apply list_elem_of_In, batchPages_bounds in Hp.
        unfold fetchPage in Hl. rewrite pageNumber_toBatchResult in Hl. lia. }
      apply IH in H; simpl in H |- *; [lia|lia].
    + intros [= <-]. lia.
Qed.

End LoopFacts.

(** X13. The outer loop comes to an end: at a batch width of at least one
    page, [iterations_left] bounds the iterations from any state (every
    batch up to [MAX_PAGE] once, and before each the rounds in which it can
    be blocked as a whole), so with that much fuel the loop is never cut
    short; it ends by itself, or by the exception of an href that does not
    resolve, and by itself when every href resolves. *)
Theorem loop_terminates (cfg : Scheduler.Config) (newURL : string -> option string)
    (net : nat -> Z -> nat -> Fetcher.Attempt) (clock : nat -> string)
    (fuel round : nat) (st : Scheduler.Session) :
  1 <= Scheduler.concurrency cfg ->
  Invariant.iterations_left cfg st <= Z.of_nat fuel ->
  Scheduler.loop cfg newURL net clock fuel round st <> Scheduler.OutOfFuel /\
  ((forall href, is_Some (newURL href)) ->
   exists st', Scheduler.loop cfg newURL net clock fuel round st
               = Scheduler.Finished st').
Proof.
  intros HW Hfuel.
  pose proof (loop_enough cfg newURL net clock fuel round st HW Hfuel) as H.
  destruct (Scheduler.loop cfg newURL net clock fuel round st) as [st'| |].
  - split; [done|]. intros _. by exists st'.
  - split; [done|]. intros Hall. destruct H as [href H].
    destruct (Hall href) as [u Hu]. congruence.
  - done.
Qed.

(** X14. The batches a session dispatches follow its cursor: the first is
    the batch at the cursor the loop is entered with, and each later one is
    the batch at the same cursor as the one before (a batch blocked as a
    whole, dispatched again) or at that cursor plus [CONCURRENCY]; so no
    page is passed over, and at a width that is not negative no page below
    the first cursor or above [MAX_PAGE] is ever requested.  The trace the
    loop is entered with is kept. *)
Theorem dispatch_follows_cursor (cfg : Scheduler.Config)
    (newURL : string -> option string)
    (net : nat -> Z -> nat -> Fetcher.Attempt) (clock : nat -> string)
    (fuel round : nat) (st st' : Scheduler.Session) :
  Scheduler.loop cfg newURL net clock fuel round st = Scheduler.Finished st' ->
  exists new,
    Scheduler.trace st' = new ++ Scheduler.trace st /\
    Invariant.cursor_steps cfg (Scheduler.start st) (Scheduler.dispatched new) /\
    (0 <= Scheduler.concurrency cfg ->
     forall pages p, pages ∈ Scheduler.dispatched new -> p ∈ pages ->
                     Scheduler.start st <= p <= Scheduler.max_page cfg).
Proof.
  intros H. apply loop_dispatch in H as (new & Ht & Hc).
  exists new. split; [done|]. split; [done|].
  intros HW pages p. by apply cursor_steps_bounds.
Qed.

(** X15. A batch that is not blocked as a whole, and whose hrefs all
    resolve, counts as a batch and lets the loop go on at the same cursor.
    When the count of batches reaches a multiple of [CHECKPOINT_INTERVAL]
    the two files are written after the batch has been aggregated: the
    link file holds the links with those of this batch, the progress file
    the last page processed in this batch; otherwise no file is touched.
    When moreover the resolver yields lines of the link file, the two paths
    differ and the store was in order before the batch, the link file so
    written loads as exactly the store, and the progress file reads back
    as written. *)
Theorem periodic_checkpoint (cfg : Scheduler.Config)
    (newURL : string -> option string) (now : string)
    (batchResults : list Scheduler.BatchResult)
    (st st' : Scheduler.Session) (flow : Scheduler.Flow) :
  Scheduler.count_blocked batchResults <> length batchResults ->
  Scheduler.processBatch cfg newURL now batchResults st = Some (st', flow) ->
  flow = Scheduler.Continue /\
  Scheduler.start st' = Scheduler.start st /\
  Scheduler.batchCount st' = Scheduler.batchCount st + 1 /\
  if Z.rem (Scheduler.batchCount st + 1) (Scheduler.checkpoint_interval cfg) =? 0
  then
    Scheduler.files st' =
      Progress.writeFile (Scheduler.outputPath cfg)
        (LinkStore.writeLinks (LinkStore.allLinks (Scheduler.links st')))
        (Progress.writeProgress (Scheduler.progressPath cfg)
           {| Progress.lastProcessedPage := Scheduler.lastProcessedPage st';
              Progress.totalLinksFound :=
                Z.of_nat (size (LinkStore.uniqueLinks (Scheduler.links st')));
              Progress.timestamp := now |}
           (Scheduler.files st)) /\
    (Invariant.clean_resolver newURL ->
     Scheduler.outputPath cfg <> Scheduler.progressPath cfg ->
     Invariant.store_ok (Scheduler.links st) ->
     Invariant.store_ok (Scheduler.links st') /\
     LinkStore.load (Scheduler.files st' !! Scheduler.outputPath cfg)
       = Invariant.reloaded (Scheduler.links st') /\
     Progress.readProgress (Scheduler.files st') (Scheduler.progressPath cfg) =
       Some {| Progress.lastProcessedPage := Scheduler.lastProcessedPage st';
               Progress.totalLinksFound :=
                 Z.of_nat (length (LinkStore.allLinks (Scheduler.links st')));
               Progress.timestamp := now |})
  else Scheduler.files st' = Scheduler.files st.
Proof.
  intros Hmixed. unfold Scheduler.processBatch.
  replace (Scheduler.count_blocked batchResults =? length batchResults)%nat
    with false by (symmetry; by apply Nat.eqb_neq).
  destruct (Scheduler.processResults _ _ _ _) as [st1|] eqn:E; [|done].
  pose proof (processResults_frame _ _ _ _ _ E) as (_ & Hs & Hb & Hf).
  assert (Invariant.clean_resolver newURL ->
          Invariant.store_ok (Scheduler.links st) ->
          Invariant.store_ok (Scheduler.links st1)) as Hgrow.
  { intros Hclean Hok.
    apply (processResults_grows cfg newURL Hclean) in E as [Hok1 _].
    apply Hok1. by destruct (Scheduler.count_blocked batchResults =? 0)%nat. }
  assert (Scheduler.start st1 = Scheduler.start st /\
          Scheduler.batchCount st1 = Scheduler.batchCount st /\
          Scheduler.files st1 = Scheduler.files st) as (Hs1 & Hb1 & Hf1).
  { destruct (Scheduler.count_blocked batchResults =? 0)%nat; simpl in *; auto. }
  clear Hs Hb Hf E. cbv zeta. intros [= <- <-]. split; [done|].
  change (Scheduler.batchCount (Scheduler.set_batchCount
            (Scheduler.batchCount st1 + 1) st1))
    with (Scheduler.batchCount st1 + 1).
  rewrite Hb1.
  destruct (Z.rem _ _ =? 0).
  - set (logged := Scheduler.emit _ _).
    set (saved := Scheduler.saveCheckpoint cfg now _ logged).
    assert (forall x : Scheduler.Session,
              (if (0 <? Scheduler.batch_delay_ms cfg) && negb (Scheduler.shouldStop saved)
               then Scheduler.emit (Scheduler.Sleep (Scheduler.batch_delay_ms cfg)) saved
               else saved) = x ->
              Scheduler.start x = Scheduler.start st1 /\
              Scheduler.batchCount x = Scheduler.batchCount st1 + 1 /\
              Scheduler.links x = Scheduler.links logged /\
              Scheduler.lastProcessedPage x = Scheduler.lastProcessedPage st1 /\
              Scheduler.files x = Scheduler.files saved) as Hx.
    { intros x <-. rewrite Hb1. by destruct (_ && _). }
    destruct (Hx _ eq_refl) as (-> & -> & -> & -> & ->).
    split; [done|]. split; [lia|]. split.
    + subst saved logged. unfold Scheduler.saveCheckpoint. simpl. by rewrite Hf1.
    + intros Hclean Hne Hok. specialize (Hgrow Hclean Hok).
      assert (Invariant.store_ok (Scheduler.links logged)) as Hok3 by exact Hgrow.
      split; [exact Hok3|]. split.
      * subst saved. by apply checkpoint_reloads.
      * subst saved. rewrite checkpoint_progress by done.
        by rewrite (consistent_size _ (proj1 Hok3)).
  - destruct (_ && _); simpl; rewrite ?Hs1, ?Hb1, ?Hf1; done.
Qed.

(** X16. Blocked pages of a batch leave nothing behind: the loop over the
    results ends in the state it reaches on the batch without them, so a
    page that ended blocked in a batch that was not blocked as a whole is
    neither counted as empty nor recorded as processed. *)
Theorem blocked_results_skipped (cfg : Scheduler.Config)
    (newURL : string -> option string)
    (batchResults : list Scheduler.BatchResult) (st : Scheduler.Session) :
  Scheduler.processResults cfg newURL batchResults st =
  Scheduler.processResults cfg newURL
    (List.filter (fun r => negb (Scheduler.blocked r)) batchResults) st.
Proof.
  revert st. induction batchResults as [|r rs IH]; intros st; [done|].
  cbn [List.filter]. destruct (Scheduler.blocked r) eqn:Hb; cbn [negb].
  - cbn [Scheduler.processResults]. by rewrite processResult_blocked.
  - cbn [Scheduler.processResults].
    destruct (Scheduler.processResult cfg newURL r st) as [[st1 []]|]; auto.
Qed.

(** X17. The last processed page only moves forward: from a state whose
    last processed page lies below its cursor (as in the state the loop is
    entered with), a session that ends leaves a last processed page that is
    not below the one it began with, lies below its final cursor, and is
    not above [MAX_PAGE] unless it never moved. *)
Theorem lastProcessedPage_monotone (cfg : Scheduler.Config)
    (newURL : string -> option string)
    (net : nat -> Z -> nat -> Fetcher.Attempt) (clock : nat -> string)
    (fuel round : nat) (st st' : Scheduler.Session) :
  Scheduler.lastProcessedPage st < Scheduler.start st ->
  Scheduler.loop cfg newURL net clock fuel round st = Scheduler.Finished st' ->
  Scheduler.lastProcessedPage st <= Scheduler.lastProcessedPage st' /\
  Scheduler.lastProcessedPage st' < Scheduler.start st' /\
  Scheduler.lastProcessedPage st' <=
    Z.max (Scheduler.lastProcessedPage st) (Scheduler.max_page cfg).
Proof. apply loop_lastProcessedPage. Qed.

(** * The further properties at concrete inputs *)

(** A session that is denied on page 0 three times and gives up. *)
Lemma denied_session_ends :
  let cfg := Scheduler.shipped 500 in
  let denied := Fetcher.Responds {| Fetcher.status := 403; Fetcher.text := "Access Denied" |} in
  let net (round : nat) (pageNumber : Z) (attempt : nat) := denied in
  let clock (round : nat) := EmptyString in
  exists st',
    Scheduler.loop cfg Some net clock 3 0 (Scheduler.initial cfg 0 ∅)
    = Scheduler.Finished st'.
Proof. intros cfg denied net clock. eexists. vm_compute. reflexivity. Qed.

(** A resolver that lets through the hrefs that are lines of the link file
    as they stand. *)
Lemma lines_only_clean :
  Invariant.clean_resolver
    (fun href => if LinkStore.url_line href then Some href else None).
Proof.
  intros href u. destruct (LinkStore.url_line href) eqn:E; [|done].
  by intros [= <-].
Qed.

(** The last two pages of the listing, from a link file that holds one
    link: the page before [MAX_PAGE] names that link and a new one, the
    page at [MAX_PAGE] names the new one again. *)
Lemma closing_session_ends :
  let cfg := Scheduler.shipped 500 in
  let newURL (href : string) := if LinkStore.url_line href then Some href else None in
  let x := "https://a.example/x.pdf" in
  let y := "https://a.example/y.pdf" in
  let both := Fetcher.Responds
    {| Fetcher.status := 200;
       Fetcher.text := Html.href_attribute x +:+ Html.href_attribute y |} in
  let one := Fetcher.Responds
    {| Fetcher.status := 200; Fetcher.text := Html.href_attribute y |} in
  let net (round : nat) (pageNumber : Z) (attempt : nat) :=
    if pageNumber =? MAX_PAGE then one else both in
  let clock (round : nat) := EmptyString in
  let files : Files := {[ Scheduler.outputPath cfg := x +:+ String "010" EmptyString ]} in
  let st := Scheduler.initial cfg (MAX_PAGE - 1) files in
  exists st',
    Scheduler.loop cfg newURL net clock 2 0 st = Scheduler.Finished st' /\
    Scheduler.lastProcessedPage st' = MAX_PAGE /\
    LinkStore.allLinks (Scheduler.links st') = [x; y] /\
    LinkStore.newLinksThisRun (Scheduler.links st') = 1 /\
    Scheduler.linksFoundThisRun st' = 3 /\
    Scheduler.pagesProcessed st' = 2.
Proof.
  intros cfg newURL x y both one net clock files st.
  eexists. split; [vm_compute; reflexivity|]. vm_compute. done.
Qed.

(** One transport failure, then a page: one pause of two seconds between
    the two requests. *)
Lemma fetchWithRetry_backoff_trace_witness :
  let request (k : nat) :=
    if (k <? 1)%nat then Fetcher.Throws
    else Fetcher.Responds {| Fetcher.status := 200; Fetcher.text := "<html></html>" |} in
  let out := Fetcher.fetchWithRetry request (Scheduler.formatPageUrl 7) MAX_RETRIES in
  0 <= MAX_RETRIES /\
  out.2 = Backoff.rounds request (Scheduler.formatPageUrl 7) 0
            (Fetcher.attempts out.2 - 1) ++ [Fetcher.Get (Scheduler.formatPageUrl 7)].
Proof.
  intros request out.
  assert (0 <= MAX_RETRIES) as Hpos by (vm_compute; discriminate).
  split; [exact Hpos|].
  exact (proj2 (proj2 (proj2 (fetchWithRetry_backoff_trace request
                                (Scheduler.formatPageUrl 7) MAX_RETRIES) Hpos))).
Defined.

(** A block page, then a transport failure, then a page: two attempts are
    retried and the third gives [ok] with its body. *)
Lemma fetchWithRetry_result_sound_witness :
  let request (k : nat) :=
    match k with
    | O => Fetcher.Responds {| Fetcher.status := 403; Fetcher.text := "Access Denied" |}
    | S O => Fetcher.Throws
    | _ => Fetcher.Responds {| Fetcher.status := 200; Fetcher.text := "<html></html>" |}
    end in
  let out := Fetcher.fetchWithRetry request (Scheduler.formatPageUrl 7) MAX_RETRIES in
  0 <= MAX_RETRIES /\
  Fetcher.attempts out.2 = 3%nat /\
  (forall j, (j < 2)%nat -> Fetcher.retried_attempt request j) /\
  exists r,
    request 2%nat = Fetcher.Responds r /\ out.1 = Fetcher.st_ok (Fetcher.text r) /\
    Fetcher.isBlockedResponse (Fetcher.text r) = false /\
    Fetcher.response_ok r = true.
Proof.
  intros request out.
  assert (0 <= MAX_RETRIES) as Hpos by (vm_compute; discriminate).
  assert (Fetcher.attempts out.2 = 3%nat) as Hn by (vm_compute; reflexivity).
  assert (out.1 = Fetcher.st_ok "<html></html>") as Hok by (vm_compute; reflexivity).
  split; [exact Hpos|]. split; [exact Hn|].
  pose proof (fetchWithRetry_result_sound request (Scheduler.formatPageUrl 7)
                MAX_RETRIES Hpos) as Hthm.
  cbv zeta in Hthm. fold out in Hthm. rewrite Hn, Hok in Hthm.
  destruct Hthm as (Hall & r & Hr & Hhtml & Hblk & Hrok).
  split; [exact Hall|].
  exists r. split; [exact Hr|]. split; [by rewrite Hok, Hhtml|].
  split; [exact Hblk|exact Hrok].
Defined.

(** A 404 at the first request. *)
Lemma fetchWithRetry_fatal_status_witness :
  let request (k : nat) :=
    Fetcher.Responds {| Fetcher.status := 404; Fetcher.text := "Not Found" |} in
  let out := Fetcher.fetchWithRetry request (Scheduler.formatPageUrl 7) MAX_RETRIES in
  Z.of_nat 0 <= MAX_RETRIES /\
  Backoff.fatal_attempt request 0 /\
  out.1 = Fetcher.st_error /\ Fetcher.attempts out.2 = 1%nat.
Proof.
  intros request out.
  assert (Z.of_nat 0 <= MAX_RETRIES) as Hk by (vm_compute; discriminate).
  assert (forall j, (j < 0)%nat -> Fetcher.retried_attempt request j) as Hall
    by (intros j Hj; lia).
  assert (Backoff.fatal_attempt request 0) as Hfatal.
  { exists {| Fetcher.status := 404; Fetcher.text := "Not Found" |}.
    repeat split; reflexivity. }
  split; [exact Hk|]. split; [exact Hfatal|].
  pose proof (fetchWithRetry_fatal_status request (Scheduler.formatPageUrl 7)
                MAX_RETRIES 0 Hk Hall Hfatal) as (H1 & H2 & _).
  split; [exact H1|exact H2].
Defined.

(** A file with padded, blank and repeated lines. *)
Lemma readExistingLinks_normalises_witness :
  let nl := String "010" EmptyString in
  let contents := " b" +:+ nl +:+ "a " +:+ nl +:+ nl +:+ "b" +:+ nl +:+ "a" +:+ nl in
  let lines := List.filter JS.truthy (map JS.trim (JS.split_lines contents)) in
  Some contents = Some contents /\
  lines = ["b"; "a"; "b"; "a"] /\
  LinkStore.readExistingLinks (Some contents) = Invariant.first_occurrences lines /\
  Invariant.first_occurrences lines = ["b"; "a"].
Proof.
  intros nl contents lines.
  split; [reflexivity|]. split; [reflexivity|]. split; [|reflexivity].
  exact (proj1 (proj2 (proj2 (proj2 (readExistingLinks_normalises (Some contents))))
                 contents eq_refl)).
Defined.

(** The empty store, one URL offered twice. *)
Lemma admission_accounting_witness :
  let ls := LinkStore.load None in
  let urls := ["https://a.example/x.pdf"; "https://a.example/x.pdf"] in
  let ls' := foldl (fun ls x => LinkStore.add x ls) ls urls in
  LinkStore.consistent ls /\
  LinkStore.consistent ls' /\
  LinkStore.allLinks ls `prefix_of` LinkStore.allLinks ls'.
Proof.
  intros ls urls ls'.
  assert (LinkStore.consistent ls) as Hc by (split; [constructor|reflexivity]).
  split; [exact Hc|].
  pose proof (admission_accounting ls urls Hc) as (H1 & H2 & _).
  split; [exact H1|exact H2].
Defined.

(** The batch at page 7 in the session as shipped. *)
Lemma batchPages_contiguous_witness :
  let cfg := Scheduler.shipped 500 in
  7 + Scheduler.concurrency cfg - 1 <= Scheduler.max_page cfg /\
  length (Scheduler.batchPages cfg 7) = Z.to_nat (Scheduler.concurrency cfg).
Proof.
  intros cfg.
  assert (7 + Scheduler.concurrency cfg - 1 <= Scheduler.max_page cfg) as Hfit
    by (vm_compute; discriminate).
  split; [exact Hfit|].
  exact (proj2 (proj2 (batchPages_contiguous cfg 7)) Hfit).
Defined.

(** One anchor. *)
Lemma matchPdfHrefs_extracts_witness :
  Html.no_quote "/files/a.PDF" = true /\
  Scheduler.pdf_name "/files/a.PDF" = true /\
  Scheduler.matchPdfHrefs (Html.href_attribute "/files/a.PDF" +:+ ">a</a>")
    = "/files/a.PDF" :: Scheduler.matchPdfHrefs ">a</a>".
Proof.
  assert (Html.no_quote "/files/a.PDF" = true) as Hq by reflexivity.
  assert (Scheduler.pdf_name "/files/a.PDF" = true) as Hp by reflexivity.
  split; [exact Hq|]. split; [exact Hp|].
  exact (proj2 (matchPdfHrefs_extracts EmptyString) "/files/a.PDF" ">a</a>" Hq Hp).
Defined.

(** Two pages that ended in [error], in the session as shipped: from a
    counter at zero both are counted; from a counter at 29 the first one
    reaches the threshold of 30 and stops the session, and the second one
    is not looked at. *)
Lemma empty_run_stops_witness :
  let cfg := Scheduler.shipped 500 in
  let rs := [Scheduler.toBatchResult 0 Fetcher.st_error;
             Scheduler.toBatchResult 1 Fetcher.st_error] in
  let st := Scheduler.initial cfg 0 ∅ in
  let late := Scheduler.set_emptyPagesInARow 29 st in
  Forall (fun r => Scheduler.blocked r = false /\ Scheduler.hrefs r = []) rs /\
  Scheduler.emptyPagesInARow st + Z.of_nat (length rs)
    < Scheduler.empty_pages_before_stop cfg /\
  (exists st',
     Scheduler.processResults cfg Some rs st = Some st' /\
     Scheduler.emptyPagesInARow st' = 2 /\
     Scheduler.shouldStop st' = false /\
     Scheduler.lastProcessedPage st' = 1) /\
  Scheduler.empty_pages_before_stop cfg
    <= Scheduler.emptyPagesInARow late + Z.of_nat (length rs) /\
  rs <> [] /\
  exists st',
    Scheduler.processResults cfg Some rs late = Some st' /\
    Scheduler.shouldStop st' = true /\
    Scheduler.emptyPagesInARow st' = 30 /\
    Scheduler.lastProcessedPage st' = 0 /\
    Scheduler.trace st' = [Scheduler.Log (Scheduler.NoLinksStop 0)].
Proof.
  intros cfg rs st late.
  assert (Forall (fun r => Scheduler.blocked r = false /\ Scheduler.hrefs r = []) rs)
    as Hall by (repeat constructor).
  assert (Scheduler.emptyPagesInARow st + Z.of_nat (length rs)
          < Scheduler.empty_pages_before_stop cfg) as Hlt by reflexivity.
  assert (Scheduler.empty_pages_before_stop cfg
          <= Scheduler.emptyPagesInARow late + Z.of_nat (length rs)) as Hge
    by (vm_compute; discriminate).
  assert (rs <> []) as Hne by discriminate.
  split; [exact Hall|]. split; [exact Hlt|]. split; [|split; [exact Hge|split; [exact Hne|]]].
  - destruct (proj1 (empty_run_stops cfg Some rs st Hall) Hlt)
      as (st' & H1 & H2 & H3 & H4).
    exists st'. split; [exact H1|]. split; [exact H2|]. split; [exact H3|exact H4].
  - destruct (proj2 (empty_run_stops cfg Some rs late Hall) Hge Hne)
      as (st' & r & Hr & H1 & H2 & H3 & H4 & H5).
    injection Hr as <-.
    exists st'. split; [exact H1|]. split; [exact H2|]. split; [exact H3|].
    split; [exact H4|exact H5].
Defined.


(** The session over the last two pages: the link of the file and the new
    one are in the link file it leaves. *)
Lemma finished_session_persists_witness :
  let cfg := Scheduler.shipped 500 in
  let newURL (href : string) := if LinkStore.url_line href then Some href else None in
  let x := "https://a.example/x.pdf" in
  let y := "https://a.example/y.pdf" in
  let both := Fetcher.Responds
    {| Fetcher.status := 200;
       Fetcher.text := Html.href_attribute x +:+ Html.href_attribute y |} in
  let one := Fetcher.Responds
    {| Fetcher.status := 200; Fetcher.text := Html.href_attribute y |} in
  let net (round : nat) (pageNumber : Z) (attempt : nat) :=
    if pageNumber =? MAX_PAGE then one else both in
  let clock (round : nat) := EmptyString in
  let files : Files := {[ Scheduler.outputPath cfg := x +:+ String "010" EmptyString ]} in
  let st := Scheduler.initial cfg (MAX_PAGE - 1) files in
  Invariant.clean_resolver newURL /\
  Scheduler.outputPath cfg <> Scheduler.progressPath cfg /\
  exists st1,
    Scheduler.loop cfg newURL net clock 2 0 st = Scheduler.Finished st1 /\
    let st' := Scheduler.saveCheckpoint cfg "2026-01-01T00:05:00.000Z"
                 (Scheduler.lastProcessedPage st1) st1 in
    LinkStore.readExistingLinks (files !! Scheduler.outputPath cfg) = [x] /\
    LinkStore.allLinks (Scheduler.links st') = [x; y] /\
    LinkStore.load (Scheduler.files st' !! Scheduler.outputPath cfg)
      = Invariant.reloaded (Scheduler.links st') /\
    Progress.readProgress (Scheduler.files st') (Scheduler.progressPath cfg) =
      Some {| Progress.lastProcessedPage := MAX_PAGE;
              Progress.totalLinksFound := 2;
              Progress.timestamp := "2026-01-01T00:05:00.000Z" |}.
Proof.
  intros cfg newURL x y both one net clock files st.
  assert (Scheduler.outputPath cfg <> Scheduler.progressPath cfg) as Hne by discriminate.
  split; [exact lines_only_clean|]. split; [exact Hne|].
  destruct closing_session_ends as (st1 & Hrun & Hlast & Hlinks & _).
  exists st1. split; [exact Hrun|]. intros st'.
  destruct (finished_session_persists cfg newURL net clock "2026-01-01T00:05:00.000Z"
              2 (MAX_PAGE - 1) files st1 lines_only_clean Hne Hrun)
    as (_ & _ & Hload & Hread).
  split; [vm_compute; reflexivity|]. split; [exact Hlinks|]. split; [exact Hload|].
  etransitivity; [exact Hread|].
  cbn [Scheduler.saveCheckpoint Scheduler.set_files Scheduler.links
       Scheduler.lastProcessedPage].
  by rewrite Hlast, Hlinks.
Defined.

(** Two pages before [MAX_PAGE]: eight iterations are enough. *)
Lemma loop_terminates_witness :
  let cfg := Scheduler.shipped 500 in
  let denied := Fetcher.Responds {| Fetcher.status := 403; Fetcher.text := "Access Denied" |} in
  let net (round : nat) (pageNumber : Z) (attempt : nat) := denied in
  let clock (round : nat) := EmptyString in
  let st := Scheduler.initial cfg (MAX_PAGE - 1) ∅ in
  1 <= Scheduler.concurrency cfg /\
  Invariant.iterations_left cfg st <= Z.of_nat 8 /\
  Scheduler.loop cfg Some net clock 8 0 st <> Scheduler.OutOfFuel.
Proof.
  intros cfg denied net clock st.
  assert (1 <= Scheduler.concurrency cfg) as HW by (vm_compute; discriminate).
  assert (Invariant.iterations_left cfg st <= Z.of_nat 8) as Hfuel
    by (vm_compute; discriminate).
  split; [exact HW|]. split; [exact Hfuel|].
  exact (proj1 (loop_terminates cfg Some net clock 8 0 st HW Hfuel)).
Defined.

(** The session that is denied three times: page 0, three times over. *)
Lemma dispatch_follows_cursor_witness :
  let cfg := Scheduler.shipped 500 in
  let denied := Fetcher.Responds {| Fetcher.status := 403; Fetcher.text := "Access Denied" |} in
  let net (round : nat) (pageNumber : Z) (attempt : nat) := denied in
  let clock (round : nat) := EmptyString in
  let st := Scheduler.initial cfg 0 ∅ in
  exists st' new,
    Scheduler.loop cfg Some net clock 3 0 st = Scheduler.Finished st' /\
    Scheduler.trace st' = new ++ Scheduler.trace st /\
    Invariant.cursor_steps cfg (Scheduler.start st) (Scheduler.dispatched new).
Proof.
  intros cfg denied net clock st.
  destruct denied_session_ends as [st' Hrun].
  destruct (dispatch_follows_cursor cfg Some net clock 3 0 st st' Hrun)
    as (new & Ht & Hc & _).
  exists st', new. split; [exact Hrun|]. split; [exact Ht|exact Hc].
Defined.

(** The fiftieth batch of a session, a page with a known and a new link:
    the checkpoint is due, and the link file written holds both. *)
Lemma periodic_checkpoint_witness :
  let cfg := Scheduler.shipped 500 in
  let newURL (href : string) := if LinkStore.url_line href then Some href else None in
  let x := "https://a.example/x.pdf" in
  let y := "https://a.example/y.pdf" in
  let both := Fetcher.Responds
    {| Fetcher.status := 200;
       Fetcher.text := Html.href_attribute x +:+ Html.href_attribute y |} in
  let one := Fetcher.Responds
    {| Fetcher.status := 200; Fetcher.text := Html.href_attribute y |} in
  let net (round : nat) (pageNumber : Z) (attempt : nat) :=
    if pageNumber =? MAX_PAGE then one else both in
  let clock (round : nat) := EmptyString in
  let files : Files := {[ Scheduler.outputPath cfg := x +:+ String "010" EmptyString ]} in
  let st := Scheduler.initial cfg (MAX_PAGE - 1) files in
  let results := [Scheduler.fetchPage cfg (net 0%nat) (MAX_PAGE - 1)] in
  let before := Scheduler.set_batchCount 49 st in
  Scheduler.count_blocked results <> length results /\
  Invariant.clean_resolver newURL /\
  Scheduler.outputPath cfg <> Scheduler.progressPath cfg /\
  Invariant.store_ok (Scheduler.links before) /\
  exists st' flow,
    Scheduler.processBatch cfg newURL "2026-01-01T00:05:00.000Z" results before
      = Some (st', flow) /\
    flow = Scheduler.Continue /\
    Scheduler.batchCount st' = 50 /\
    LinkStore.allLinks (Scheduler.links st') = [x; y] /\
    LinkStore.load (Scheduler.files st' !! Scheduler.outputPath cfg)
      = Invariant.reloaded (Scheduler.links st') /\
    Progress.readProgress (Scheduler.files st') (Scheduler.progressPath cfg) =
      Some {| Progress.lastProcessedPage := Scheduler.lastProcessedPage st';
              Progress.totalLinksFound :=
                Z.of_nat (length (LinkStore.allLinks (Scheduler.links st')));
              Progress.timestamp := "2026-01-01T00:05:00.000Z" |}.
Proof.
  intros cfg newURL x y both one net clock files st.
  intros results before.
  assert (Scheduler.count_blocked results <> length results) as Hmixed by discriminate.
  assert (Scheduler.outputPath cfg <> Scheduler.progressPath cfg) as Hne by discriminate.
  assert (Invariant.store_ok (Scheduler.links before)) as Hok
    by apply initial_store_ok.
  split; [exact Hmixed|]. split; [exact lines_only_clean|]. split; [exact Hne|].
  split; [exact Hok|].
  assert (exists st' flow,
            Scheduler.processBatch cfg newURL "2026-01-01T00:05:00.000Z" results before
              = Some (st', flow) /\
            LinkStore.allLinks (Scheduler.links st') = [x; y]) as (st' & flow & Hrun & Hlinks).
  { eexists _, _. split; [vm_compute; reflexivity|]. vm_compute. reflexivity. }
  exists st', flow. split; [exact Hrun|].
  destruct (periodic_checkpoint cfg newURL "2026-01-01T00:05:00.000Z" results before
              st' flow Hmixed Hrun) as (Hflow & _ & Hcount & Hfiles).
  change (Z.rem (Scheduler.batchCount before + 1) (Scheduler.checkpoint_interval cfg) =? 0)
    with true in Hfiles.
  destruct Hfiles as (_ & Hback).
  destruct (Hback lines_only_clean Hne Hok) as (_ & Hload & Hread).
  split; [exact Hflow|]. split; [exact Hcount|]. split; [exact Hlinks|].
  split; [exact Hload|exact Hread].
Defined.

(** The session over the last two pages: the last processed page moves
    from the page before the cursor to [MAX_PAGE]. *)
Lemma lastProcessedPage_monotone_witness :
  let cfg := Scheduler.shipped 500 in
  let newURL (href : string) := if LinkStore.url_line href then Some href else None in
  let x := "https://a.example/x.pdf" in
  let y := "https://a.example/y.pdf" in
  let both := Fetcher.Responds
    {| Fetcher.status := 200;
       Fetcher.text := Html.href_attribute x +:+ Html.href_attribute y |} in
  let one := Fetcher.Responds
    {| Fetcher.status := 200; Fetcher.text := Html.href_attribute y |} in
  let net (round : nat) (pageNumber : Z) (attempt : nat) :=
    if pageNumber =? MAX_PAGE then one else both in
  let clock (round : nat) := EmptyString in
  let files : Files := {[ Scheduler.outputPath cfg := x +:+ String "010" EmptyString ]} in
  let st := Scheduler.initial cfg (MAX_PAGE - 1) files in
  Scheduler.lastProcessedPage st < Scheduler.start st /\
  Scheduler.lastProcessedPage st = MAX_PAGE - 2 /\
  exists st',
    Scheduler.loop cfg newURL net clock 2 0 st = Scheduler.Finished st' /\
    Scheduler.lastProcessedPage st' = MAX_PAGE /\
    Scheduler.lastProcessedPage st <= Scheduler.lastProcessedPage st' /\
    Scheduler.lastProcessedPage st' < Scheduler.start st' /\
    Scheduler.lastProcessedPage st' <=
      Z.max (Scheduler.lastProcessedPage st) (Scheduler.max_page cfg).
Proof.
  intros cfg newURL x y both one net clock files st.
  assert (Scheduler.lastProcessedPage st < Scheduler.start st) as Hlt by reflexivity.
  split; [exact Hlt|]. split; [reflexivity|].
  destruct closing_session_ends as (st' & Hrun & Hlast & _).
  destruct (lastProcessedPage_monotone cfg newURL net clock 2 0 st st' Hlt Hrun)
    as (H1 & H2 & H3).
  exists st'. split; [exact Hrun|]. split; [exact Hlast|].
  split; [exact H1|]. split; [exact H2|exact H3].
Defined.


(* ================================================================== *)
(** * The batch scraper *)

Section PdfRunFacts.
Import PdfRun.

Lemma split_lines_sep a b :
  JS.split_lines (a +:+ String "010" b) = JS.split_lines a ++ JS.split_lines b.
Proof.
  induction a as [|c a IH]; [done|].
  rewrite append_cons. simpl. rewrite IH.
  destruct (Ascii.eqb c "010"); [done|].
  pose proof (split_lines_nonempty a) as Hne.
  by destruct (JS.split_lines a).
Qed.

Lemma filter_nonblank_lines new :
  Forall (fun href => line_href href = true) new ->
  List.filter nonblank (new ++ [EmptyString]) = new.
Proof.
  intros Hall. rewrite List.filter_app. simpl. rewrite app_nil_r.
  induction Hall as [|x l Hx _ IH]; [done|]. simpl.
  apply andb_prop in Hx as [_ ->]. by rewrite IH.
Qed.

Lemma line_href_no_line_feed new :
  Forall (fun href => line_href href = true) new ->
  Forall (fun l => LinkStore.no_line_feed l = true) new.
Proof.
  intros Hall. eapply Forall_impl; [exact Hall|].
  intros x Hx. simpl in Hx. by apply andb_prop in Hx as [? _].
Qed.

(** Appending a block of lines to a file of whole lines. *)
Lemma appendFile_lines new file :
  whole_lines file -> new <> [] ->
  Forall (fun href => line_href href = true) new ->
  let file' := appendFile (JS.join_lines new +:+ String "010" EmptyString) file in
  whole_lines file' /\
  loadExistingLinks file' = list_to_set new ∪ loadExistingLinks file.
Proof.
  intros Hw Hne Hall file'. split.
  - right. exists (default EmptyString file +:+ JS.join_lines new).
    subst file'. unfold appendFile. by rewrite append_assoc.
  - destruct new as [|line lines]; [done|].
    pose proof (split_lines_join line lines (line_href_no_line_feed _ Hall)) as Hsplit.
    subst file'. unfold appendFile, loadExistingLinks.
    assert (forall body,
              list_to_set (C := gset string)
                (List.filter nonblank
                   (JS.split_lines
                      ((body +:+ String "010" EmptyString)
                       +:+ (JS.join_lines (line :: lines) +:+ String "010" EmptyString))))
              = list_to_set (line :: lines)
                ∪ list_to_set (List.filter nonblank
                                 (JS.split_lines (body +:+ String "010" EmptyString))))
      as Hbody.
    { intros body. rewrite append_assoc, append_cons, append_nil_l.
      rewrite (split_lines_sep body (_ +:+ _)), Hsplit.
      rewrite (split_lines_sep body EmptyString), !List.filter_app.
      rewrite <-(List.filter_app _ (line :: lines)), filter_nonblank_lines by done.
      change (List.filter nonblank (JS.split_lines EmptyString)) with (@nil string).
      rewrite app_nil_r, list_to_set_app_L. apply (comm_L (∪)). }
    assert (list_to_set (C := gset string)
              (List.filter nonblank
                 (JS.split_lines
                    (EmptyString
                     +:+ (JS.join_lines (line :: lines) +:+ String "010" EmptyString))))
            = list_to_set (line :: lines) ∪ ∅) as Hempty.
    { rewrite append_nil_l, Hsplit, filter_nonblank_lines by done.
      by rewrite (right_id_L ∅ (∪)). }
    destruct file as [content|]; [|exact Hempty].
    destruct Hw as [->|[body ->]]; [exact Hempty|apply Hbody].
Qed.

Lemma size_list_to_set_le (l : list string) :
  (size (list_to_set (C := gset string) l) <= length l)%nat.
Proof.
  induction l as [|x l IH]; [done|].
  cbn [list_to_set length]. rewrite size_union_alt, size_singleton.
  assert (list_to_set (C := gset string) l ∖ {[x]} ⊆ list_to_set l) as Hsub
    by (intros y Hy; by apply elem_of_difference in Hy as [? _]).
  apply subseteq_size in Hsub. lia.
Qed.

Lemma filter_NoDup {A} (f : A -> bool) (l : list A) :
  NoDup l -> NoDup (List.filter f l).
Proof.
  induction 1 as [|x l Hx _ IH]; simpl; [constructor|].
  destruct (f x); [|done]. constructor; [|done].
  intros Hin. apply Hx. by apply list_elem_of_In, filter_In in Hin as [?%list_elem_of_In _].
Qed.

Lemma filter_line_hrefs (f : string -> bool) hs :
  Forall (fun href => line_href href = true) hs ->
  Forall (fun href => line_href href = true) (List.filter f hs).
Proof.
  intros Hall. apply Forall_forall. intros x Hx.
  apply list_elem_of_In, filter_In in Hx as [Hx _].
  rewrite Forall_forall in Hall. by apply Hall, list_elem_of_In.
Qed.

(** The links of one result: the file stays in step with the set, the set
    only grows, and the counter grows at least as much as the set. *)
Lemma record_links r st b :
  Forall (fun href => line_href href = true) (hrefs r) ->
  let st1 := (record r (st, b)).1 in
  (in_step st -> in_step st1) /\
  existingLinks st ⊆ existingLinks st1 /\
  Z.of_nat (size (existingLinks st1)) - Z.of_nat (size (existingLinks st))
    <= linksAddedThisRun st1 - linksAddedThisRun st /\
  (NoDup (hrefs r) ->
   Z.of_nat (size (existingLinks st1)) - Z.of_nat (size (existingLinks st))
     = linksAddedThisRun st1 - linksAddedThisRun st).
Proof.
  intros Hall. unfold record.
  destruct (error r); [simpl; split; [done|]; split; [done|]; split; [lia|intros; lia]|].
  destruct (0 <? length (hrefs r))%nat;
    [|simpl; split; [done|]; split; [done|]; split; [lia|intros; lia]].
  cbv zeta.
  set (new := List.filter _ (hrefs r)).
  destruct (0 <? length new)%nat eqn:E;
    [|simpl; split; [done|]; split; [done|]; split; [lia|intros; lia]].
  simpl.
  assert (new <> []) as Hne by (intros Hn; by rewrite Hn in E).
  assert (Forall (fun href => line_href href = true) new) as Hnew
    by (by apply filter_line_hrefs).
  assert (list_to_set (C := gset string) new ## existingLinks st) as Hdisj.
  { intros x Hx Hin. apply elem_of_list_to_set, list_elem_of_In, filter_In in Hx as [_ Hx].
    apply negb_true_iff, bool_decide_eq_false in Hx. done. }
  split; [|split; [apply union_subseteq_r|split]].
  - intros [Hw Hload].
    destruct (appendFile_lines new (outputFile st) Hw Hne Hnew) as [Hw' Hload'].
    split; [exact Hw'|]. etransitivity; [exact Hload'|]. by rewrite Hload.
  - rewrite size_union by done.
    pose proof (size_list_to_set_le new). lia.
  - intros Hnd. rewrite size_union by done.
    rewrite size_list_to_set; [lia|]. by apply filter_NoDup.
Qed.

Lemma pageNum_scrapePage goto p : pageNum (scrapePage goto p) = p.
Proof.
  unfold scrapePage. destruct (goto _) as [| |status [hs|]]; try done.
  by destruct (status =? 200).
Qed.

Lemma hrefs_of_error goto p :
  error (scrapePage goto p) = true -> hrefs (scrapePage goto p) = [].
Proof.
  unfold scrapePage. destruct (goto _) as [| |status [hs|]]; try done.
  by destruct (status =? 200).
Qed.

Lemma scrapePage_line_hrefs web round p :
  line_hrefs web ->
  Forall (fun href => line_href href = true) (hrefs (scrapePage (web round) p)).
Proof.
  intros Hweb. unfold scrapePage.
  destruct (web round _) as [| |status [hs|]] eqn:E; try by constructor.
  destruct (status =? 200); [|by constructor]. simpl. by eapply Hweb.
Qed.

Lemma batchPageNums_seq c : batchPageNums c = seqZ c TOTAL_CONCURRENCY.
Proof.
  unfold batchPageNums, TOTAL_CONCURRENCY, TABS_PER_BROWSER, NUM_BROWSERS, seqZ.
  simpl. repeat (apply (f_equal2 cons); [lia|]). done.
Qed.

Lemma sort_ascending l :
  StronglySorted (fun a b => pageNum a <= pageNum b) l -> sort_by_pageNum l = l.
Proof.
  induction 1 as [|r l Hs IH Hall]; [done|].
  change (sort_by_pageNum (r :: l)) with (insert_by_pageNum r (sort_by_pageNum l)).
  rewrite IH. destruct l as [|r' l]; [done|]. simpl.
  apply Forall_cons in Hall as [Hle _]. by rewrite (proj2 (Z.leb_le _ _) Hle).
Qed.

(** The tabs hand over the pages of a batch in ascending order, and the
    sort leaves them so. *)
Lemma batch_results_sorted goto c :
  sort_by_pageNum (map (scrapePage goto) (batchPageNums c))
  = map (scrapePage goto) (seqZ c TOTAL_CONCURRENCY).
Proof.
  rewrite batchPageNums_seq. apply sort_ascending.
  apply (map_ascending Z.lt).
  - intros x y Hxy. rewrite !pageNum_scrapePage. lia.
  - apply seqZ_ascending.
Qed.

Lemma Math_max_seqZ k : forall c,
  Math_max (seqZ c (Z.of_nat (S k))) = Some (c + Z.of_nat k).
Proof.
  induction k as [|k IH]; intros c.
  - simpl. unfold seqZ. simpl. f_equal. lia.
  - rewrite seqZ_cons by lia.
    replace (Z.pred (Z.of_nat (S (S k)))) with (Z.of_nat (S k)) by lia.
    cbn [Math_max foldr]. fold (Math_max (seqZ (Z.succ c) (Z.of_nat (S k)))).
    rewrite IH. f_equal. lia.
Qed.

Lemma map_pageNum goto ps : map pageNum (map (scrapePage goto) ps) = ps.
Proof.
  induction ps as [|p ps IH]; [done|]. simpl. by rewrite pageNum_scrapePage, IH.
Qed.

(** The fields of the state that one result touches, apart from the
    links. *)
Lemma record_fields r st b :
  let out := record r (st, b) in
  currentPage out.1 = currentPage st /\
  consecutiveEmptyPages out.1 = consecutiveEmptyPages st /\
  out.2 = b && (error r || (length (hrefs r) =? 0)%nat) /\
  pagesScrapedThisRun out.1
    = pagesScrapedThisRun st + (if error r then 0 else 1) /\
  failedPages out.1 =
    (if error r then {[pageNum r]} ∪ failedPages st
     else failedPages st ∖ {[pageNum r]}).
Proof.
  unfold record. destruct (error r); simpl.
  - rewrite andb_true_r. repeat split; try done. lia.
  - destruct (hrefs r) as [|h hs]; simpl.
    + by rewrite andb_true_r.
    + by rewrite andb_false_r.
Qed.

Lemma foldl_record_fields goto ps : forall st b,
  let out := foldl (fun acc result => record result acc) (st, b)
               (map (scrapePage goto) ps) in
  currentPage out.1 = currentPage st /\
  consecutiveEmptyPages out.1 = consecutiveEmptyPages st /\
  out.2 = b && forallb (fun p => error (scrapePage goto p)
                                 || (length (hrefs (scrapePage goto p)) =? 0)%nat) ps /\
  pagesScrapedThisRun out.1
    = pagesScrapedThisRun st
      + Z.of_nat (length (List.filter (fun p => negb (error (scrapePage goto p))) ps)) /\
  (forall p, p ∈ failedPages out.1 <->
     (p ∈ ps /\ error (scrapePage goto p) = true) \/
     ((p ∉ ps) /\ p ∈ failedPages st)).
Proof.
  induction ps as [|q ps IH]; intros st b.
  - simpl. rewrite andb_true_r. repeat split; try done; try lia.
    + intros Hp. right. split; [apply not_elem_of_nil|done].
    + intros [[Hp _]|[_ Hp]]; [by apply elem_of_nil in Hp|done].
  - cbn [map foldl].
    pose proof (record_fields (scrapePage goto q) st b) as Hr.
    destruct (record (scrapePage goto q) (st, b)) as [st1 b1].
    cbv zeta in Hr. simpl in Hr. destruct Hr as (Hc & He & Hb & Hp & Hf).
    specialize (IH st1 b1). cbv zeta in IH |- *.
    destruct IH as (Hc' & He' & Hb' & Hp' & Hf').
    subst b1. rewrite Hc', He', Hb', Hp', Hc, He, Hp. rewrite pageNum_scrapePage in Hf.
    split; [done|]. split; [done|]. split; [|split].
    + cbn [forallb]. by rewrite andb_assoc.
    + cbn [List.filter]. destruct (error (scrapePage goto q)); simpl; lia.
    + intros p. etransitivity; [apply Hf'|]. rewrite Hf, elem_of_cons.
      destruct (error (scrapePage goto q)) eqn:Eq.
      * rewrite elem_of_union, elem_of_singleton.
        destruct (decide (p = q)) as [->|Hne]; [|tauto].
        destruct (decide (q ∈ ps)); tauto.
      * rewrite elem_of_difference, elem_of_singleton.
        destruct (decide (p = q)) as [->|Hne]; [|tauto].
        rewrite Eq. intuition congruence.
Qed.

Lemma foldl_record_links rs : forall st b,
  Forall (fun r => Forall (fun href => line_href href = true) (hrefs r)) rs ->
  let st1 := (foldl (fun acc result => record result acc) (st, b) rs).1 in
  (in_step st -> in_step st1) /\
  existingLinks st ⊆ existingLinks st1 /\
  Z.of_nat (size (existingLinks st1)) - Z.of_nat (size (existingLinks st))
    <= linksAddedThisRun st1 - linksAddedThisRun st /\
  (Forall (fun r => NoDup (hrefs r)) rs ->
   Z.of_nat (size (existingLinks st1)) - Z.of_nat (size (existingLinks st))
     = linksAddedThisRun st1 - linksAddedThisRun st).
Proof.
  induction rs as [|r rs IH]; intros st b Hall.
  - simpl. split; [done|]. split; [done|]. split; [lia|intros; lia].
  - apply Forall_cons in Hall as [Hr Hall]. cbn [foldl].
    pose proof (record_links r st b Hr) as Hstep.
    destruct (record r (st, b)) as [st1 b1]. cbv zeta in Hstep. simpl in Hstep.
    destruct Hstep as (H1 & H2 & H3 & H4).
    specialize (IH st1 b1 Hall). cbv zeta in IH |- *.
    destruct IH as (H1' & H2' & H3' & H4').
    split; [auto|]. split; [by etransitivity|]. split; [lia|].
    intros [Hn Hns]%Forall_cons. specialize (H4 Hn). specialize (H4' Hns). lia.
Qed.

Lemma foldl_record_quiet rs : forall st b,
  Forall (fun r => hrefs r = []) rs ->
  let st1 := (foldl (fun acc result => record result acc) (st, b) rs).1 in
  existingLinks st1 = existingLinks st /\ outputFile st1 = outputFile st /\
  linksAddedThisRun st1 = linksAddedThisRun st.
Proof.
  induction rs as [|r rs IH]; intros st b Hall; [done|].
  apply Forall_cons in Hall as [Hr Hall]. cbn [foldl].
  assert (existingLinks (record r (st, b)).1 = existingLinks st /\
          outputFile (record r (st, b)).1 = outputFile st /\
          linksAddedThisRun (record r (st, b)).1 = linksAddedThisRun st)
    as (H1 & H2 & H3).
  { unfold record. rewrite Hr. by destruct (error r). }
  destruct (record r (st, b)) as [st1 b1]. simpl in H1, H2, H3.
  specialize (IH st1 b1 Hall). cbv zeta in IH |- *.
  destruct IH as (-> & -> & ->). done.
Qed.

(** [allEmpty && !batchResults.some(r => r.error)] *)
Lemma allEmpty_no_error goto ps :
  forallb (fun p => error (scrapePage goto p)
                    || (length (hrefs (scrapePage goto p)) =? 0)%nat) ps
  && negb (existsb error (map (scrapePage goto) ps))
  = forallb (fun p => negb (error (scrapePage goto p))
                      && (length (hrefs (scrapePage goto p)) =? 0)%nat) ps.
Proof.
  induction ps as [|p ps IH]; [done|]. cbn [forallb map existsb].
  rewrite <-IH. destruct (error (scrapePage goto p)); simpl.
  - by rewrite andb_false_r.
  - by destruct (length _ =? 0)%nat.
Qed.

(** One iteration, field by field. *)
Lemma batch_fields goto st :
  let c := currentPage st in
  let pages := seqZ c TOTAL_CONCURRENCY in
  let st1 := (foldl (fun acc result => record result acc) (st, true)
                (map (scrapePage goto) pages)).1 in
  let st' := batch goto st in
  currentPage st' = c + TOTAL_CONCURRENCY /\
  lastCompletedPage st' = Some (c + TOTAL_CONCURRENCY - 1) /\
  consecutiveEmptyPages st' =
    (if forallb (fun p => negb (error (scrapePage goto p))
                          && (length (hrefs (scrapePage goto p)) =? 0)%nat) pages
     then consecutiveEmptyPages st + 1 else 0) /\
  existingLinks st' = existingLinks st1 /\
  outputFile st' = outputFile st1 /\
  linksAddedThisRun st' = linksAddedThisRun st1 /\
  failedPages st' = failedPages st1 /\
  pagesScrapedThisRun st' = pagesScrapedThisRun st1.
Proof.
  intros c pages st1 st'. subst st' st1. unfold batch.
  rewrite batch_results_sorted. fold c. fold pages.
  pose proof (foldl_record_fields goto pages st true) as Hf.
  destruct (foldl _ _ _) as [st1 allEmpty]. cbv zeta in Hf.
  cbn [fst snd] in Hf |- *.
  cbn [currentPage consecutiveEmptyPages existingLinks failedPages
       pagesScrapedThisRun linksAddedThisRun lastCompletedPage outputFile].
  destruct Hf as (Hc & He & Hb & _ & _).
  rewrite Hc, He, Hb, map_pageNum. cbn [andb].
  rewrite allEmpty_no_error.
  split; [done|]. split; [|done].
  assert (TOTAL_CONCURRENCY = Z.of_nat (S 29)) as Ht by reflexivity.
  subst pages. rewrite Ht, Math_max_seqZ. f_equal. lia.
Qed.

End PdfRunFacts.

Section PdfLoopFacts.
Import PdfRun.

Lemma results_line_hrefs goto ps :
  (forall p, Forall (fun href => line_href href = true) (hrefs (scrapePage goto p))) ->
  Forall (fun r => Forall (fun href => line_href href = true) (hrefs r))
    (map (scrapePage goto) ps).
Proof.
  intros Hall. apply Forall_forall. intros r Hr.
  apply list_elem_of_In, in_map_iff in Hr as (p & <- & _). apply Hall.
Qed.

Lemma results_NoDup goto ps :
  (forall p, NoDup (hrefs (scrapePage goto p))) ->
  Forall (fun r => NoDup (hrefs r)) (map (scrapePage goto) ps).
Proof.
  intros Hall. apply Forall_forall. intros r Hr.
  apply list_elem_of_In, in_map_iff in Hr as (p & <- & _). apply Hall.
Qed.

Lemma scrapePage_NoDup (web : nat -> string -> Visit) round p :
  (forall round url status hrefs,
     web round url = Response status (Some hrefs) -> NoDup hrefs) ->
  NoDup (hrefs (scrapePage (web round) p)).
Proof.
  intros Hweb. unfold scrapePage.
  destruct (web round _) as [| |status [hs|]] eqn:E; try by constructor.
  destruct (status =? 200); [|by constructor]. simpl. by eapply Hweb.
Qed.

(** The links across one iteration. *)
Lemma batch_links goto st :
  (forall p, Forall (fun href => line_href href = true) (hrefs (scrapePage goto p))) ->
  let st' := batch goto st in
  (in_step st -> in_step st') /\
  existingLinks st ⊆ existingLinks st' /\
  Z.of_nat (size (existingLinks st')) - Z.of_nat (size (existingLinks st))
    <= linksAddedThisRun st' - linksAddedThisRun st /\
  ((forall p, NoDup (hrefs (scrapePage goto p))) ->
   Z.of_nat (size (existingLinks st')) - Z.of_nat (size (existingLinks st))
     = linksAddedThisRun st' - linksAddedThisRun st).
Proof.
  intros Hall st'. subst st'.
  destruct (batch_fields goto st) as (_ & _ & _ & He & Ho & Hl & _ & _).
  unfold in_step. rewrite He, Ho, Hl.
  destruct (foldl_record_links
              (map (scrapePage goto) (seqZ (currentPage st) TOTAL_CONCURRENCY))
              st true (results_line_hrefs goto _ Hall)) as (H1 & H2 & H3 & H4).
  split; [exact H1|]. split; [exact H2|]. split; [exact H3|].
  intros Hnd. apply H4. by apply results_NoDup.
Qed.

Lemma after_links web n : forall round st,
  line_hrefs web ->
  let st' := after web n round st in
  (in_step st -> in_step st') /\
  existingLinks st ⊆ existingLinks st' /\
  Z.of_nat (size (existingLinks st')) - Z.of_nat (size (existingLinks st))
    <= linksAddedThisRun st' - linksAddedThisRun st /\
  ((forall round url status hrefs,
      web round url = Response status (Some hrefs) -> NoDup hrefs) ->
   Z.of_nat (size (existingLinks st')) - Z.of_nat (size (existingLinks st))
     = linksAddedThisRun st' - linksAddedThisRun st).
Proof.
  induction n as [|n IH]; intros round st Hweb; cbn [after]; cbv zeta.
  - split; [done|]. split; [done|]. split; [lia|intros; lia].
  - destruct (_ <? _); [|split; [done|]; split; [done|]; split; [lia|intros; lia]].
    destruct (batch_links (web round) st) as (H1 & H2 & H3 & H4).
    { intros p. by apply scrapePage_line_hrefs. }
    destruct (IH (S round) (batch (web round) st) Hweb) as (H1' & H2' & H3' & H4').
    split; [auto|]. split; [by etransitivity|]. split; [lia|].
    intros Hnd. specialize (H4' Hnd).
    assert (forall p, NoDup (hrefs (scrapePage (web round) p))) as Hnd'
      by (intros p; by apply scrapePage_NoDup).
    specialize (H4 Hnd'). lia.
Qed.

Lemma quiet_page goto c p :
  quiet goto c -> c <= p < c + TOTAL_CONCURRENCY ->
  scrapePage goto p = {| pageNum := p; hrefs := []; error := false |}.
Proof.
  intros Hq Hp. destruct (Hq p Hp) as (status & Hg & ->).
  unfold scrapePage. by rewrite Hg.
Qed.

(** A batch in which every page answers without an anchor. *)
Lemma quiet_batch goto st :
  quiet goto (currentPage st) ->
  let st' := batch goto st in
  currentPage st' = currentPage st + TOTAL_CONCURRENCY /\
  consecutiveEmptyPages st' = consecutiveEmptyPages st + 1 /\
  lastCompletedPage st' = Some (currentPage st' - 1) /\
  existingLinks st' = existingLinks st /\ outputFile st' = outputFile st /\
  linksAddedThisRun st' = linksAddedThisRun st.
Proof.
  intros Hq st'. subst st'.
  destruct (batch_fields goto st) as (Hc & Hl & He & Hx & Ho & Ha & _ & _).
  rewrite Hc, Hl, He, Hx, Ho, Ha.
  assert (forall p, p ∈ seqZ (currentPage st) TOTAL_CONCURRENCY ->
            scrapePage goto p = {| pageNum := p; hrefs := []; error := false |})
    as Hpages.
  { intros p Hp. apply elem_of_seqZ in Hp. by apply (quiet_page goto (currentPage st)). }
  destruct (foldl_record_quiet
              (map (scrapePage goto) (seqZ (currentPage st) TOTAL_CONCURRENCY))
              st true) as (-> & -> & ->).
  { apply Forall_forall. intros r Hr.
    apply list_elem_of_In, in_map_iff in Hr as (p & <- & Hp).
    by rewrite Hpages by (by apply list_elem_of_In). }
  replace (forallb _ _) with true.
  - split; [done|]. split; [done|]. split; [f_equal; lia|done].
  - symmetry. apply forallb_forall. intros p Hp.
    by rewrite Hpages by (by apply list_elem_of_In).
Qed.

(** A batch with a page that failed. *)
Lemma failing_batch goto st :
  failing goto (currentPage st) ->
  currentPage (batch goto st) = currentPage st + TOTAL_CONCURRENCY /\
  consecutiveEmptyPages (batch goto st) = 0.
Proof.
  intros (p & Hp & Herr).
  destruct (batch_fields goto st) as (Hc & _ & He & _).
  split; [exact Hc|]. rewrite He.
  destruct (forallb _ _) eqn:E; [|done].
  rewrite forallb_forall in E. specialize (E p).
  rewrite Herr in E. discriminate E.
  by apply list_elem_of_In, elem_of_seqZ.
Qed.

Lemma run_quiet web k : forall fuel round st,
  consecutiveEmptyPages st + Z.of_nat k = maxEmptyPages ->
  (k <= fuel)%nat ->
  (forall i, (i < k)%nat ->
     quiet (web (round + i)%nat) (currentPage st + Z.of_nat i * TOTAL_CONCURRENCY)) ->
  exists st',
    run web fuel round st = Some st' /\
    currentPage st' = currentPage st + Z.of_nat k * TOTAL_CONCURRENCY /\
    consecutiveEmptyPages st' = maxEmptyPages /\
    lastCompletedPage st' =
      (if decide (k = 0%nat) then lastCompletedPage st
       else Some (currentPage st' - 1)) /\
    existingLinks st' = existingLinks st /\ outputFile st' = outputFile st /\
    linksAddedThisRun st' = linksAddedThisRun st.
Proof.
  induction k as [|k IH]; intros fuel round st Hk Hfuel Hq.
  - exists st. split.
    + destruct fuel; simpl;
        by replace (consecutiveEmptyPages st <? maxEmptyPages) with false
          by (symmetry; apply Z.ltb_ge; lia).
    + simpl. repeat split; try done; lia.
  - destruct fuel as [|fuel]; [lia|]. cbn [run].
    replace (consecutiveEmptyPages st <? maxEmptyPages) with true
      by (symmetry; apply Z.ltb_lt; lia).
    assert (quiet (web round) (currentPage st)) as Hq0.
    { specialize (Hq 0%nat). rewrite Nat.add_0_r in Hq.
      replace (currentPage st + Z.of_nat 0 * TOTAL_CONCURRENCY)
        with (currentPage st) in Hq by lia. apply Hq. lia. }
    destruct (quiet_batch (web round) st Hq0) as (Hc & He & Hl & Hx & Ho & Ha).
    destruct (IH fuel (S round) (batch (web round) st))
      as (st' & Hrun & Hc' & He' & Hl' & Hx' & Ho' & Ha').
    + lia.
    + lia.
    + intros i Hi. specialize (Hq (S i)).
      replace (S round + i)%nat with (round + S i)%nat by lia.
      replace (currentPage (batch (web round) st) + Z.of_nat i * TOTAL_CONCURRENCY)
        with (currentPage st + Z.of_nat (S i) * TOTAL_CONCURRENCY) by lia.
      apply Hq. lia.
    + exists st'. split; [exact Hrun|]. split; [lia|]. split; [done|].
      split; [|split; [congruence|split; congruence]].
      rewrite Hl'. destruct (decide (k = 0%nat)) as [->|Hne]; [|done].
      rewrite Hl. f_equal. lia.
Qed.

Lemma run_failing web fuel : forall round st,
  consecutiveEmptyPages st < maxEmptyPages ->
  (forall i, (i < fuel)%nat ->
     failing (web (round + i)%nat)
       (currentPage st + Z.of_nat i * TOTAL_CONCURRENCY)) ->
  run web fuel round st = None.
Proof.
  induction fuel as [|fuel IH]; intros round st Hlt Hf; cbn [run];
    replace (consecutiveEmptyPages st <? maxEmptyPages) with true
      by (symmetry; apply Z.ltb_lt; lia); [done|].
  assert (failing (web round) (currentPage st)) as Hf0.
  { specialize (Hf 0%nat). rewrite Nat.add_0_r in Hf.
    replace (currentPage st + Z.of_nat 0 * TOTAL_CONCURRENCY)
      with (currentPage st) in Hf by lia. apply Hf. lia. }
  destruct (failing_batch (web round) st Hf0) as (Hc & He).
  apply IH.
  - rewrite He. by vm_compute.
  - intros i Hi. specialize (Hf (S i)).
    replace (S round + i)%nat with (round + S i)%nat by lia.
    replace (currentPage (batch (web round) st) + Z.of_nat i * TOTAL_CONCURRENCY)
      with (currentPage st + Z.of_nat (S i) * TOTAL_CONCURRENCY) by lia.
    apply Hf. lia.
Qed.

End PdfLoopFacts.

(** X18. The batch scraper keeps its link file in step with its set: when
    the file is absent, empty or ends with a line feed, the set is the one
    the file loads as, and every anchor the site yields is one line that is
    not blank, then after any number of iterations (and so in the state in
    which the loop is left) the file again consists of whole lines and
    loads as exactly the set in memory, and no link of the set has been
    lost. *)
Theorem link_file_in_step (web : nat -> string -> PdfRun.Visit)
    (n round : nat) (st : PdfRun.Run) :
  PdfRun.line_hrefs web ->
  PdfRun.in_step st ->
  PdfRun.in_step (PdfRun.after web n round st) /\
  PdfRun.existingLinks st ⊆ PdfRun.existingLinks (PdfRun.after web n round st) /\
  (forall st', PdfRun.run web n round st = Some st' -> PdfRun.in_step st').
Proof.
  intros Hweb Hstep.
  destruct (after_links web n round st Hweb) as (H1 & H2 & _).
  split; [by apply H1|]. split; [exact H2|].
  intros st' Hrun. revert round st Hstep H1 H2 Hrun.
  induction n as [|n IH]; intros round st Hstep _ _; cbn [PdfRun.run].
  - destruct (_ <? _); [done|]. by intros [= <-].
  - destruct (_ <? _); [|by intros [= <-]].
    destruct (batch_links (web round) st) as (Hb & _).
    { intros p. by apply scrapePage_line_hrefs. }
    destruct (after_links web n (S round) (PdfRun.batch (web round) st) Hweb)
      as (H1 & H2 & _).
    apply IH; auto.
Qed.

Section PdfCountFacts.
Import PdfRun.

(** The set and the counter across one result, whatever the hrefs are. *)
Lemma record_counts r st b :
  let st1 := (record r (st, b)).1 in
  existingLinks st ⊆ existingLinks st1 /\
  Z.of_nat (size (existingLinks st1)) - Z.of_nat (size (existingLinks st))
    <= linksAddedThisRun st1 - linksAddedThisRun st /\
  (NoDup (hrefs r) ->
   Z.of_nat (size (existingLinks st1)) - Z.of_nat (size (existingLinks st))
     = linksAddedThisRun st1 - linksAddedThisRun st).
Proof.
  unfold record.
  destruct (error r); [simpl; split; [done|]; split; [lia|intros; lia]|].
  destruct (0 <? length (hrefs r))%nat;
    [|simpl; split; [done|]; split; [lia|intros; lia]].
  cbv zeta.
  set (new := List.filter _ (hrefs r)).
  destruct (0 <? length new)%nat eqn:E;
    [|simpl; split; [done|]; split; [lia|intros; lia]].
  simpl.
  assert (list_to_set (C := gset string) new ## existingLinks st) as Hdisj.
  { intros x Hx Hin. apply elem_of_list_to_set, list_elem_of_In, filter_In in Hx as [_ Hx].
    apply negb_true_iff, bool_decide_eq_false in Hx. done. }
  split; [apply union_subseteq_r|split].
  - rewrite size_union by done. pose proof (size_list_to_set_le new). lia.
  - intros Hnd. rewrite size_union by done.
    rewrite size_list_to_set; [lia|]. by apply filter_NoDup.
Qed.

Lemma foldl_record_counts rs : forall st b,
  let st1 := (foldl (fun acc result => record result acc) (st, b) rs).1 in
  existingLinks st ⊆ existingLinks st1 /\
  Z.of_nat (size (existingLinks st1)) - Z.of_nat (size (existingLinks st))
    <= linksAddedThisRun st1 - linksAddedThisRun st /\
  (Forall (fun r => NoDup (hrefs r)) rs ->
   Z.of_nat (size (existingLinks st1)) - Z.of_nat (size (existingLinks st))
     = linksAddedThisRun st1 - linksAddedThisRun st).
Proof.
  induction rs as [|r rs IH]; intros st b.
  - simpl. split; [done|]. split; [lia|intros; lia].
  - cbn [foldl]. pose proof (record_counts r st b) as Hstep.
    destruct (record r (st, b)) as [st1 b1]. cbv zeta in Hstep. simpl in Hstep.
    destruct Hstep as (H2 & H3 & H4).
    specialize (IH st1 b1). cbv zeta in IH |- *. destruct IH as (H2' & H3' & H4').
    split; [by etransitivity|]. split; [lia|].
    intros [Hn Hns]%Forall_cons. specialize (H4 Hn). specialize (H4' Hns). lia.
Qed.

Lemma batch_counts goto st :
  let st' := batch goto st in
  existingLinks st ⊆ existingLinks st' /\
  Z.of_nat (size (existingLinks st')) - Z.of_nat (size (existingLinks st))
    <= linksAddedThisRun st' - linksAddedThisRun st /\
  ((forall p, NoDup (hrefs (scrapePage goto p))) ->
   Z.of_nat (size (existingLinks st')) - Z.of_nat (size (existingLinks st))
     = linksAddedThisRun st' - linksAddedThisRun st).
Proof.
  intros st'. subst st'.
  destruct (batch_fields goto st) as (_ & _ & _ & He & _ & Hl & _ & _).
  rewrite He, Hl.
  destruct (foldl_record_counts
              (map (scrapePage goto) (seqZ (currentPage st) TOTAL_CONCURRENCY))
              st true) as (H2 & H3 & H4).
  split; [exact H2|]. split; [exact H3|].
  intros Hnd. apply H4. by apply results_NoDup.
Qed.

Lemma after_counts web n : forall round st,
  let st' := after web n round st in
  existingLinks st ⊆ existingLinks st' /\
  Z.of_nat (size (existingLinks st')) - Z.of_nat (size (existingLinks st))
    <= linksAddedThisRun st' - linksAddedThisRun st /\
  ((forall round url status hrefs,
      web round url = Response status (Some hrefs) -> NoDup hrefs) ->
   Z.of_nat (size (existingLinks st')) - Z.of_nat (size (existingLinks st))
     = linksAddedThisRun st' - linksAddedThisRun st).
Proof.
  induction n as [|n IH]; intros round st; cbn [after]; cbv zeta.
  - split; [done|]. split; [lia|intros; lia].
  - destruct (_ <? _); [|split; [done|]; split; [lia|intros; lia]].
    destruct (batch_counts (web round) st) as (H2 & H3 & H4).
    destruct (IH (S round) (batch (web round) st)) as (H2' & H3' & H4').
    split; [by etransitivity|]. split; [lia|].
    intros Hnd. specialize (H4' Hnd).
    assert (forall p, NoDup (hrefs (scrapePage (web round) p))) as Hnd'
      by (intros p; by apply scrapePage_NoDup).
    specialize (H4 Hnd'). lia.
Qed.

End PdfCountFacts.

(** X19. [linksAddedThisRun] is an upper bound of the growth of the set of
    links, not the growth itself: the new links of a page are filtered
    against the set before any of them is added, so an href that occurs
    twice among them is appended and counted twice; the two agree when no
    page repeats an anchor.  The set only grows. *)
Theorem links_added_bounds_growth (web : nat -> string -> PdfRun.Visit)
    (n round : nat) (st : PdfRun.Run) :
  let st' := PdfRun.after web n round st in
  PdfRun.existingLinks st ⊆ PdfRun.existingLinks st' /\
  Z.of_nat (size (PdfRun.existingLinks st')) - Z.of_nat (size (PdfRun.existingLinks st))
    <= PdfRun.linksAddedThisRun st' - PdfRun.linksAddedThisRun st /\
  ((forall round url status hrefs,
      web round url = PdfRun.Response status (Some hrefs) -> NoDup hrefs) ->
   Z.of_nat (size (PdfRun.existingLinks st')) - Z.of_nat (size (PdfRun.existingLinks st))
     = PdfRun.linksAddedThisRun st' - PdfRun.linksAddedThisRun st).
Proof. apply after_counts. Qed.

(** X20. The books of one batch: the cursor moves on by
    [TOTAL_CONCURRENCY] and the last completed page is the last page of the
    batch, whether its pages failed or not; a page of the batch is in
    [failedPages] afterwards exactly when its scrape failed, and the other
    pages of the set stay as they were; every page that did not fail counts
    as scraped; and the counter called [consecutiveEmptyPages] counts
    batches: it goes up by one when no page of the batch failed and none
    had an anchor, and back to zero otherwise. *)
Theorem batch_bookkeeping (goto : string -> PdfRun.Visit) (st : PdfRun.Run) :
  let c := PdfRun.currentPage st in
  let st' := PdfRun.batch goto st in
  let in_batch p := c <= p < c + PdfRun.TOTAL_CONCURRENCY in
  let pages := seqZ c PdfRun.TOTAL_CONCURRENCY in
  PdfRun.currentPage st' = c + PdfRun.TOTAL_CONCURRENCY /\
  PdfRun.lastCompletedPage st' = Some (c + PdfRun.TOTAL_CONCURRENCY - 1) /\
  (forall p, p ∈ PdfRun.failedPages st' <->
     (in_batch p /\ PdfRun.error (PdfRun.scrapePage goto p) = true) \/
     (~ in_batch p /\ p ∈ PdfRun.failedPages st)) /\
  PdfRun.pagesScrapedThisRun st' =
    PdfRun.pagesScrapedThisRun st
    + Z.of_nat (length (List.filter
                          (fun p => negb (PdfRun.error (PdfRun.scrapePage goto p)))
                          pages)) /\
  PdfRun.consecutiveEmptyPages st' =
    (if forallb (fun p => negb (PdfRun.error (PdfRun.scrapePage goto p))
                          && (length (PdfRun.hrefs (PdfRun.scrapePage goto p)) =? 0)%nat)
          pages
     then PdfRun.consecutiveEmptyPages st + 1 else 0).
Proof.
  intros c st' in_batch pages. subst st'.
  destruct (batch_fields goto st) as (Hc & Hl & He & _ & _ & _ & Hf & Hp).
  destruct (foldl_record_fields goto pages st true) as (_ & _ & _ & Hp' & Hf').
  split; [exact Hc|]. split; [exact Hl|]. split; [|split; [|exact He]].
  - intros p. rewrite Hf. etransitivity; [apply Hf'|].
    subst pages in_batch. cbv beta. by rewrite elem_of_seqZ.
  - rewrite Hp. exact Hp'.
Qed.

(** X21. The loop is left after [maxEmptyPages] batches in a row in which
    every page answered 200 without an anchor: from a counter that lacks
    [k] to the threshold, [k] such batches end the run with the cursor [k]
    batches further, the last completed page just below it, and the links,
    the link file and the counter of added links untouched. *)
Theorem quiet_batches_end_the_run (web : nat -> string -> PdfRun.Visit)
    (k fuel round : nat) (st : PdfRun.Run) :
  PdfRun.consecutiveEmptyPages st + Z.of_nat k = PdfRun.maxEmptyPages ->
  (k <= fuel)%nat ->
  (forall i, (i < k)%nat ->
     PdfRun.quiet (web (round + i)%nat)
       (PdfRun.currentPage st + Z.of_nat i * PdfRun.TOTAL_CONCURRENCY)) ->
  exists st',
    PdfRun.run web fuel round st = Some st' /\
    PdfRun.currentPage st' =
      PdfRun.currentPage st + Z.of_nat k * PdfRun.TOTAL_CONCURRENCY /\
    PdfRun.consecutiveEmptyPages st' = PdfRun.maxEmptyPages /\
    PdfRun.lastCompletedPage st' =
      (if decide (k = 0%nat) then PdfRun.lastCompletedPage st
       else Some (PdfRun.currentPage st' - 1)) /\
    PdfRun.existingLinks st' = PdfRun.existingLinks st /\
    PdfRun.outputFile st' = PdfRun.outputFile st /\
    PdfRun.linksAddedThisRun st' = PdfRun.linksAddedThisRun st.
Proof. apply run_quiet. Qed.

(** X22. Failures keep the loop going: as long as every batch holds a page
    whose scrape failed (the site is down, say), the counter is set back to
    zero after every batch and the loop is not left, however many batches
    have been tried; the page numbers requested grow without a bound. *)
Theorem failing_batches_never_end (web : nat -> string -> PdfRun.Visit)
    (fuel round : nat) (st : PdfRun.Run) :
  PdfRun.consecutiveEmptyPages st < PdfRun.maxEmptyPages ->
  (forall i, (i < fuel)%nat ->
     PdfRun.failing (web (round + i)%nat)
       (PdfRun.currentPage st + Z.of_nat i * PdfRun.TOTAL_CONCURRENCY)) ->
  PdfRun.run web fuel round st = None /\
  PdfRun.currentPage (PdfRun.after web fuel round st) =
    PdfRun.currentPage st + Z.of_nat fuel * PdfRun.TOTAL_CONCURRENCY /\
  (fuel <> 0%nat ->
   PdfRun.consecutiveEmptyPages (PdfRun.after web fuel round st) = 0).
Proof.
  intros Hlt Hf. split; [by apply run_failing|].
  revert round st Hlt Hf. induction fuel as [|fuel IH]; intros round st Hlt Hf.
  - simpl. split; [lia|done].
  - cbn [PdfRun.after].
    replace (PdfRun.consecutiveEmptyPages st <? PdfRun.maxEmptyPages) with true
      by (symmetry; apply Z.ltb_lt; lia).
    assert (PdfRun.failing (web round) (PdfRun.currentPage st)) as Hf0.
    { specialize (Hf 0%nat). rewrite Nat.add_0_r in Hf.
      replace (PdfRun.currentPage st + Z.of_nat 0 * PdfRun.TOTAL_CONCURRENCY)
        with (PdfRun.currentPage st) in Hf by lia. apply Hf. lia. }
    destruct (failing_batch (web round) st Hf0) as (Hc & He).
    destruct (IH (S round) (PdfRun.batch (web round) st)) as (IHc & IHe).
    + rewrite He. by vm_compute.
    + intros i Hi. specialize (Hf (S i)).
      replace (S round + i)%nat with (round + S i)%nat by lia.
      replace (PdfRun.currentPage (PdfRun.batch (web round) st)
               + Z.of_nat i * PdfRun.TOTAL_CONCURRENCY)
        with (PdfRun.currentPage st + Z.of_nat (S i) * PdfRun.TOTAL_CONCURRENCY)
        by lia.
      apply Hf. lia.
    + split; [rewrite IHc, Hc; lia|]. intros _.
      destruct fuel as [|fuel']; [exact He|by apply IHe].
Qed.

(** * The properties of the batch scraper at concrete inputs *)

(** A site that answers every page with the same anchor. *)
Lemma one_anchor_line_hrefs :
  PdfRun.line_hrefs
    (fun _ _ => PdfRun.Response 200 (Some ["https://a.example/x.pdf"])).
Proof. intros round url status hrefs [= _ <-]. by repeat constructor. Qed.

(** No link file, one batch. *)
Lemma link_file_in_step_witness :
  let web (round : nat) (url : string) :=
    PdfRun.Response 200 (Some ["https://a.example/x.pdf"]) in
  let st := PdfRun.initial None ∅ in
  PdfRun.line_hrefs web /\ PdfRun.in_step st /\
  PdfRun.in_step (PdfRun.after web 1 0 st).
Proof.
  intros web st.
  assert (PdfRun.in_step st) as Hstep by (split; [exact I|reflexivity]).
  split; [exact one_anchor_line_hrefs|]. split; [exact Hstep|].
  exact (proj1 (link_file_in_step web 1 0 st one_anchor_line_hrefs Hstep)).
Defined.

(** One batch of thirty pages with the same anchor, once on every page:
    one link more in the set, and one in the counter. *)
Lemma links_added_bounds_growth_witness :
  let web (round : nat) (url : string) :=
    PdfRun.Response 200 (Some ["https://a.example/x.pdf"]) in
  let st := PdfRun.initial None ∅ in
  let st' := PdfRun.after web 1 0 st in
  (forall round url status hrefs,
     web round url = PdfRun.Response status (Some hrefs) -> NoDup hrefs) /\
  size (PdfRun.existingLinks st') = 1%nat /\
  Z.of_nat (size (PdfRun.existingLinks st')) - Z.of_nat (size (PdfRun.existingLinks st))
    = PdfRun.linksAddedThisRun st' - PdfRun.linksAddedThisRun st.
Proof.
  intros web st st'.
  assert (forall round url status hrefs,
            web round url = PdfRun.Response status (Some hrefs) -> NoDup hrefs) as Hnd.
  { intros round url status hrefs [= _ <-]. apply NoDup_singleton. }
  split; [exact Hnd|]. split; [vm_compute; reflexivity|].
  exact (proj2 (proj2 (links_added_bounds_growth web 1 0 st)) Hnd).
Defined.

(** Five batches without an anchor from the start. *)
Lemma quiet_batches_end_the_run_witness :
  let web (round : nat) (url : string) := PdfRun.Response 200 (Some []) in
  let st := PdfRun.initial None ∅ in
  PdfRun.consecutiveEmptyPages st + Z.of_nat 5 = PdfRun.maxEmptyPages /\
  exists st',
    PdfRun.run web 5 0 st = Some st' /\
    PdfRun.currentPage st' = PdfRun.START_PAGE + 5 * PdfRun.TOTAL_CONCURRENCY.
Proof.
  intros web st.
  assert (PdfRun.consecutiveEmptyPages st + Z.of_nat 5 = PdfRun.maxEmptyPages)
    as Hk by reflexivity.
  split; [exact Hk|].
  destruct (quiet_batches_end_the_run web 5 5 0 st Hk (le_n 5))
    as (st' & Hrun & Hc & _).
  - intros i _ p _. exists 200. split; reflexivity.
  - exists st'. split; [exact Hrun|exact Hc].
Defined.

(** A site that is down, three batches. *)
Lemma failing_batches_never_end_witness :
  let web (round : nat) (url : string) := PdfRun.GotoThrows in
  let st := PdfRun.initial None ∅ in
  PdfRun.consecutiveEmptyPages st < PdfRun.maxEmptyPages /\
  PdfRun.run web 3 0 st = None.
Proof.
  intros web st.
  assert (PdfRun.consecutiveEmptyPages st < PdfRun.maxEmptyPages) as Hlt
    by reflexivity.
  split; [exact Hlt|].
  refine (proj1 (failing_batches_never_end web 3 0 st Hlt _)).
  intros i _. exists (PdfRun.currentPage st + Z.of_nat i * PdfRun.TOTAL_CONCURRENCY).
  split; [unfold PdfRun.TOTAL_CONCURRENCY, PdfRun.TABS_PER_BROWSER, PdfRun.NUM_BROWSERS; lia
         |reflexivity].
Defined.


(* ================================================================== *)
(** * The progress line *)

Section ConsoleFacts.
Import Console.

Lemma spaces_length n : String.length (spaces n) = n.
Proof. induction n as [|n IH]; simpl; [done|]. by rewrite IH. Qed.

Lemma padEnd_length s n : String.length (padEnd s n) = Nat.max (String.length s) n.
Proof. unfold padEnd. rewrite append_length, spaces_length. lia. Qed.

Lemma max_list_snoc l x : max_list (l ++ [x]) = Nat.max (max_list l) x.
Proof.
  induction l as [|y l IH]; [simpl; unfold id; lia|].
  cbn [app]. change (max_list (y :: l ++ [x])) with (Nat.max y (max_list (l ++ [x]))).
  change (max_list (y :: l)) with (Nat.max y (max_list l)). rewrite IH. lia.
Qed.

Lemma logProgress_run ms : forall st,
  let st' := foldl (fun st m => logProgress true m st) st ms in
  lastLogLength st' = Nat.max (lastLogLength st) (max_list (String.length <$> ms)) /\
  length (written st') = (length (written st) + length ms)%nat /\
  (forall j w, written st !! j = Some w -> written st' !! j = Some w) /\
  forall i m, ms !! i = Some m ->
    written st' !! (length (written st) + i)%nat
      = Some (String "013"
                (padEnd m (Nat.max (lastLogLength st)
                             (max_list (String.length <$> take i ms))))).
Proof.
  induction ms as [|m0 ms IH]; intros st; cbn [foldl]; cbv zeta.
  - simpl. split; [lia|]. split; [lia|]. split; [done|]. intros i m Hi. done.
  - set (st1 := logProgress true m0 st).
    assert (lastLogLength st1 = Nat.max (lastLogLength st) (String.length m0))
      as Hl1 by done.
    assert (written st1 = written st ++ [String "013" (padEnd m0 (lastLogLength st))])
      as Hw1 by done.
    destruct (IH st1) as (Hl & Hn & Hkeep & Hw). clearbody st1.
    split; [|split; [|split]].
    + rewrite Hl, Hl1. cbn [fmap list_fmap max_list]. unfold id. lia.
    + rewrite Hn, Hw1, length_app. simpl. lia.
    + intros j w Hj. apply Hkeep. rewrite Hw1. by apply lookup_app_l_Some.
    + intros [|i] m Hi.
      * injection Hi as <-. rewrite Nat.add_0_r. apply Hkeep.
        rewrite Hw1, lookup_app_r, Nat.sub_diag by lia.
        cbn [take fmap list_fmap max_list]. by rewrite Nat.max_0_r.
      * simpl in Hi. specialize (Hw i m Hi).
        rewrite Hw1, length_app in Hw. cbn [length] in Hw.
        replace (length (written st) + S i)%nat
          with (length (written st) + 1 + i)%nat by lia.
        rewrite Hw, Hl1. cbn [take fmap list_fmap max_list]. unfold id. do 3 f_equal. lia.
Qed.

End ConsoleFacts.

(** X23. The progress line covers what was written before: with logging
    enabled every message gives one write, a carriage return followed by
    the message padded with spaces to the length of the longest message
    before it, so that each write is as long as the longest message so far
    and never shorter than an earlier write; with logging disabled nothing
    is written. *)
Theorem logProgress_covers (messages : list string) :
  let st := foldl (fun st m => Console.logProgress true m st) Console.start messages in
  length (Console.written st) = length messages /\
  Console.lastLogLength st = max_list (String.length <$> messages) /\
  (forall i m, messages !! i = Some m ->
     exists w,
       Console.written st !! i = Some w /\
       w = String "013"
             (m +:+ Console.spaces
                      (max_list (String.length <$> take i messages) - String.length m)) /\
       String.length w = S (max_list (String.length <$> take (S i) messages))) /\
  foldl (fun st m => Console.logProgress false m st) Console.start messages
    = Console.start.
Proof.
  intros st. destruct (logProgress_run messages Console.start) as (Hl & Hn & Hw).
  fold st in Hl, Hn, Hw. simpl in Hl, Hn, Hw.
  split; [exact Hn|]. split; [exact Hl|]. split.
  - intros i m Hi. destruct Hw as [_ Hw]. specialize (Hw i m Hi).
    eexists. split; [exact Hw|]. split; [done|].
    simpl. rewrite padEnd_length. f_equal.
    rewrite (take_S_r _ _ _ Hi), fmap_app. cbn [fmap list_fmap].
    rewrite max_list_snoc. lia.
  - clear. induction messages as [|m ms IH]; [done|]. exact IH.
Qed.

(** Two messages, the second shorter than the first. *)
Lemma logProgress_covers_witness :
  let messages := ["Page: 10 | Found: 3"; "Page: 9"] in
  let st := foldl (fun st m => Console.logProgress true m st) Console.start messages in
  messages !! 1%nat = Some "Page: 9" /\
  exists w, Console.written st !! 1%nat = Some w /\ String.length w = 20%nat.
Proof.
  intros messages st.
  assert (messages !! 1%nat = Some "Page: 9") as Hi by reflexivity.
  split; [exact Hi|].
  destruct (proj1 (proj2 (proj2 (logProgress_covers messages))) 1%nat "Page: 9" Hi)
    as (w & Hw & _ & Hlen).
  exists w. split; [exact Hw|exact Hlen].
Defined.


(* ================================================================== *)
(** * The counters of the closing message *)

Section CounterFacts.
Import Scheduler.
Variable cfg : Config.
Variable newURL : string -> option string.

Lemma counted_refl st : Invariant.counted st st.
Proof. unfold Invariant.counted. lia. Qed.

Lemma counted_trans st1 st2 st3 :
  Invariant.counted st1 st2 -> Invariant.counted st2 st3 -> Invariant.counted st1 st3.
Proof. unfold Invariant.counted. lia. Qed.

Lemma add_counts u ls :
  0 <= LinkStore.newLinksThisRun (LinkStore.add u ls) - LinkStore.newLinksThisRun ls <= 1.
Proof. unfold LinkStore.add. destruct (decide _); simpl; lia. Qed.

Lemma addHrefs_counts hs : forall ls ls',
  addHrefs newURL hs ls = Some ls' ->
  0 <= LinkStore.newLinksThisRun ls' - LinkStore.newLinksThisRun ls
    <= Z.of_nat (length hs).
Proof.
  induction hs as [|h hs IH]; intros ls ls'; simpl.
  - intros [= <-]. lia.
  - destruct (newURL h) as [u|]; [|done]. intros H. apply IH in H.
    pose proof (add_counts u ls). lia.
Qed.

Lemma processResult_counted r st st' stop :
  processResult cfg newURL r st = Some (st', stop) -> Invariant.counted st st'.
Proof.
  unfold processResult.
  destruct (blocked r); [intros [= <- <-]; apply counted_refl|].
  destruct (length (hrefs r) =? 0)%nat eqn:E; cbv zeta.
  - destruct (_ <=? _); intros [= <- <-]; unfold Invariant.counted; simpl; lia.
  - destruct (addHrefs _ _ _) as [ls|] eqn:Ea; [|done]. intros [= <- <-].
    apply addHrefs_counts in Ea. simpl in Ea.
    apply Nat.eqb_neq in E. unfold Invariant.counted. simpl. lia.
Qed.

Lemma processResults_counted rs : forall st st',
  processResults cfg newURL rs st = Some st' -> Invariant.counted st st'.
Proof.
  induction rs as [|r rs IH]; intros st st'; simpl.
  - intros [= <-]. apply counted_refl.
  - destruct (processResult cfg newURL r st) as [[st1 []]|] eqn:E; [| |done].
    + intros [= <-]. by apply processResult_counted in E.
    + intros H. eapply counted_trans; [by eapply processResult_counted|by apply IH].
Qed.

Lemma processBatch_counted now rs st st' flow :
  processBatch cfg newURL now rs st = Some (st', flow) -> Invariant.counted st st'.
Proof.
  unfold processBatch. destruct (_ =? _)%nat.
  - cbv zeta. destruct (_ <=? _); intros [= <- <-];
      unfold Invariant.counted; simpl; lia.
  - destruct (processResults _ _ _ _) as [st1|] eqn:E; [|done].
    apply processResults_counted in E.
    assert (Invariant.counted st st1) as Hc
      by (by destruct (count_blocked rs =? 0)%nat).
    cbv zeta. intros [= <- <-].
    destruct (_ && _); destruct (Z.rem _ _ =? 0); exact Hc.
Qed.

Lemma loop_counted net clock fuel : forall round st st',
  loop cfg newURL net clock fuel round st = Finished st' -> Invariant.counted st st'.
Proof.
  induction fuel as [|fuel IH]; intros round st st'; cbn [loop].
  - destruct (_ && _); [done|]. intros [= <-]. apply counted_refl.
  - destruct (_ && _); [|intros [= <-]; apply counted_refl].
    destruct (iteration _ _ _ _ _) as [[st1 []]|] eqn:E; [| |done];
      unfold iteration, aggregate in E; apply processBatch_counted in E.
    + intros H. apply IH in H. eapply counted_trans; [exact E|exact H].
    + by intros [= <-].
Qed.

End CounterFacts.

(** X24. The counters of the closing message are in order: over any
    session that ends, [newLinksThisRun], [linksFoundThisRun] and
    [pagesProcessed] only grow, no more links are admitted than were found
    ([New] never exceeds [Found] in the progress line), and
    [pagesProcessed] counts only pages on which a link was found, so it
    never exceeds [linksFoundThisRun] either; a session entered in the
    initial state ends with all three at least zero. *)
Theorem found_bounds_new (cfg : Scheduler.Config) (newURL : string -> option string)
    (net : nat -> Z -> nat -> Fetcher.Attempt) (clock : nat -> string)
    (fuel round : nat) (st st' : Scheduler.Session) :
  Scheduler.loop cfg newURL net clock fuel round st = Scheduler.Finished st' ->
  Invariant.counted st st' /\
  (forall startPage files, st = Scheduler.initial cfg startPage files ->
     0 <= LinkStore.newLinksThisRun (Scheduler.links st')
       <= Scheduler.linksFoundThisRun st' /\
     0 <= Scheduler.pagesProcessed st' <= Scheduler.linksFoundThisRun st').
Proof.
  intros H. apply loop_counted in H. split; [exact H|].
  intros startPage files ->. unfold Invariant.counted in H. simpl in H. lia.
Qed.

(** The session over the last two pages: three links found on two pages,
    one of them new. *)
Lemma found_bounds_new_witness :
  let cfg := Scheduler.shipped 500 in
  let newURL (href : string) := if LinkStore.url_line href then Some href else None in
  let x := "https://a.example/x.pdf" in
  let y := "https://a.example/y.pdf" in
  let both := Fetcher.Responds
    {| Fetcher.status := 200;
       Fetcher.text := Html.href_attribute x +:+ Html.href_attribute y |} in
  let one := Fetcher.Responds
    {| Fetcher.status := 200; Fetcher.text := Html.href_attribute y |} in
  let net (round : nat) (pageNumber : Z) (attempt : nat) :=
    if pageNumber =? MAX_PAGE then one else both in
  let clock (round : nat) := EmptyString in
  let files : Files := {[ Scheduler.outputPath cfg := x +:+ String "010" EmptyString ]} in
  let st := Scheduler.initial cfg (MAX_PAGE - 1) files in
  exists st',
    Scheduler.loop cfg newURL net clock 2 0 st = Scheduler.Finished st' /\
    LinkStore.newLinksThisRun (Scheduler.links st') = 1 /\
    Scheduler.pagesProcessed st' = 2 /\
    Scheduler.linksFoundThisRun st' = 3 /\
    Invariant.counted st st' /\
    0 <= LinkStore.newLinksThisRun (Scheduler.links st')
      <= Scheduler.linksFoundThisRun st' /\
    0 <= Scheduler.pagesProcessed st' <= Scheduler.linksFoundThisRun st'.
Proof.
  intros cfg newURL x y both one net clock files st.
  destruct closing_session_ends as (st' & Hrun & _ & _ & Hnew & Hfound & Hpages).
  destruct (found_bounds_new cfg newURL net clock 2 0 st st' Hrun) as (Hc & Hinit).
  destruct (Hinit (MAX_PAGE - 1) files eq_refl) as (H1 & H2).
  exists st'. split; [exact Hrun|]. split; [exact Hnew|]. split; [exact Hpages|].
  split; [exact Hfound|]. split; [exact Hc|]. split; [exact H1|exact H2].
Defined.

(** A page that names the same anchor twice: one link more in the set, two
    in [linksAddedThisRun]. *)
Lemma repeated_anchor_counted_twice :
  let goto (url : string) :=
    PdfRun.Response 200 (Some ["https://a.example/x.pdf"; "https://a.example/x.pdf"]) in
  let st := PdfRun.initial None ∅ in
  let st' := (PdfRun.record (PdfRun.scrapePage goto PdfRun.START_PAGE) (st, true)).1 in
  size (PdfRun.existingLinks st') = 1%nat /\ PdfRun.linksAddedThisRun st' = 2.
Proof. vm_compute. done. Qed.
